(** * The CAAS application provisioner worker and the blocking operation queue

    A shallow embedding of the application worker of package
    [caasapplicationprovisioner] (the event loop of [loop] with its closure
    [handleChange], and the decisions [ensureScale], [ensureTrust], [alive],
    [dying], [dead], [waitForTerminated], [reconcileDeadUnitScale],
    [refreshApplicationStatus], [updateState], [updateProvisioningState]),
    followed by a model of the blocking operation queue of package [queue],
    of which the sources hold the test suite only.

    The worker is sequential Go code that talks to three remote
    collaborators through interfaces (the provisioner facade, the unit
    facade and the substrate application).  Each interface is a type class
    of world transformers; the worker itself is written in a small state
    monad that threads the worker's own fields, the world, and a trace of
    every interface call made. *)

From Stdlib Require Import ZArith Lia Bool.
From stdpp Require Import base strings pretty list gmap.

Local Open Scope string_scope.
Local Open Scope list_scope.
Local Open Scope Z_scope.

(** ** Go machine integers *)

(** Go's [int] is 64 bits wide on every platform the worker runs on;
    arithmetic wraps around silently. *)
Definition int_wrap (z : Z) : Z := (z + 2 ^ 63) mod 2 ^ 64 - 2 ^ 63.
Definition int_add (x y : Z) : Z := int_wrap (x + y).
Definition int_sub (x y : Z) : Z := int_wrap (x - y).
Definition int_max : Z := 2 ^ 63 - 1.
Definition in_int (z : Z) : Prop := - 2 ^ 63 <= z <= int_max.

(** [len] of a slice. *)
Definition len {A} (l : list A) : Z := Z.of_nat (length l).

(** ** Errors *)

(** The error kinds the worker tells apart with [errors.Is] and friends.
    [TryAgain] is the worker's own [tryAgain] constant; [CodeTryAgain] is the
    RPC error code recognised by [params.IsCodeTryAgain]. *)
Inductive ErrKind :=
  | NotFound | Forbidden | NotImplemented | NotValid
  | TryAgain | CodeTryAgain | Generic.

#[global] Instance ErrKind_eq_dec : EqDecision ErrKind.
Proof. solve_decision. Defined.

(** A Go error value: a root error, or an error wrapped with some context
    ([errors.Annotatef], [errors.Trace], [fmt.Errorf] with [%w]).  Wrapping
    keeps the chain, so [errors.Is] still sees the root. *)
Inductive error :=
  | ErrNew (k : ErrKind) (msg : string)
  | ErrWrap (ctx : string) (cause : error).

#[global] Instance error_eq_dec : EqDecision error.
Proof. solve_decision. Defined.

Fixpoint err_kind (e : error) : ErrKind :=
  match e with
  | ErrNew k _ => k
  | ErrWrap _ c => err_kind c
  end.

(** [err.Error()] *)
Fixpoint err_msg (e : error) : string :=
  match e with
  | ErrNew _ m => m
  | ErrWrap EmptyString c => err_msg c
  | ErrWrap ctx c => ctx ++ ": " ++ err_msg c
  end.

(** [errors.Is(err, target)] for one of the sentinel kinds. *)
Definition errors_Is (e : error) (k : ErrKind) : bool := bool_decide (err_kind e = k).

(** The test [err != nil && !errors.Is(err, k)]: the error when it holds. *)
Definition err_unless (k : ErrKind) (err : option error) : option error :=
  match err with
  | Some e => if errors_Is e k then None else Some e
  | None => None
  end.

(** [errors.Trace] records the call site only. *)
Definition Trace (e : error) : error := ErrWrap EmptyString e.
(** [errors.Annotatef(err, ctx)] and [fmt.Errorf(ctx + ": %w", err)]. *)
Definition Annotate (e : error) (ctx : string) : error := ErrWrap ctx e.

(** [const tryAgain errors.ConstError = "try again"] *)
Definition tryAgain : error := ErrNew TryAgain "try again".

(** [%q] of a string (escapes left aside). *)
Definition quote (s : string) : string :=
  String (Ascii.ascii_of_nat 34) (s ++ String (Ascii.ascii_of_nat 34) EmptyString).

(** ** Data *)

(** [life.Value] is a string type; anything but the three known values
    takes the [default] branch wherever the worker switches on it. *)
Inductive life_Value := Alive | Dying | Dead | OtherLife (s : string).

#[global] Instance life_Value_eq_dec : EqDecision life_Value.
Proof. solve_decision. Defined.

(** [status.Status] is a string type too. *)
Definition Status := string.
Definition Active : Status := "active".
Definition Waiting : Status := "waiting".
Definition Error : Status := "error".
Definition Unknown : Status := "unknown".

(** Values the worker only passes along or compares with
    [reflect.DeepEqual]: each is a type with decidable equality.  The pure
    helpers of other packages the worker calls are listed with them. *)
Class Opaque := {
  Data : Type;                    (* map[string]interface{} *)
  Data_eq :: EqDecision Data;
  nilData : Data;
  Version : Type;                 (* version.Number *)
  Version_eq :: EqDecision Version;
  Constraints : Type;             (* constraints.Value *)
  Constraints_eq :: EqDecision Constraints;
  Filesystems : Type;             (* []storage.KubernetesFilesystemParams *)
  Filesystems_eq :: EqDecision Filesystems;
  Devices : Type;                 (* []devices.KubernetesDeviceParams *)
  Devices_eq :: EqDecision Devices;
  DockerImageDetails : Type;      (* resources.DockerImageDetails *)
  DockerImageDetails_eq :: EqDecision DockerImageDetails;
  ProviderAddresses : Type;       (* network.ProviderAddresses *)
  ParamsAddresses : Type;         (* []params.Address *)
  UnitTag : Type;                 (* names.UnitTag *)
  FromProviderAddresses : ProviderAddresses -> ParamsAddresses;
  ParseUnitTag : string -> UnitTag * option error;
  (* podcfg.ImageForBase(repository, base name, channel track, channel risk) *)
  ImageForBase : string -> string -> string -> string -> string * option error;
}.

Section Worker.
Context `{Opaque}.

Record StatusInfo := {
  si_Status : Status;
  si_Message : string;
  si_Data : Data;
  si_Since : option Z;
}.

#[global] Instance StatusInfo_eq_dec : EqDecision StatusInfo.
Proof. solve_decision. Defined.

(** [params.CAASUnit]: the unit's tag (by its id) and the agent status found
    under [UnitStatus.AgentStatus.Status]. *)
Record CAASUnit := {
  Tag : string;
  AgentStatus : string;
}.

(** [params.CAASApplicationProvisioningState] *)
Record CAASApplicationProvisioningState := {
  Scaling : bool;
  ScaleTarget : Z;
}.

(** [caas.ApplicationState] *)
Record ApplicationState := {
  DesiredReplicas : Z;
  Replicas : list string;
}.

(** [caas.DeploymentState], the answer of [app.Exists()]. *)
Record DeploymentState := {
  Exists : bool;
  Terminating : bool;
}.

Record MountConfig := {
  StorageName : string;
  Path : string;
}.

Record ContainerConfig := {
  cc_Name : string;
  cc_Image : DockerImageDetails;
  cc_Mounts : list MountConfig;
}.

#[global] Instance MountConfig_eq_dec : EqDecision MountConfig.
Proof. solve_decision. Defined.
#[global] Instance ContainerConfig_eq_dec : EqDecision ContainerConfig.
Proof. solve_decision. Defined.

(** [caas.ApplicationConfig].  A Go map is [nil] or a map, and
    [reflect.DeepEqual] tells the two apart, hence the options. *)
Record ApplicationConfig := {
  IsPrivateImageRepo : bool;
  IntroductionSecret : string;
  AgentVersion : Version;
  AgentImagePath : string;
  ControllerAddresses : string;
  ControllerCertBundle : string;
  ResourceTags : option (gmap string string);
  cfg_Constraints : Constraints;
  cfg_Filesystems : Filesystems;
  cfg_Devices : Devices;
  CharmBaseImagePath : string;
  Containers : option (gmap string ContainerConfig);
  CharmModifiedVersion : Z;
  cfg_Trust : bool;
  InitialScale : Z;
}.

#[global] Instance ApplicationConfig_eq_dec : EqDecision ApplicationConfig.
Proof. solve_decision. Defined.

(** [reflect.DeepEqual] on two application configs. *)
Definition DeepEqual_config (x y : ApplicationConfig) : bool := bool_decide (x = y).
Definition DeepEqual_status (x y : StatusInfo) : bool := bool_decide (x = y).

(** The image details of the provisioning info: what [alive] reads of it. *)
Record ImageDetails := {
  Repository : string;
  RegistryPath : string;
  IsPrivate : bool;               (* the method IsPrivate() *)
}.

(** [api ProvisioningInfo] *)
Record ProvisioningInfo := {
  pi_Version : Version;
  APIAddresses : list string;
  CACert : string;
  pi_Tags : option (gmap string string);
  pi_Constraints : Constraints;
  pi_Filesystems : Filesystems;
  pi_Devices : Devices;
  Base_Name : string;
  Base_Channel_Track : string;
  Base_Channel_Risk : string;
  pi_ImageDetails : ImageDetails;
  pi_CharmModifiedVersion : Z;
  CharmURL : option string;       (* *charm.URL, by its String() *)
  pi_Trust : bool;
  pi_Scale : Z;
}.

(** [charm.Container] with its mounts, and the part of the charm info
    [alive] reads: [Charm().Meta().Containers]. *)
Record charm_Mount := {
  Storage : string;
  Location : string;
}.
Record charm_Container := {
  Resource : string;
  Mounts : list charm_Mount;
}.
Record CharmInfo := {
  Meta_Containers : gmap string charm_Container;
}.

(** [caas.VolumeInfo], [caas.FilesystemInfo], [caas.Unit], [caas.Service] *)
Record VolumeInfo := {
  VolumeId : string;
  vol_Size : Z;
  Persistent : bool;
  vol_Status : StatusInfo;
}.
Record FilesystemInfo := {
  fs_StorageName : string;
  FilesystemId : string;
  fs_Size : Z;
  MountPoint : string;
  ReadOnly : bool;
  fs_Status : StatusInfo;
  Volume : VolumeInfo;
}.
Record caas_Unit := {
  u_Id : string;
  u_Address : string;
  u_Ports : list string;
  u_Dying : bool;
  u_Stateful : bool;
  u_Status : StatusInfo;
  u_FilesystemInfo : list FilesystemInfo;
}.
Record caas_Service := {
  svc_Id : string;
  svc_Addresses : ProviderAddresses;
  svc_Status : StatusInfo;
}.

(** The [params] structures [updateState] sends. *)
Record EntityStatus := {
  es_Status : Status;
  es_Info : string;
  es_Data : Data;
}.
Record KubernetesVolumeInfo := {
  kv_VolumeId : string;
  kv_Size : Z;
  kv_Persistent : bool;
  kv_Status : string;
  kv_Info : string;
  kv_Data : Data;
}.
Record KubernetesFilesystemInfo := {
  kf_StorageName : string;
  kf_FilesystemId : string;
  kf_Size : Z;
  kf_MountPoint : string;
  kf_ReadOnly : bool;
  kf_Status : string;
  kf_Info : string;
  kf_Data : Data;
  kf_Volume : KubernetesVolumeInfo;
}.
Record ApplicationUnitParams := {
  up_ProviderId : string;
  up_Address : string;
  up_Ports : list string;
  up_Stateful : bool;
  up_Status : string;
  up_Info : string;
  up_Data : Data;
  up_FilesystemInfo : list KubernetesFilesystemInfo;
}.
Record UpdateApplicationUnits := {
  ua_ApplicationTag : string;
  ua_Status : EntityStatus;
  ua_Units : list ApplicationUnitParams;
}.
Record UpdateApplicationServiceArg := {
  us_ApplicationTag : string;
  us_ProviderId : string;
  us_Addresses : ParamsAddresses;
}.
Record ApplicationUnitInfo := {
  ui_ProviderId : string;
  ui_UnitTag : string;
}.
Record UpdateApplicationUnitsInfo := {
  ui_Units : list ApplicationUnitInfo;
}.

(** ** The collaborators

    Every interface method is a transformer of the world [W]: it answers
    and may change the world, so two reads in a row need not agree.  A Go
    method returning [(T, error)] answers with a pair, since the worker
    sometimes uses the value next to a suppressed error. *)

Context {W : Type}.

(** [CAASProvisionerFacade] *)
Class CAASProvisionerFacade := {
  Life : string -> W -> (life_Value * option error) * W;
  Units : string -> W -> (list CAASUnit * option error) * W;
  RemoveUnit : string -> W -> option error * W;
  DestroyUnits : list string -> W -> option error * W;
  SetProvisioningState : string -> CAASApplicationProvisioningState -> W -> option error * W;
  SetOperatorStatus : string -> Status -> string -> Data -> W -> option error * W;
  GetProvisioningInfo : string -> W -> (ProvisioningInfo * option error) * W;
  GetCharmInfo : string -> W -> (CharmInfo * option error) * W;
  ApplicationOCIResources : string -> W -> (gmap string DockerImageDetails * option error) * W;
  ClearApplicationResources : string -> W -> option error * W;
  UpdateUnits : UpdateApplicationUnits -> W -> (option UpdateApplicationUnitsInfo * option error) * W;
  (* WatchProvisioningInfo followed by catacomb.Add of the watcher *)
  WatchProvisioningInfo : string -> W -> (option error * option error) * W;
}.

(** [CAASUnitProvisionerFacade] *)
Class CAASUnitProvisionerFacade := {
  ApplicationScale : string -> W -> (Z * option error) * W;
  ApplicationTrust : string -> W -> (bool * option error) * W;
  UpdateApplicationService : UpdateApplicationServiceArg -> W -> option error * W;
}.

(** [caas.Application], the handle [broker.Application(name, stateful)]
    gives, with the one broker method the worker calls on the side. *)
Class Application := {
  Ensure : ApplicationConfig -> W -> option error * W;
  GetExists : W -> (DeploymentState * option error) * W;
  Delete : W -> option error * W;
  Scale : Z -> W -> option error * W;
  UnitsToRemove : Z -> W -> (list string * option error) * W;
  Trust : bool -> W -> option error * W;
  State : W -> (ApplicationState * option error) * W;
  Service : W -> (option caas_Service * option error) * W;
  AppUnits : W -> (list caas_Unit * option error) * W;
  (* Watch / WatchReplicas, each followed by catacomb.Add *)
  Watch : W -> (option error * option error) * W;
  WatchReplicas : W -> (option error * option error) * W;
  AnnotateUnit : string -> string -> UnitTag -> W -> option error * W;
}.

(** [clock.Clock]: times and durations are nanoseconds. *)
Class Clock := {
  Now : W -> Z;
  (* blocking on <-clock.After(d) *)
  After : Z -> W -> W;
}.

Context `{!CAASProvisionerFacade, !CAASUnitProvisionerFacade, !Application, !Clock}.

(** The calls the worker makes, with their arguments, in program order. *)
Inductive Call :=
  | CLife (n : string)
  | CUnits (n : string)
  | CRemoveUnit (id : string)
  | CDestroyUnits (l : list string)
  | CSetProvisioningState (n : string) (ps : CAASApplicationProvisioningState)
  | CSetOperatorStatus (n : string) (s : Status) (reason : string) (d : Data)
  | CProvisioningInfo (n : string)
  | CCharmInfo (url : string)
  | CApplicationOCIResources (n : string)
  | CClearApplicationResources (n : string)
  | CUpdateUnits (args : UpdateApplicationUnits)
  | CWatchProvisioningInfo (n : string)
  | CApplicationScale (n : string)
  | CApplicationTrust (n : string)
  | CUpdateApplicationService (arg : UpdateApplicationServiceArg)
  | CEnsure (config : ApplicationConfig)
  | CExists
  | CDelete
  | CScale (n : Z)
  | CUnitsToRemove (n : Z)
  | CTrust (b : bool)
  | CState
  | CService
  | CAppUnits
  | CWatch
  | CWatchReplicas
  | CAnnotateUnit (n providerId : string) (tag : UnitTag)
  | CAfter (d : Z).

(** ** The worker and its monad *)

(** The fields of [appWorker] that change or are read by the decisions. *)
Record appWorker := {
  name : string;
  password : string;
  lastApplied : ApplicationConfig;
  life : life_Value;
  ps : CAASApplicationProvisioningState;
}.

Record St := {
  worker : appWorker;
  world : W;
  trace : list Call;
}.

Definition M (A : Type) : Type := St -> A * St.

Definition ret {A} (x : A) : M A := fun s => (x, s).
Definition bind {A B} (m : M A) (k : A -> M B) : M B :=
  fun s => let (x, s') := m s in k x s'.

Notation "'let*' p ':=' m 'in' k" := (bind m (fun p => k))
  (at level 10, p pattern, m at level 100, k at level 200).

(** One interface call: the world moves on and the call is recorded. *)
Definition call {R} (c : Call) (op : W -> R * W) : M R :=
  fun s => let (r, w) := op (world s) in
           (r, {| worker := worker s; world := w; trace := trace s ++ [c] |}).

Definition get : M appWorker := fun s => (worker s, s).
Definition put (a : appWorker) : M unit :=
  fun s => (tt, {| worker := a; world := world s; trace := trace s |}).

Definition set_ps (a : appWorker) (p : CAASApplicationProvisioningState) : appWorker :=
  {| name := name a; password := password a; lastApplied := lastApplied a;
     life := life a; ps := p |}.
Definition set_lastApplied (a : appWorker) (c : ApplicationConfig) : appWorker :=
  {| name := name a; password := password a; lastApplied := c;
     life := life a; ps := ps a |}.
Definition set_life (a : appWorker) (l : life_Value) : appWorker :=
  {| name := name a; password := password a; lastApplied := lastApplied a;
     life := l; ps := ps a |}.

(** ** Provisioning state and application status *)

(** [params.IsCodeTryAgain] *)
Definition IsCodeTryAgain (err : option error) : bool :=
  match err with
  | Some e => errors_Is e CodeTryAgain
  | None => false
  end.

Definition updateProvisioningState (scaling : bool) (scaleTarget : Z) : M (option error) :=
  let* a := get in
  let newPs := {| Scaling := scaling; ScaleTarget := scaleTarget |} in
  let* err := call (CSetProvisioningState (name a) newPs)
                   (SetProvisioningState (name a) newPs) in
  if IsCodeTryAgain err then ret (Some tryAgain)
  else match err with
  | Some e =>
      ret (Some (Annotate e ("setting provisiong state for application " ++ quote (name a))))
  | None =>
      let* _ := put (set_ps a newPs) in
      ret None
  end.

Definition setApplicationStatus (s : Status) (reason : string) (data : Data) : M (option error) :=
  let* a := get in
  call (CSetOperatorStatus (name a) s reason data) (SetOperatorStatus (name a) s reason data).

(** ** [reconcileDeadUnitScale] *)

(** The loop over the units that asks for each unit's life and keeps the
    dead ones (lines 920-929). *)
Fixpoint collectDeadUnits (units deadUnits : list CAASUnit) : M (list CAASUnit * option error) :=
  match units with
  | [] => ret (deadUnits, None)
  | unit :: rest =>
      let* (unitLife, err) := call (CLife (Tag unit)) (Life (Tag unit)) in
      match err with
      | Some e => ret (deadUnits, Some (Annotate e ("getting life for unit " ++ quote (Tag unit))))
      | None =>
          collectDeadUnits rest
            (if bool_decide (unitLife = Dead) then deadUnits ++ [unit] else deadUnits)
      end
  end.

(** The loop that removes the dead units through the facade (lines 960-965). *)
Fixpoint removeDeadUnits (deadUnits : list CAASUnit) : M (option error) :=
  match deadUnits with
  | [] => ret None
  | deadUnit :: rest =>
      let* err := call (CRemoveUnit (Tag deadUnit)) (RemoveUnit (Tag deadUnit)) in
      match err_unless NotFound err with
      | Some e => ret (Some (Annotate e ("removing dead unit " ++ quote (Tag deadUnit))))
      | None => removeDeadUnits rest
      end
  end.

(** The value of the variable [unitsToRemove] when it is compared with the
    number of dead units: [len(units) - desiredScale] (line 918), replaced by
    [len(deadUnits)] when it is not positive (lines 931-933). *)
Definition unitsToRemove (nUnits desiredScale nDead : Z) : Z :=
  let unitsToRemove := int_sub nUnits desiredScale in
  if unitsToRemove <=? 0 then nDead else unitsToRemove.

Definition reconcileDeadUnitScale : M (option error) :=
  let* a := get in
  let* (units, err) := call (CUnits (name a)) (Units (name a)) in
  match err with
  | Some e => ret (Some (Annotate e ("getting units for application " ++ name a)))
  | None =>
  if negb (Scaling (ps a)) then ret None else
  let desiredScale := ScaleTarget (ps a) in
  let* (deadUnits, err) := collectDeadUnits units [] in
  match err with
  | Some e => ret (Some e)
  | None =>
  (* We haven't met the threshold to initiate scale down in the CAAS provider yet. *)
  if negb (unitsToRemove (len units) desiredScale (len deadUnits) =? len deadUnits)
  then ret None else
  let* err := call (CScale desiredScale) (Scale desiredScale) in
  match err_unless NotFound err with
  | Some e =>
      ret (Some (Annotate e ("scaling application " ++ quote (name a) ++ " to scale "
                               ++ pretty desiredScale)))
  | None =>
  let* (appState, err) := call CState State in
  match err_unless NotFound err with
  | Some e => ret (Some e)
  | None =>
  if len (Replicas appState) >? desiredScale then ret (Some tryAgain) else
  let* err := removeDeadUnits deadUnits in
  match err with
  | Some e => ret (Some e)
  | None => updateProvisioningState false 0
  end end end end end.

(** ** [refreshApplicationStatus] *)

(** The loop counting the units whose agent status is active. *)
Fixpoint countReadyUnits (units : list CAASUnit) (readyUnitsCount : Z) : Z :=
  match units with
  | [] => readyUnitsCount
  | unit :: rest =>
      countReadyUnits rest
        (if bool_decide (AgentStatus unit = Active)
         then int_add readyUnitsCount 1 else readyUnitsCount)
  end.

Definition refreshApplicationStatus (appLife : life_Value) : M (option error) :=
  if negb (bool_decide (appLife = Alive)) then ret None else
  let* (st, err) := call CState State in
  match err with
  | Some e => if errors_Is e NotFound then ret None else ret (Some (Trace e))
  | None =>
  let* a := get in
  let* (units, err) := call (CUnits (name a)) (Units (name a)) in
  match err with
  | Some e => if errors_Is e NotFound then ret None else ret (Some (Trace e))
  | None =>
  let readyUnitsCount := countReadyUnits units 0 in
  if (DesiredReplicas st >? 0) && (DesiredReplicas st >? readyUnitsCount)
  then setApplicationStatus Waiting "waiting for units to settle down" nilData
  else setApplicationStatus Active EmptyString nilData
  end end.

(** ** [ensureScale] and [ensureTrust] *)

Definition NotImplementedf (what : string) : error :=
  ErrNew NotImplemented (what ++ " not implemented").

Definition life_string (l : life_Value) : string :=
  match l with
  | Alive => "alive" | Dying => "dying" | Dead => "dead" | OtherLife s => s
  end.

Definition ensureScale : M (option error) :=
  let* a := get in
  let* (desiredScale, err) :=
    match life a with
    | Alive =>
        let* (desiredScale, err) := call (CApplicationScale (name a)) (ApplicationScale (name a)) in
        match err with
        | Some e =>
            ret (desiredScale,
                 Some (Annotate e ("fetching application " ++ quote (name a) ++ " desired scale")))
        | None => ret (desiredScale, None)
        end
    | Dying | Dead => ret (0, None)
    | OtherLife _ =>
        ret (0, Some (NotImplementedf ("unknown life " ++ quote (life_string (life a)))))
    end in
  match err with
  | Some e => ret (Some e)
  | None =>
  let* err :=
    if negb (Scaling (ps a)) || negb (bool_decide (life a = Alive))
    then updateProvisioningState true desiredScale
    else ret None in
  match err with
  | Some e => ret (Some e)
  | None =>
  let* (units, err) := call (CUnits (name a)) (Units (name a)) in
  match err with
  | Some e => ret (Some e)
  | None =>
  let* a := get in
  if ScaleTarget (ps a) >=? len units then
    let* err := call (CScale (ScaleTarget (ps a))) (Scale (ScaleTarget (ps a))) in
    match err with
    | Some e => ret (Some e)
    | None => updateProvisioningState false 0
    end
  else
  let* (unitsToDestroy, err) :=
    call (CUnitsToRemove (ScaleTarget (ps a))) (UnitsToRemove (ScaleTarget (ps a))) in
  match err with
  | Some e =>
      if errors_Is e NotFound then ret None
      else ret (Some (Annotate e ("scaling application " ++ quote (name a)
                                    ++ " to desired scale " ++ pretty (ScaleTarget (ps a)))))
  | None =>
  let* err :=
    if len unitsToDestroy >? 0
    then call (CDestroyUnits unitsToDestroy) (DestroyUnits unitsToDestroy)
    else ret None in
  match err with
  | Some e => ret (Some e)
  | None =>
  (* if the current scale target doesn't equal the desired scale
     we need to rerun this. *)
  if negb (ScaleTarget (ps a) =? desiredScale) then ret (Some tryAgain)
  else ret None
  end end end end end.

Definition ensureTrust : M (option error) :=
  let* a := get in
  let* (desiredTrust, err) := call (CApplicationTrust (name a)) (ApplicationTrust (name a)) in
  match err with
  | Some e =>
      ret (Some (Annotate e ("fetching application " ++ quote (name a) ++ " desired trust")))
  | None =>
  let* err := call (CTrust desiredTrust) (Trust desiredTrust) in
  match err with
  | Some e =>
      ret (Some (Annotate e ("updating application " ++ quote (name a) ++ " to desired trust "
                               ++ (if desiredTrust then "true" else "false"))))
  | None => ret None
  end end.

(** ** [waitForTerminated] *)

(** [retry.Call] of the retry library, for the arguments the worker gives:
    a number of attempts, a fixed delay, a maximum duration, no back-off and
    no stop channel.  [attempts] counts the attempts still allowed; the
    library does not wait after the last one, so the case of none left is
    not reached from a positive number. *)
Fixpoint retry_Call (attempts : nat) (Delay MaxDuration start : Z)
    (Func : M (option error)) (IsFatalError : error -> bool) : M (option error) :=
  match attempts with
  | O => ret (Some (ErrNew Generic "attempt count exceeded"))
  | S more =>
      let* err := Func in
      match err with
      | None => ret None
      | Some e =>
          if IsFatalError e then ret (Some (Trace e)) else
          match more with
          | O => ret (Some (Annotate e "attempt count exceeded"))
          | S _ =>
              let* elapsedTime := (fun s => (Now (world s) - start, s)) in
              if (MaxDuration >? 0) && (elapsedTime + Delay >? MaxDuration)
              then ret (Some (Annotate e "max duration exceeded"))
              else
                let* _ := call (CAfter Delay) (fun w => (tt, After Delay w)) in
                retry_Call more Delay MaxDuration start Func IsFatalError
          end
      end
  end.

Definition Second : Z := 1000000000.
Definition Minute : Z := 60 * Second.

Definition existsFunc : M (option error) :=
  let* a := get in
  let* (appState, err) := call CExists GetExists in
  match err with
  | Some e => ret (Some (Trace e))
  | None =>
  if negb (Exists appState) then ret None else
  if Exists appState && negb (Terminating appState)
  then ret (Some (ErrNew Generic ("application " ++ quote (name a)
                                   ++ " should be terminating but is now running")))
  else ret (Some tryAgain)
  end.

Definition waitForTerminated : M (option error) :=
  let* start := (fun s => (Now (world s), s)) in
  let* err := retry_Call 60 (3 * Second) (3 * Minute) start existsFunc
                (fun err => negb (errors_Is err TryAgain)) in
  match err with
  | Some e => ret (Some (Trace e))
  | None => ret None
  end.

(** ** [alive] *)

(** [strings.Join] *)
Fixpoint strings_Join (l : list string) (sep : string) : string :=
  match l with
  | [] => EmptyString
  | [x] => x
  | x :: rest => x ++ sep ++ strings_Join rest sep
  end.

Definition mountConfig (m : charm_Mount) : MountConfig :=
  {| StorageName := Storage m; Path := Location m |}.

(** The loop over the charm's containers (lines 775-794).  Go ranges over
    the map in an unspecified order; the order only decides which of several
    faulty containers is reported. *)
Fixpoint buildContainers (l : list (string * charm_Container))
    (images : gmap string DockerImageDetails)
    (containers : gmap string ContainerConfig) : gmap string ContainerConfig * option error :=
  match l with
  | [] => (containers, None)
  | (k, v) :: rest =>
      if bool_decide (Resource v = EmptyString)
      then (containers, Some (ErrNew NotValid "empty container resource reference not valid"))
      else match images !! Resource v with
      | None =>
          (containers,
           Some (ErrNew NotFound ("referenced charm base image resource " ++ Resource v
                                    ++ " not found")))
      | Some image =>
          buildContainers rest images
            (<[k := {| cc_Name := k; cc_Image := image;
                       cc_Mounts := map mountConfig (Mounts v) |}]> containers)
      end
  end.

(** [alive] up to the construction of [config] (lines 731-813): the fresh
    application config, or the error [alive] returns before building it. *)
Definition aliveConfig : M (ApplicationConfig + error) :=
  let* a := get in
  let* (provisionInfo, err) := call (CProvisioningInfo (name a)) (GetProvisioningInfo (name a)) in
  match err with
  | Some e => ret (inr (Annotate e "retrieving provisioning info"))
  | None =>
  match CharmURL provisionInfo with
  | None => ret (inr (ErrNew Generic "missing charm url in provision info"))
  | Some url =>
  let* (charmInfo, err) := call (CCharmInfo url) (GetCharmInfo url) in
  match err with
  | Some e => ret (inr (Annotate e ("retrieving charm deployment info for " ++ quote (name a))))
  | None =>
  let* (appState, err) := call CExists GetExists in
  match err with
  | Some e => ret (inr (Annotate e ("retrieving application state for " ++ quote (name a))))
  | None =>
  let* err :=
    if Exists appState && Terminating appState then waitForTerminated else ret None in
  match err with
  | Some e =>
      ret (inr (Annotate e (quote (name a)
             ++ " was terminating and there was an error waiting for it to stop")))
  | None =>
  let* (images, err) :=
    call (CApplicationOCIResources (name a)) (ApplicationOCIResources (name a)) in
  match err with
  | Some e => ret (inr (Annotate e "getting OCI image resources"))
  | None =>
  let (charmBaseImage, err) :=
    ImageForBase (Repository (pi_ImageDetails provisionInfo)) (Base_Name provisionInfo)
      (Base_Channel_Track provisionInfo) (Base_Channel_Risk provisionInfo) in
  match err with
  | Some e => ret (inr (Annotate e "getting image for base"))
  | None =>
  let (containers, err) :=
    buildContainers (map_to_list (Meta_Containers charmInfo)) images ∅ in
  match err with
  | Some e => ret (inr e)
  | None =>
  ret (inl {|
    IsPrivateImageRepo := IsPrivate (pi_ImageDetails provisionInfo);
    IntroductionSecret := password a;
    AgentVersion := pi_Version provisionInfo;
    AgentImagePath := RegistryPath (pi_ImageDetails provisionInfo);
    ControllerAddresses := strings_Join (APIAddresses provisionInfo) ",";
    ControllerCertBundle := CACert provisionInfo;
    ResourceTags := pi_Tags provisionInfo;
    cfg_Constraints := pi_Constraints provisionInfo;
    cfg_Filesystems := pi_Filesystems provisionInfo;
    cfg_Devices := pi_Devices provisionInfo;
    CharmBaseImagePath := charmBaseImage;
    Containers := Some containers;
    CharmModifiedVersion := pi_CharmModifiedVersion provisionInfo;
    cfg_Trust := pi_Trust provisionInfo;
    InitialScale := pi_Scale provisionInfo;
  |})
  end end end end end end end end.

(** [alive]: the config is built, compared with the last one applied, and
    ensured on the substrate when they differ (lines 814-828). *)
Definition alive : M (option error) :=
  let* r := aliveConfig in
  match r with
  | inr e => ret (Some e)
  | inl config =>
  let* a := get in
  if negb (DeepEqual_config config (lastApplied a)) then
    let* err := call (CEnsure config) (Ensure config) in
    match err with
    | Some e =>
        let* _ := setApplicationStatus Error (err_msg e) nilData in
        ret (Some (Annotate e ("ensuring application " ++ quote (name a))))
    | None =>
        let* a := get in
        let* _ := put (set_lastApplied a config) in
        ret None
    end
  else ret None
  end.

(** ** [updateState] *)

Definition kubernetesFilesystemInfo (info : FilesystemInfo) : KubernetesFilesystemInfo :=
  {| kf_StorageName := fs_StorageName info;
     kf_FilesystemId := FilesystemId info;
     kf_Size := fs_Size info;
     kf_MountPoint := MountPoint info;
     kf_ReadOnly := ReadOnly info;
     kf_Status := si_Status (fs_Status info);
     kf_Info := si_Message (fs_Status info);
     kf_Data := si_Data (fs_Status info);
     kf_Volume := {|
       kv_VolumeId := VolumeId (Volume info);
       kv_Size := vol_Size (Volume info);
       kv_Persistent := Persistent (Volume info);
       kv_Status := si_Status (vol_Status (Volume info));
       kv_Info := si_Message (vol_Status (Volume info));
       kv_Data := si_Data (vol_Status (Volume info)) |} |}.

(** The loop over the substrate's units (lines 534-588): the statuses to
    remember and the unit updates to send. *)
Fixpoint unitUpdates (units : list caas_Unit) (lastReportedStatus : gmap string StatusInfo)
    (reportedStatus : gmap string StatusInfo) (argsUnits : list ApplicationUnitParams)
    : gmap string StatusInfo * list ApplicationUnitParams :=
  match units with
  | [] => (reportedStatus, argsUnits)
  | u :: rest =>
      if u_Dying u then unitUpdates rest lastReportedStatus reportedStatus argsUnits else
      let unitStatus :=
        match lastReportedStatus !! u_Id u with
        | Some lastStatus =>
            if DeepEqual_status lastStatus (u_Status u)
            then {| si_Status := Unknown; si_Message := EmptyString;
                    si_Data := nilData; si_Since := None |}
            else u_Status u
        | None => u_Status u
        end in
      let unitParams := {|
        up_ProviderId := u_Id u;
        up_Address := u_Address u;
        up_Ports := u_Ports u;
        up_Stateful := u_Stateful u;
        up_Status := si_Status unitStatus;
        up_Info := si_Message unitStatus;
        up_Data := si_Data unitStatus;
        up_FilesystemInfo := map kubernetesFilesystemInfo (u_FilesystemInfo u) |} in
      unitUpdates rest lastReportedStatus (<[u_Id u := u_Status u]> reportedStatus)
        (argsUnits ++ [unitParams])
  end.

(** The loop annotating the units the facade acknowledged (lines 601-612). *)
Fixpoint annotateUnits (appName : string) (units : list ApplicationUnitInfo) : M (option error) :=
  match units with
  | [] => ret None
  | unitInfo :: rest =>
      let (unit, err) := ParseUnitTag (ui_UnitTag unitInfo) in
      match err with
      | Some e => ret (Some (Trace e))
      | None =>
          let* err := call (CAnnotateUnit appName (ui_ProviderId unitInfo) unit)
                           (AnnotateUnit appName (ui_ProviderId unitInfo) unit) in
          match err with
          | Some e =>
              if errors_Is e NotFound then annotateUnits appName rest
              else ret (Some (Trace e))
          | None => annotateUnits appName rest
          end
      end
  end.

(** A [nil] map of statuses reads like the empty one, and the map returned
    next to an error is never read. *)
Definition updateState (lastReportedStatus : gmap string StatusInfo)
    : M (gmap string StatusInfo * option error) :=
  let* a := get in
  let appTag := String.append "application-" (name a) in
  let* (svc, err) := call CService Service in
  match err_unless NotFound err with
  | Some e => ret (∅, Some (Trace e))
  | None =>
  let* (appStatus, err) :=
    match svc with
    | Some svc =>
        let arg := {| us_ApplicationTag := appTag;
                      us_ProviderId := svc_Id svc;
                      us_Addresses := FromProviderAddresses (svc_Addresses svc) |} in
        let* err := call (CUpdateApplicationService arg) (UpdateApplicationService arg) in
        ret ({| es_Status := si_Status (svc_Status svc);
                es_Info := si_Message (svc_Status svc);
                es_Data := si_Data (svc_Status svc) |},
             err_unless NotFound err)
    | None =>
        ret ({| es_Status := EmptyString; es_Info := EmptyString; es_Data := nilData |}, None)
    end in
  match err with
  | Some e => ret (∅, Some (Trace e))
  | None =>
  let* (units, err) := call CAppUnits AppUnits in
  match err with
  | Some e => ret (∅, Some (Trace e))
  | None =>
  let (reportedStatus, argsUnits) := unitUpdates units lastReportedStatus ∅ [] in
  let args := {| ua_ApplicationTag := appTag; ua_Status := appStatus;
                 ua_Units := argsUnits |} in
  let* (appUnitInfo, err) := call (CUpdateUnits args) (UpdateUnits args) in
  (* We can ignore not found errors as the worker will get stopped anyway,
     and Forbidden errors because disordered events could happen often. *)
  match err_unless NotFound (err_unless Forbidden err) with
  | Some e => ret (∅, Some (Trace e))
  | None =>
  let* err :=
    match appUnitInfo with
    | Some info => annotateUnits (name a) (ui_Units info)
    | None => ret None
    end in
  match err with
  | Some e => ret (∅, Some e)
  | None => ret (reportedStatus, None)
  end end end end end.

(** ** [dying] and [dead] *)

Definition dying : M (option error) :=
  let* err := ensureScale in
  match err with
  | Some e => ret (Some (Annotate e "cannot scale dying application to 0"))
  | None =>
  let* err := reconcileDeadUnitScale in
  match err with
  | Some e => ret (Some (Annotate e "cannot reconcile dead units in dying application"))
  | None => ret None
  end end.

Definition dead : M (option error) :=
  let* err := dying in
  match err with
  | Some e => ret (Some (Trace e))
  | None =>
  let* err := call CDelete Delete in
  match err with
  | Some e => ret (Some (Trace e))
  | None =>
  let* err := waitForTerminated in
  match err with
  | Some e => ret (Some (Trace e))
  | None =>
  (* Clear "has-resources" flag so state knows it can now remove the application. *)
  let* a := get in
  let* err := call (CClearApplicationResources (name a)) (ClearApplicationResources (name a)) in
  match err with
  | Some e => ret (Some (Trace e))
  | None =>
  let* (_, err) := updateState ∅ in
  match err with
  | Some e => ret (Some (Trace e))
  | None => ret None
  end end end end end.

(** ** The event loop *)

(** The local variables of [loop] that live across iterations.  A timer
    channel is [nil] ([None]) or the channel of a [clock.After(d)]
    ([Some d]); a watcher channel is [nil] ([false]) until its watcher has
    been started. *)
Record loopVars := {
  initial : bool;
  done : bool;
  appLife : life_Value;
  scaleChan : option Z;
  scaleTries : Z;
  trustChan : option Z;
  trustTries : Z;
  reconcileDeadChan : option Z;
  stateAppChangedChan : option Z;
  appChanges : bool;
  appProvisionChanges : bool;
  replicaChanges : bool;
  lastReportedStatus : gmap string StatusInfo;
}.

Definition maxRetries : Z := 20.
Definition retryDelay : Z := 3 * Second.

Definition set_scale (v : loopVars) (c : option Z) (tries : Z) : loopVars :=
  {| initial := initial v; done := done v; appLife := appLife v;
     scaleChan := c; scaleTries := tries;
     trustChan := trustChan v; trustTries := trustTries v;
     reconcileDeadChan := reconcileDeadChan v;
     stateAppChangedChan := stateAppChangedChan v;
     appChanges := appChanges v; appProvisionChanges := appProvisionChanges v;
     replicaChanges := replicaChanges v; lastReportedStatus := lastReportedStatus v |}.
Definition set_trust (v : loopVars) (c : option Z) (tries : Z) : loopVars :=
  {| initial := initial v; done := done v; appLife := appLife v;
     scaleChan := scaleChan v; scaleTries := scaleTries v;
     trustChan := c; trustTries := tries;
     reconcileDeadChan := reconcileDeadChan v;
     stateAppChangedChan := stateAppChangedChan v;
     appChanges := appChanges v; appProvisionChanges := appProvisionChanges v;
     replicaChanges := replicaChanges v; lastReportedStatus := lastReportedStatus v |}.
Definition set_reconcileDeadChan (v : loopVars) (c : option Z) : loopVars :=
  {| initial := initial v; done := done v; appLife := appLife v;
     scaleChan := scaleChan v; scaleTries := scaleTries v;
     trustChan := trustChan v; trustTries := trustTries v;
     reconcileDeadChan := c;
     stateAppChangedChan := stateAppChangedChan v;
     appChanges := appChanges v; appProvisionChanges := appProvisionChanges v;
     replicaChanges := replicaChanges v; lastReportedStatus := lastReportedStatus v |}.
Definition set_stateAppChangedChan (v : loopVars) (c : option Z) : loopVars :=
  {| initial := initial v; done := done v; appLife := appLife v;
     scaleChan := scaleChan v; scaleTries := scaleTries v;
     trustChan := trustChan v; trustTries := trustTries v;
     reconcileDeadChan := reconcileDeadChan v;
     stateAppChangedChan := c;
     appChanges := appChanges v; appProvisionChanges := appProvisionChanges v;
     replicaChanges := replicaChanges v; lastReportedStatus := lastReportedStatus v |}.
Definition set_appLife (v : loopVars) (l : life_Value) : loopVars :=
  {| initial := initial v; done := done v; appLife := l;
     scaleChan := scaleChan v; scaleTries := scaleTries v;
     trustChan := trustChan v; trustTries := trustTries v;
     reconcileDeadChan := reconcileDeadChan v;
     stateAppChangedChan := stateAppChangedChan v;
     appChanges := appChanges v; appProvisionChanges := appProvisionChanges v;
     replicaChanges := replicaChanges v; lastReportedStatus := lastReportedStatus v |}.
Definition set_initial_done (v : loopVars) (i d : bool) : loopVars :=
  {| initial := i; done := d; appLife := appLife v;
     scaleChan := scaleChan v; scaleTries := scaleTries v;
     trustChan := trustChan v; trustTries := trustTries v;
     reconcileDeadChan := reconcileDeadChan v;
     stateAppChangedChan := stateAppChangedChan v;
     appChanges := appChanges v; appProvisionChanges := appProvisionChanges v;
     replicaChanges := replicaChanges v; lastReportedStatus := lastReportedStatus v |}.
Definition set_watchers (v : loopVars) (app prov repl : bool) : loopVars :=
  {| initial := initial v; done := done v; appLife := appLife v;
     scaleChan := scaleChan v; scaleTries := scaleTries v;
     trustChan := trustChan v; trustTries := trustTries v;
     reconcileDeadChan := reconcileDeadChan v;
     stateAppChangedChan := stateAppChangedChan v;
     appChanges := app; appProvisionChanges := prov;
     replicaChanges := repl; lastReportedStatus := lastReportedStatus v |}.
Definition set_lastReportedStatus (v : loopVars) (m : gmap string StatusInfo) : loopVars :=
  {| initial := initial v; done := done v; appLife := appLife v;
     scaleChan := scaleChan v; scaleTries := scaleTries v;
     trustChan := trustChan v; trustTries := trustTries v;
     reconcileDeadChan := reconcileDeadChan v;
     stateAppChangedChan := stateAppChangedChan v;
     appChanges := appChanges v; appProvisionChanges := appProvisionChanges v;
     replicaChanges := replicaChanges v; lastReportedStatus := m |}.

(** Starting one of the three lazily started watchers and adding it to the
    catacomb, when its channel is still [nil]: the channel afterwards. *)
Definition startWatcher (started : bool) (c : Call)
    (op : W -> (option error * option error) * W) (ctx : string) : M (bool * option error) :=
  if started then ret (true, None) else
  let* (err, addErr) := call c op in
  match err with
  | Some e => ret (false, Some (Annotate e ctx))
  | None =>
      match addErr with
      | Some e => ret (false, Some (Trace e))
      | None => ret (true, None)
      end
  end.

(** The closure [handleChange] (lines 254-320), with the variables of
    [loop] it assigns. *)
Definition handleChange (v : loopVars) : M (loopVars * option error) :=
  let* a := get in
  let* (l, err) := call (CLife (name a)) (Life (name a)) in
  let appLife := match err with
                 | Some e => if errors_Is e NotFound then Dead else l
                 | None => l
                 end in
  let v := set_appLife v appLife in
  match err_unless NotFound err with
  | Some e => ret (v, Some (Trace e))
  | None =>
  let* _ := put (set_life a appLife) in
  let v := if initial v && Scaling (ps a)
           then set_reconcileDeadChan (set_scale (set_initial_done v false (done v))
                                          (Some 0) (scaleTries v)) (Some 0)
           else v in
  match appLife with
  | Alive =>
      let* (prov, err) :=
        startWatcher (appProvisionChanges v) (CWatchProvisioningInfo (name a))
          (WatchProvisioningInfo (name a))
          ("failed to watch facade for changes to application provisioning " ++ quote (name a)) in
      let v := set_watchers v (appChanges v) prov (replicaChanges v) in
      match err with
      | Some e => ret (v, Some e)
      | None =>
      let* err := alive in
      match err with
      | Some e => ret (v, Some (Trace e))
      | None =>
      let* (appc, err) :=
        startWatcher (appChanges v) CWatch Watch
          ("failed to watch for changes to application " ++ quote (name a)) in
      let v := set_watchers v appc (appProvisionChanges v) (replicaChanges v) in
      match err with
      | Some e => ret (v, Some e)
      | None =>
      let* (repl, err) :=
        startWatcher (replicaChanges v) CWatchReplicas WatchReplicas
          ("failed to watch for changes to replicas " ++ quote (name a)) in
      let v := set_watchers v (appChanges v) (appProvisionChanges v) repl in
      match err with
      | Some e => ret (v, Some e)
      | None => ret (v, None)
      end end end end
  | Dying =>
      let* err := dying in
      match err with
      | Some e => ret (v, Some (Trace e))
      | None => ret (v, None)
      end
  | Dead =>
      let* err := dead in
      match err with
      | Some e => ret (v, Some (Trace e))
      | None => ret (set_initial_done v (initial v) true, None)
      end
  | OtherLife _ =>
      ret (v, Some (NotImplementedf ("unknown life " ++ quote (life_string appLife))))
  end end.

(** The cases of the [select] of [loop].  A receive from a watcher reports
    whether the channel was still open. *)
Inductive SelectCase :=
  | appScaleWatcher_Changes (ok : bool)
  | scaleChan_fires
  | appTrustWatcher_Changes (ok : bool)
  | appUnitsWatcher_Changes (ok : bool)
  | reconcileDeadChan_fires
  | trustChan_fires
  | catacomb_Dying
  | appProvisionChanges_recv
  | changes_recv
  | stateAppChangedChan_fires
  | appChanges_recv
  | replicaChanges_recv
  | heartbeat.

(** A receive on a [nil] channel never proceeds. *)
Definition ready (c : SelectCase) (v : loopVars) : bool :=
  match c with
  | scaleChan_fires => bool_decide (scaleChan v <> None)
  | trustChan_fires => bool_decide (trustChan v <> None)
  | reconcileDeadChan_fires => bool_decide (reconcileDeadChan v <> None)
  | stateAppChangedChan_fires => bool_decide (stateAppChangedChan v <> None)
  | appProvisionChanges_recv => appProvisionChanges v
  | appChanges_recv => appChanges v
  | replicaChanges_recv => replicaChanges v
  | _ => true
  end.

(** What one turn of the loop does next: go round again, or return. *)
Inductive Outcome := Continue | Return (err : option error).

(** [catacomb.ErrDying()] *)
Definition ErrDying : error := ErrNew Generic "catacomb is dying".

(** The body of the chosen [select] case: the variables afterwards, the
    flag [shouldRefresh], and whether the case returned. *)
Definition selectCase (c : SelectCase) (v : loopVars) : M (loopVars * bool * Outcome) :=
  let* a := get in
  match c with
  | appScaleWatcher_Changes ok =>
      if negb ok
      then ret (v, true, Return (Some (ErrNew Generic
                  ("application " ++ quote (name a) ++ " scale watcher closed channel"))))
      else ret (match scaleChan v with
                | None => set_scale v (Some 0) 0
                | Some _ => v
                end, false, Continue)
  | scaleChan_fires =>
      let* err := ensureScale in
      match err with
      | Some e =>
          if errors_Is e NotFound then
            if scaleTries v >=? maxRetries
            then ret (v, true, Return (Some (Annotate e
                        ("more than " ++ pretty maxRetries ++ " retries ensuring scale"))))
            else ret (set_scale v (Some retryDelay) (int_add (scaleTries v) 1), false, Continue)
          else if errors_Is e TryAgain
          then ret (set_scale v (Some retryDelay) (scaleTries v), true, Continue)
          else ret (v, true, Return (Some (Trace e)))
      | None => ret (set_scale v None (scaleTries v), true, Continue)
      end
  | appTrustWatcher_Changes ok =>
      if negb ok
      then ret (v, true, Return (Some (ErrNew Generic
                  ("application " ++ quote (name a) ++ " trust watcher closed channel"))))
      else ret (match trustChan v with
                | None => set_trust v (Some 0) 0
                | Some _ => v
                end, false, Continue)
  | appUnitsWatcher_Changes ok =>
      if negb ok
      then ret (v, true, Return (Some (ErrNew Generic
                  ("application " ++ quote (name a) ++ " units watcher closed channel"))))
      else ret (match reconcileDeadChan v with
                | None => set_reconcileDeadChan v (Some 0)
                | Some _ => v
                end, true, Continue)
  | reconcileDeadChan_fires =>
      let* err := reconcileDeadUnitScale in
      match err with
      | Some e =>
          if errors_Is e NotFound
          then ret (set_reconcileDeadChan v (Some retryDelay), true, Continue)
          else if errors_Is e TryAgain
          then ret (set_reconcileDeadChan v (Some retryDelay), true, Continue)
          else ret (v, true, Return (Some (Annotate e "reconciling dead unit scale")))
      | None => ret (set_reconcileDeadChan v None, true, Continue)
      end
  | trustChan_fires =>
      let* err := ensureTrust in
      match err with
      | Some e =>
          if errors_Is e NotFound then
            if trustTries v >=? maxRetries
            then ret (v, true, Return (Some (Annotate e
                        ("more than " ++ pretty maxRetries ++ " retries ensuring trust"))))
            else ret (set_trust v (Some retryDelay) (int_add (trustTries v) 1), false, Continue)
          else ret (v, true, Return (Some (Trace e)))
      | None => ret (set_trust v None (trustTries v), true, Continue)
      end
  | catacomb_Dying => ret (v, true, Return (Some ErrDying))
  | appProvisionChanges_recv | changes_recv =>
      ret (match stateAppChangedChan v with
           | None => set_stateAppChangedChan v (Some 0)
           | Some _ => v
           end, true, Continue)
  | stateAppChangedChan_fires =>
      (* Respond to life changes (Notify called by parent worker). *)
      let* (v, err) := handleChange v in
      match err with
      | Some e =>
          if errors_Is e TryAgain
          then ret (set_stateAppChangedChan v (Some retryDelay), true, Continue)
          else ret (v, true, Return (Some (Trace e)))
      | None => ret (set_stateAppChangedChan v None, true, Continue)
      end
  | appChanges_recv | replicaChanges_recv =>
      (* Respond to changes in the provider application or in its replicas. *)
      let* (m, err) := updateState (lastReportedStatus v) in
      match err with
      | Some e => ret (set_lastReportedStatus v m, true, Return (Some (Trace e)))
      | None => ret (set_lastReportedStatus v m, true, Continue)
      end
  | heartbeat => ret (v, true, Continue)
  end.

(** One iteration of the [for] loop (lines 322-434) on the chosen case. *)
Definition loop_iteration (c : SelectCase) (v : loopVars) : M (loopVars * Outcome) :=
  let* (v, shouldRefresh, out) := selectCase c v in
  match out with
  | Return err => ret (v, Return err)
  | Continue =>
      if done v then ret (v, Return None) else
      if shouldRefresh then
        let* a := get in
        let* err := refreshApplicationStatus (appLife v) in
        match err with
        | Some e =>
            ret (v, Return (Some (Annotate e
                   ("refreshing application status for " ++ quote (name a)))))
        | None => ret (v, Continue)
        end
      else ret (v, Continue)
  end.

(** The loop on a schedule of select cases: it stops at the first
    iteration that returns, or when the schedule is used up. *)
Fixpoint loop_run (schedule : list SelectCase) (v : loopVars) : M (loopVars * Outcome) :=
  match schedule with
  | [] => ret (v, Continue)
  | c :: rest =>
      let* (v, out) := loop_iteration c v in
      match out with
      | Return err => ret (v, Return err)
      | Continue => loop_run rest v
      end
  end.

(** The variables as [loop] declares them before its [for] (lines 231-248),
    given the life read on entry. *)
Definition loopVars_init (l : life_Value) : loopVars :=
  {| initial := true; done := false; appLife := l;
     scaleChan := None; scaleTries := 0;
     trustChan := None; trustTries := 0;
     reconcileDeadChan := None; stateAppChangedChan := None;
     appChanges := false; appProvisionChanges := false; replicaChanges := false;
     lastReportedStatus := ∅ |}.

(** ** Notions used to state the properties *)

(** The calls that change something on the substrate (the others are
    reads, facade calls, or waits). *)
Definition is_substrate_mutation (c : Call) : bool :=
  match c with
  | CEnsure _ | CDelete | CScale _ | CTrust _ | CAnnotateUnit _ _ _ => true
  | _ => false
  end.


(** A run of the removal loop in which the facade answers every
    [RemoveUnit] with [nil] or with a not-found error. *)
Inductive removals_suppressed : list CAASUnit -> St -> St -> Prop :=
  | removals_nil s : removals_suppressed [] s s
  | removals_cons u rest s err s1 s2 :
      call (CRemoveUnit (Tag u)) (RemoveUnit (Tag u)) s = (err, s1) ->
      err_unless NotFound err = None ->
      removals_suppressed rest s1 s2 ->
      removals_suppressed (u :: rest) s s2.



(** The calls of [k] rounds of polling in [waitForTerminated]: ask whether
    the application exists, then wait three seconds. *)
Definition poll_calls (k : nat) : list Call :=
  concat (replicate k [CExists; CAfter (3 * Second)]).

(** [IsFatalError] of [waitForTerminated]. *)
Definition notTryAgain (err : error) : bool := negb (errors_Is err TryAgain).

(** [k] rounds of the wait of [waitForTerminated] begun at time [start],
    leading from one state to another: in each round the poll answers with
    an error that is a [tryAgain] (the application exists and is
    terminating), the time spent so far plus the next delay is within three
    minutes, and the worker waits three seconds. *)
Inductive polled (start : Z) : nat -> St -> St -> Prop :=
  | polled_O s : polled start O s s
  | polled_S k s e s1 s2 s3 :
      existsFunc s = (Some e, s1) ->
      notTryAgain e = false ->
      Now (world s1) - start + 3 * Second <= 3 * Minute ->
      call (CAfter (3 * Second)) (fun w => (tt, After (3 * Second) w)) s1 = (tt, s2) ->
      polled start k s2 s3 ->
      polled start (S k) s s3.

(** Two workers that differ at most in their provisioning state. *)
Definition same_but_ps (a a' : appWorker) : Prop :=
  name a' = name a /\ password a' = password a /\
  lastApplied a' = lastApplied a /\ life a' = life a.

(** A computation that, started from a worker like [a0] up to the
    provisioning state, ends with such a worker. *)
Definition keeps {A} (a0 : appWorker) (m : M A) : Prop :=
  forall s r s', same_but_ps a0 (worker s) -> m s = (r, s') -> same_but_ps a0 (worker s').

(** The attempt counters of the loop are within their bound. *)
Definition tries_bounded (v : loopVars) : Prop :=
  0 <= scaleTries v <= maxRetries /\ 0 <= trustTries v <= maxRetries.

(** ** Notions used for the further properties *)

(** A computation all of whose calls are among the [allowed] ones. *)
Definition makes_only {A} (allowed : Call -> bool) (m : M A) : Prop :=
  forall s r s', m s = (r, s') ->
  exists l, trace s' = trace s ++ l /\ Forall (fun c => allowed c = true) l.

(** The interface methods each decision uses. *)
Definition updateProvisioningState_calls (c : Call) : bool :=
  match c with CSetProvisioningState _ _ => true | _ => false end.
Definition ensureScale_calls (c : Call) : bool :=
  match c with
  | CApplicationScale _ | CSetProvisioningState _ _ | CUnits _
  | CScale _ | CUnitsToRemove _ | CDestroyUnits _ => true
  | _ => false
  end.
Definition reconcileDeadUnitScale_calls (c : Call) : bool :=
  match c with
  | CUnits _ | CLife _ | CScale _ | CState | CRemoveUnit _
  | CSetProvisioningState _ _ => true
  | _ => false
  end.
Definition ensureTrust_calls (c : Call) : bool :=
  match c with CApplicationTrust _ | CTrust _ => true | _ => false end.
Definition refreshApplicationStatus_calls (c : Call) : bool :=
  match c with CState | CUnits _ | CSetOperatorStatus _ _ _ _ => true | _ => false end.
Definition waitForTerminated_calls (c : Call) : bool :=
  match c with CExists | CAfter _ => true | _ => false end.
Definition alive_calls (c : Call) : bool :=
  match c with
  | CProvisioningInfo _ | CCharmInfo _ | CExists | CAfter _
  | CApplicationOCIResources _ | CEnsure _ | CSetOperatorStatus _ _ _ _ => true
  | _ => false
  end.
Definition updateState_calls (c : Call) : bool :=
  match c with
  | CService | CUpdateApplicationService _ | CAppUnits | CUpdateUnits _
  | CAnnotateUnit _ _ _ => true
  | _ => false
  end.
Definition dying_calls (c : Call) : bool :=
  ensureScale_calls c || reconcileDeadUnitScale_calls c.
Definition dead_calls (c : Call) : bool :=
  dying_calls c || waitForTerminated_calls c || updateState_calls c ||
  match c with CDelete | CClearApplicationResources _ => true | _ => false end.

(** Two workers with the same name, password and life: only the
    provisioning state and the last applied config may differ. *)
Definition same_identity (a a' : appWorker) : Prop :=
  name a' = name a /\ password a' = password a /\ life a' = life a.

(** A computation that keeps the worker's name, password and life. *)
Definition keeps_identity {A} (m : M A) : Prop :=
  forall s r s', m s = (r, s') -> same_identity (worker s) (worker s').

(** The timer channel a timer case of the [select] receives from. *)
Definition timer_of (c : SelectCase) (v : loopVars) : option Z :=
  match c with
  | scaleChan_fires => scaleChan v
  | trustChan_fires => trustChan v
  | reconcileDeadChan_fires => reconcileDeadChan v
  | stateAppChangedChan_fires => stateAppChangedChan v
  | _ => None
  end.

Definition is_timer_case (c : SelectCase) : bool :=
  match c with
  | scaleChan_fires | trustChan_fires | reconcileDeadChan_fires
  | stateAppChangedChan_fires => true
  | _ => false
  end.

(** The status [unitUpdates] sends for a unit: unknown when the unit's
    status is the one last reported under its id. *)
Definition sentStatus (lastReportedStatus : gmap string StatusInfo) (u : caas_Unit) : StatusInfo :=
  if bool_decide (lastReportedStatus !! u_Id u = Some (u_Status u))
  then {| si_Status := Unknown; si_Message := EmptyString;
          si_Data := nilData; si_Since := None |}
  else u_Status u.

(** The update [unitUpdates] sends for a unit. *)
Definition unitParams (lastReportedStatus : gmap string StatusInfo) (u : caas_Unit)
    : ApplicationUnitParams :=
  {| up_ProviderId := u_Id u;
     up_Address := u_Address u;
     up_Ports := u_Ports u;
     up_Stateful := u_Stateful u;
     up_Status := si_Status (sentStatus lastReportedStatus u);
     up_Info := si_Message (sentStatus lastReportedStatus u);
     up_Data := si_Data (sentStatus lastReportedStatus u);
     up_FilesystemInfo := map kubernetesFilesystemInfo (u_FilesystemInfo u) |}.

(** The units of the substrate that are not marked as dying. *)
Definition liveUnits (units : list caas_Unit) : list caas_Unit :=
  filter (fun u => u_Dying u = false) units.

(** The container config [alive] builds for a container of the charm. *)
Definition containerConfig (images : gmap string DockerImageDetails)
    (k : string) (v : charm_Container) : option ContainerConfig :=
  if bool_decide (Resource v = EmptyString) then None
  else (fun image => {| cc_Name := k; cc_Image := image;
                        cc_Mounts := map mountConfig (Mounts v) |}) <$> images !! Resource v.


(** A computation that leaves the worker as it is. *)
Definition keeps_worker {A} (m : M A) : Prop :=
  forall s r s', m s = (r, s') -> worker s' = worker s.

(** The interface methods [alive] uses up to the construction of the
    config. *)
Definition aliveConfig_calls (c : Call) : bool :=
  match c with
  | CProvisioningInfo _ | CCharmInfo _ | CExists | CAfter _
  | CApplicationOCIResources _ => true
  | _ => false
  end.

(** The interface methods [handleChange] uses once it has read the life
    [l] of the application. *)
Definition handleChange_calls (l : life_Value) (c : Call) : bool :=
  match c with
  | CLife _ => true
  | _ =>
      match l with
      | Alive => alive_calls c ||
                 match c with
                 | CWatchProvisioningInfo _ | CWatch | CWatchReplicas => true
                 | _ => false
                 end
      | Dying => dying_calls c
      | Dead => dead_calls c
      | OtherLife _ => false
      end
  end.

(** The calls that create or remove the application on the substrate, or
    tell the controller that its resources are gone. *)
Definition is_deletion (c : Call) : bool :=
  match c with CDelete | CClearApplicationResources _ => true | _ => false end.
Definition is_ensure (c : Call) : bool :=
  match c with CEnsure _ => true | _ => false end.

(** The calls of a scale to zero: the desired scale is not asked for, and
    every target given to the substrate is 0. *)
Definition scales_to_zero (c : Call) : bool :=
  match c with
  | CApplicationScale _ => false
  | CScale n | CUnitsToRemove n => n =? 0
  | _ => true
  end.

Definition is_Scale (c : Call) : bool :=
  match c with CScale _ => true | _ => false end.
Definition is_UnitsToRemove (c : Call) : bool :=
  match c with CUnitsToRemove _ => true | _ => false end.
Definition is_DestroyUnits (c : Call) : bool :=
  match c with CDestroyUnits _ => true | _ => false end.

(** A computation after which the worker's provisioning state is the one
    it started with, or one it has sent to the facade on the way. *)
Definition ps_sent {A} (m : M A) : Prop :=
  forall s r s', m s = (r, s') ->
  name (worker s') = name (worker s) /\
  exists l, trace s' = trace s ++ l /\
    (ps (worker s') = ps (worker s) \/
     In (CSetProvisioningState (name (worker s)) (ps (worker s'))) l).


(** The four timer channels of the loop. *)
Definition timers (v : loopVars) : list (option Z) :=
  [scaleChan v; trustChan v; reconcileDeadChan v; stateAppChangedChan v].


(** The status [updateState] reports for the application: the one of its
    service, if it has one (lines 510-527). *)
Definition serviceStatus (svc : option caas_Service) : EntityStatus :=
  match svc with
  | Some svc => {| es_Status := si_Status (svc_Status svc);
                   es_Info := si_Message (svc_Status svc);
                   es_Data := si_Data (svc_Status svc) |}
  | None => {| es_Status := EmptyString; es_Info := EmptyString; es_Data := nilData |}
  end.

(** What [updateState] tells the unit facade about the service. *)
Definition serviceArg (appName : string) (svc : caas_Service) : UpdateApplicationServiceArg :=
  {| us_ApplicationTag := String.append "application-" appName;
     us_ProviderId := svc_Id svc;
     us_Addresses := FromProviderAddresses (svc_Addresses svc) |}.

(** The units the facade acknowledges in its answer to [UpdateUnits]. *)
Definition acknowledged (info : option UpdateApplicationUnitsInfo) : list ApplicationUnitInfo :=
  match info with
  | Some info => ui_Units info
  | None => []
  end.

(** The call annotating the pod of an acknowledged unit. *)
Definition annotateCall (appName : string) (u : ApplicationUnitInfo) : Call :=
  CAnnotateUnit appName (ui_ProviderId u) (fst (ParseUnitTag (ui_UnitTag u))).

End Worker.

(** ** A scripted environment

    A small world in the manner of the package's mocks, used to run the
    worker on concrete scenarios: the facade's units and their lives, the
    desired scale and trust, the substrate's state, scripted errors for the
    calls that can be made to fail, and the successive answers of
    [Exists]. *)

#[global] Instance scriptedOpaque : Opaque := {|
  Data := unit;
  nilData := tt;
  Version := string;
  Constraints := unit;
  Filesystems := list string;
  Devices := list string;
  DockerImageDetails := string;
  ProviderAddresses := list string;
  ParamsAddresses := list string;
  UnitTag := string;
  FromProviderAddresses := fun l => l;
  ParseUnitTag := fun s => (s, None);
  ImageForBase := fun repo n track risk => ((repo ++ "/charm-base:" ++ n ++ "-" ++ track)%string, None);
|}.

Record Scripted := {
  sc_appLife : life_Value * option error;
  sc_units : list CAASUnit;
  sc_unitLives : list (string * life_Value);
  sc_scale : Z * option error;
  sc_trust : bool * option error;
  sc_state : ApplicationState;
  sc_scaleErr : option error;
  sc_removeErr : option error;
  sc_ensureErr : option error;
  sc_exists : list DeploymentState;
  sc_now : Z;
}.

Definition sc_lookupLife (id : string) (l : list (string * life_Value)) : life_Value * option error :=
  match list_find (fun p => fst p = id) l with
  | Some (_, (_, v)) => (v, None)
  | None => (OtherLife EmptyString, Some (ErrNew NotFound ("unit " ++ id ++ " not found")))
  end.

Definition sc_with_units (w : Scripted) (us : list CAASUnit) : Scripted :=
  {| sc_appLife := sc_appLife w; sc_units := us; sc_unitLives := sc_unitLives w;
     sc_scale := sc_scale w; sc_trust := sc_trust w; sc_state := sc_state w;
     sc_scaleErr := sc_scaleErr w; sc_removeErr := sc_removeErr w;
     sc_ensureErr := sc_ensureErr w; sc_exists := sc_exists w; sc_now := sc_now w |}.
Definition sc_with_state (w : Scripted) (st : ApplicationState) : Scripted :=
  {| sc_appLife := sc_appLife w; sc_units := sc_units w; sc_unitLives := sc_unitLives w;
     sc_scale := sc_scale w; sc_trust := sc_trust w; sc_state := st;
     sc_scaleErr := sc_scaleErr w; sc_removeErr := sc_removeErr w;
     sc_ensureErr := sc_ensureErr w; sc_exists := sc_exists w; sc_now := sc_now w |}.
Definition sc_with_exists (w : Scripted) (l : list DeploymentState) : Scripted :=
  {| sc_appLife := sc_appLife w; sc_units := sc_units w; sc_unitLives := sc_unitLives w;
     sc_scale := sc_scale w; sc_trust := sc_trust w; sc_state := sc_state w;
     sc_scaleErr := sc_scaleErr w; sc_removeErr := sc_removeErr w;
     sc_ensureErr := sc_ensureErr w; sc_exists := l; sc_now := sc_now w |}.
Definition sc_with_now (w : Scripted) (t : Z) : Scripted :=
  {| sc_appLife := sc_appLife w; sc_units := sc_units w; sc_unitLives := sc_unitLives w;
     sc_scale := sc_scale w; sc_trust := sc_trust w; sc_state := sc_state w;
     sc_scaleErr := sc_scaleErr w; sc_removeErr := sc_removeErr w;
     sc_ensureErr := sc_ensureErr w; sc_exists := sc_exists w; sc_now := t |}.

Definition sc_provisioningInfo : ProvisioningInfo :=
  {| pi_Version := "3.1.0"; APIAddresses := ["10.0.0.1:17070"; "10.0.0.2:17070"];
     CACert := "ca-cert"; pi_Tags := Some {[ "juju-model-uuid" := "deadbeef" ]};
     pi_Constraints := tt; pi_Filesystems := []; pi_Devices := [];
     Base_Name := "ubuntu"; Base_Channel_Track := "20.04"; Base_Channel_Risk := "stable";
     pi_ImageDetails := {| Repository := "jujusolutions";
                           RegistryPath := "jujusolutions/jujud-operator:3.1.0";
                           IsPrivate := false |};
     pi_CharmModifiedVersion := 1; CharmURL := Some "ch:amd64/focal/gitlab-1";
     pi_Trust := false; pi_Scale := 3 |}.

Definition sc_charmInfo : CharmInfo :=
  {| Meta_Containers :=
       {[ "gitlab" := {| Resource := "gitlab-image";
                         Mounts := [ {| Storage := "database"; Location := "/srv/db" |} ] |} ]} |}.

#[global] Instance scriptedFacade : @CAASProvisionerFacade scriptedOpaque Scripted := {|
  Life := fun id w =>
    (if bool_decide (id = "gitlab") then sc_appLife w else sc_lookupLife id (sc_unitLives w), w);
  Units := fun _ w => ((sc_units w, None), w);
  RemoveUnit := fun id w =>
    match sc_removeErr w with
    | Some e => (Some e, w)
    | None => (None, sc_with_units w (filter (fun u => Tag u <> id) (sc_units w)))
    end;
  DestroyUnits := fun _ w => (None, w);
  SetProvisioningState := fun _ _ w => (None, w);
  SetOperatorStatus := fun _ _ _ _ w => (None, w);
  GetProvisioningInfo := fun _ w => ((sc_provisioningInfo, None), w);
  GetCharmInfo := fun _ w => ((sc_charmInfo, None), w);
  ApplicationOCIResources := fun _ w => (({[ "gitlab-image" := "docker.io/gitlab:latest" ]}, None), w);
  ClearApplicationResources := fun _ w => (None, w);
  UpdateUnits := fun _ w => ((None, None), w);
  WatchProvisioningInfo := fun _ w => ((None, None), w);
|}.

#[global] Instance scriptedUnitFacade : @CAASUnitProvisionerFacade scriptedOpaque Scripted := {|
  ApplicationScale := fun _ w => (sc_scale w, w);
  ApplicationTrust := fun _ w => (sc_trust w, w);
  UpdateApplicationService := fun _ w => (None, w);
|}.

#[global] Instance scriptedApplication : @Application scriptedOpaque Scripted := {|
  Ensure := fun _ w => (sc_ensureErr w, w);
  GetExists := fun w =>
    match sc_exists w with
    | [] => (({| Exists := false; Terminating := false |}, None), w)
    | [d] => ((d, None), w)
    | d :: rest => ((d, None), sc_with_exists w rest)
    end;
  Delete := fun w => (None, w);
  Scale := fun n w =>
    match sc_scaleErr w with
    | Some e => (Some e, w)
    | None => (None, sc_with_state w
                 {| DesiredReplicas := n;
                    Replicas := take (Z.to_nat n) (Replicas (sc_state w)) |})
    end;
  UnitsToRemove := fun n w =>
    ((map Tag (drop (Z.to_nat n) (sc_units w)), None), w);
  Trust := fun _ w => (None, w);
  State := fun w => ((sc_state w, None), w);
  Service := fun w => ((None, None), w);
  AppUnits := fun w => (([], None), w);
  Watch := fun w => ((None, None), w);
  WatchReplicas := fun w => ((None, None), w);
  AnnotateUnit := fun _ _ _ w => (None, w);
|}.

#[global] Instance scriptedClock : @Clock Scripted := {|
  Now := sc_now;
  After := fun d w => sc_with_now w (sc_now w + d);
|}.

Definition zeroConfig : ApplicationConfig :=
  {| IsPrivateImageRepo := false; IntroductionSecret := EmptyString;
     AgentVersion := EmptyString; AgentImagePath := EmptyString;
     ControllerAddresses := EmptyString; ControllerCertBundle := EmptyString;
     ResourceTags := None; cfg_Constraints := tt; cfg_Filesystems := [];
     cfg_Devices := []; CharmBaseImagePath := EmptyString; Containers := None;
     CharmModifiedVersion := 0; cfg_Trust := false; InitialScale := 0 |}.

(** A worker for the application gitlab, with a given life and
    provisioning state, in a given world, before any call. *)
Definition sc_start (l : life_Value) (scaling : bool) (target : Z) (w : Scripted) : St :=
  {| worker := {| name := "gitlab"; password := "secret"; lastApplied := zeroConfig;
                  life := l; ps := {| Scaling := scaling; ScaleTarget := target |} |};
     world := w; trace := [] |}.

Definition sc_unit (id : string) (st : string) : CAASUnit := {| Tag := id; AgentStatus := st |}.

(** Three units, the last one dead, three replicas on the substrate. *)
Definition sc_world (lives : list (string * life_Value)) : Scripted :=
  {| sc_appLife := (Alive, None);
     sc_units := [sc_unit "gitlab/0" "active"; sc_unit "gitlab/1" "active";
                  sc_unit "gitlab/2" "active"];
     sc_unitLives := lives;
     sc_scale := (2, None);
     sc_trust := (true, None);
     sc_state := {| DesiredReplicas := 3;
                    Replicas := ["gitlab-0"; "gitlab-1"; "gitlab-2"] |};
     sc_scaleErr := None; sc_removeErr := None; sc_ensureErr := None;
     sc_exists := [ {| Exists := true; Terminating := false |} ];
     sc_now := 0 |}.

(** Scale down with one dead unit: the target is 2 and the third of three
    units is dead. *)
Definition sc_one_dead : St :=
  sc_start Alive true 2
    (sc_world [("gitlab/0", Alive); ("gitlab/1", Alive); ("gitlab/2", Dead)]).


(** As [sc_one_dead], but not scaling. *)
Definition sc_not_scaling : St :=
  sc_start Alive false 0
    (sc_world [("gitlab/0", Alive); ("gitlab/1", Alive); ("gitlab/2", Dead)]).

(** As [sc_one_dead], but the substrate no longer knows the application
    (two replicas are still listed) and the facade no longer knows the dead
    unit: [Scale] and [RemoveUnit] answer not found. *)
Definition sc_gone : St :=
  sc_start Alive true 2
    {| sc_appLife := (Alive, None);
       sc_units := [sc_unit "gitlab/0" "active"; sc_unit "gitlab/1" "active";
                    sc_unit "gitlab/2" "active"];
       sc_unitLives := [("gitlab/0", Alive); ("gitlab/1", Alive); ("gitlab/2", Dead)];
       sc_scale := (2, None);
       sc_trust := (true, None);
       sc_state := {| DesiredReplicas := 2; Replicas := ["gitlab-0"; "gitlab-1"] |};
       sc_scaleErr := Some (ErrNew NotFound "statefulset gitlab not found");
       sc_removeErr := Some (ErrNew NotFound "unit not found");
       sc_ensureErr := None;
       sc_exists := [ {| Exists := true; Terminating := false |} ];
       sc_now := 0 |}.

(** Scaling toward 1 is pending when the desired scale is read as 2. *)
Definition sc_stale_target : St :=
  sc_start Alive true 1
    (sc_world [("gitlab/0", Alive); ("gitlab/1", Alive); ("gitlab/2", Alive)]).

(** Scale up: nothing pending, no unit yet, desired scale 3. *)
Definition sc_scale_up : St :=
  sc_start Alive false 0
    {| sc_appLife := (Alive, None);
       sc_units := [];
       sc_unitLives := [];
       sc_scale := (3, None);
       sc_trust := (true, None);
       sc_state := {| DesiredReplicas := 0; Replicas := [] |};
       sc_scaleErr := None; sc_removeErr := None; sc_ensureErr := None;
       sc_exists := [ {| Exists := true; Terminating := false |} ];
       sc_now := 0 |}.

(** The unit facade answers the trust query with the worker's own
    [tryAgain] error. *)
Definition sc_trust_again : St :=
  sc_start Alive false 0
    {| sc_appLife := (Alive, None);
       sc_units := [sc_unit "gitlab/0" "active"];
       sc_unitLives := [("gitlab/0", Alive)];
       sc_scale := (1, None);
       sc_trust := (false, Some tryAgain);
       sc_state := {| DesiredReplicas := 1; Replicas := ["gitlab-0"] |};
       sc_scaleErr := None; sc_removeErr := None; sc_ensureErr := None;
       sc_exists := [ {| Exists := true; Terminating := false |} ];
       sc_now := 0 |}.

(** The unit facade no longer finds the application when asked for its
    scale. *)
Definition sc_scale_not_found : St :=
  sc_start Alive false 0
    {| sc_appLife := (Alive, None);
       sc_units := [sc_unit "gitlab/0" "active"];
       sc_unitLives := [("gitlab/0", Alive)];
       sc_scale := (0, Some (ErrNew NotFound "application gitlab not found"));
       sc_trust := (false, None);
       sc_state := {| DesiredReplicas := 1; Replicas := ["gitlab-0"] |};
       sc_scaleErr := None; sc_removeErr := None; sc_ensureErr := None;
       sc_exists := [ {| Exists := true; Terminating := false |} ];
       sc_now := 0 |}.


(** A dead application with one dead unit left; the substrate reports it
    terminating twice and then gone. *)
Definition sc_dead : St :=
  sc_start Dead false 0
    {| sc_appLife := (Dead, None);
       sc_units := [sc_unit "gitlab/0" "terminated"];
       sc_unitLives := [("gitlab/0", Dead)];
       sc_scale := (0, None);
       sc_trust := (false, None);
       sc_state := {| DesiredReplicas := 1; Replicas := ["gitlab-0"] |};
       sc_scaleErr := None; sc_removeErr := None; sc_ensureErr := None;
       sc_exists := [ {| Exists := true; Terminating := true |};
                      {| Exists := true; Terminating := true |};
                      {| Exists := false; Terminating := false |} ];
       sc_now := 0 |}.

(** As [sc_dead], but the substrate reports the application terminating
    for ever. *)
Definition sc_stuck : St :=
  sc_start Dead false 0
    {| sc_appLife := (Dead, None);
       sc_units := [sc_unit "gitlab/0" "terminated"];
       sc_unitLives := [("gitlab/0", Dead)];
       sc_scale := (0, None);
       sc_trust := (false, None);
       sc_state := {| DesiredReplicas := 1; Replicas := ["gitlab-0"] |};
       sc_scaleErr := None; sc_removeErr := None; sc_ensureErr := None;
       sc_exists := [ {| Exists := true; Terminating := true |} ];
       sc_now := 0 |}.

(** The loop's variables with the scale timer armed after [n] attempts, and
    with the trust timer armed. *)
Definition sc_vars_scale (n : Z) : loopVars :=
  set_scale (loopVars_init Alive) (Some (3 * Second)) n.
Definition sc_vars_trust : loopVars :=
  set_trust (loopVars_init Alive) (Some 0) 0.

(** The facade no longer finds the application; nothing is left of it on
    the substrate. *)
Definition sc_removed : St :=
  sc_start Alive false 0
    {| sc_appLife := (Alive, Some (ErrNew NotFound "application gitlab not found"));
       sc_units := [];
       sc_unitLives := [];
       sc_scale := (0, None);
       sc_trust := (false, None);
       sc_state := {| DesiredReplicas := 0; Replicas := [] |};
       sc_scaleErr := None; sc_removeErr := None; sc_ensureErr := None;
       sc_exists := [ {| Exists := false; Terminating := false |} ];
       sc_now := 0 |}.

(** Three pods as the substrate lists them, the last one marked as dying. *)
Definition sc_pod (id : string) (dying : bool) (st : Status) : caas_Unit :=
  {| u_Id := id; u_Address := "10.1.0.1"; u_Ports := ["8080"]; u_Dying := dying;
     u_Stateful := true;
     u_Status := {| si_Status := st; si_Message := "started"; si_Data := tt;
                    si_Since := None |};
     u_FilesystemInfo := [] |}.
Definition sc_pods : list caas_Unit :=
  [sc_pod "gitlab-0" false "running"; sc_pod "gitlab-1" false "allocating";
   sc_pod "gitlab-2" true "terminated"].

(** Two units as the facade acknowledges them. *)
Definition sc_acknowledged : list ApplicationUnitInfo :=
  [ {| ui_ProviderId := "gitlab-0"; ui_UnitTag := "unit-gitlab-0" |};
    {| ui_ProviderId := "gitlab-1"; ui_UnitTag := "unit-gitlab-1" |} ].

(** ** A world for the status report

    A second small world, for runs of [updateState]: the substrate has a
    service and pods, the facade answers [UpdateUnits] as scripted, and the
    substrate records the annotations made, except on the pods it no longer
    finds. *)

Record Reporting := {
  rp_service : option caas_Service;
  rp_pods : list caas_Unit;
  rp_answer : option UpdateApplicationUnitsInfo * option error;
  rp_missing : list string;
  rp_annotated : list (string * string);
}.

Definition rp_annotate (providerId : string) (tag : string) (w : Reporting) : Reporting :=
  {| rp_service := rp_service w; rp_pods := rp_pods w; rp_answer := rp_answer w;
     rp_missing := rp_missing w;
     rp_annotated := rp_annotated w ++ [(providerId, tag)] |}.

#[global] Instance reportingFacade : @CAASProvisionerFacade scriptedOpaque Reporting := {|
  Life := fun _ w => ((Alive, None), w);
  Units := fun _ w => (([], None), w);
  RemoveUnit := fun _ w => (None, w);
  DestroyUnits := fun _ w => (None, w);
  SetProvisioningState := fun _ _ w => (None, w);
  SetOperatorStatus := fun _ _ _ _ w => (None, w);
  GetProvisioningInfo := fun _ w => ((sc_provisioningInfo, None), w);
  GetCharmInfo := fun _ w => ((sc_charmInfo, None), w);
  ApplicationOCIResources := fun _ w => ((∅, None), w);
  ClearApplicationResources := fun _ w => (None, w);
  UpdateUnits := fun _ w => (rp_answer w, w);
  WatchProvisioningInfo := fun _ w => ((None, None), w);
|}.

#[global] Instance reportingUnitFacade : @CAASUnitProvisionerFacade scriptedOpaque Reporting := {|
  ApplicationScale := fun _ w => ((0, None), w);
  ApplicationTrust := fun _ w => ((false, None), w);
  UpdateApplicationService := fun _ w => (None, w);
|}.

#[global] Instance reportingApplication : @Application scriptedOpaque Reporting := {|
  Ensure := fun _ w => (None, w);
  GetExists := fun w => (({| Exists := true; Terminating := false |}, None), w);
  Delete := fun w => (None, w);
  Scale := fun _ w => (None, w);
  UnitsToRemove := fun _ w => (([], None), w);
  Trust := fun _ w => (None, w);
  State := fun w => (({| DesiredReplicas := 0; Replicas := [] |}, None), w);
  Service := fun w => ((rp_service w, None), w);
  AppUnits := fun w => ((rp_pods w, None), w);
  Watch := fun w => ((None, None), w);
  WatchReplicas := fun w => ((None, None), w);
  AnnotateUnit := fun _ providerId tag w =>
    if bool_decide (providerId ∈ rp_missing w)
    then (Some (ErrNew NotFound ("pod " ++ providerId ++ " not found")), w)
    else (None, rp_annotate providerId tag w);
|}.

#[global] Instance reportingClock : @Clock Reporting := {|
  Now := fun _ => 0;
  After := fun _ w => w;
|}.

(** The application has a service and the three pods of [sc_pods]; the
    facade acknowledges two units but answers that the update is forbidden;
    the second pod is gone by the time it is annotated. *)
Definition rp_world : Reporting :=
  {| rp_service := Some {| svc_Id := "gitlab-svc"; svc_Addresses := ["10.152.183.7"];
                           svc_Status := {| si_Status := "active"; si_Message := "";
                                            si_Data := tt; si_Since := None |} |};
     rp_pods := sc_pods;
     rp_answer := (Some {| ui_Units := sc_acknowledged |},
                   Some (ErrNew Forbidden "application gitlab is not alive"));
     rp_missing := ["gitlab-1"];
     rp_annotated := [] |}.

Definition rp_start : St :=
  {| worker := {| name := "gitlab"; password := "secret"; lastApplied := zeroConfig;
                  life := Alive; ps := {| Scaling := false; ScaleTarget := 0 |} |};
     world := rp_world; trace := [] |}.

(** The status of the first pod was reported before. *)
Definition rp_lastReported : gmap string StatusInfo :=
  {[ "gitlab-0" := {| si_Status := "running"; si_Message := "started"; si_Data := tt;
                      si_Since := None |} ]}.

(** * The blocking operation queue *)

Module OpQueue.

(** Modelled from the spec: the queue itself ([BlockingOpQueue] with its
    [Enqueue], [Queue] and [Error]) is not among the sources; only its test
    suite is.  The model follows the contract, the algorithm and the
    per-operation state machine of the specification: a submitter's
    [Enqueue] offers its operation on the rendezvous channel while a timer
    derived from [deadline - now] runs on the injected clock and fires when
    that clock reaches the deadline; the consumer accepts an offered
    operation when it is reading the outbound stream, and writes one verdict
    before it reads again.  The interleaving of submitters, consumer and
    clock is a schedule of events. *)

Record Operation := {
  Command : string;
  Deadline : Z;
}.

(** The states of an operation: New, Offered, Delivered, Verdicted,
    Returned, or TimedOut, or Cancelled. *)
Inductive OpState :=
  | New
  | Offered
  | Delivered
  | Verdicted (e : option string)
  | Returned (e : option string)
  | TimedOut
  | Cancelled.

(** An operation in the queue's map, with its state. *)
Record Pending := {
  p_op : Operation;
  p_state : OpState;
}.

(** The consumer reads the outbound stream, holds the operation it was
    last given (its verdict still to be written), is busy elsewhere, or has
    stopped. *)
Inductive Consumer := Reading | Holding (id : nat) | Away | Stopped.

Record Queue := {
  q_now : Z;
  q_consumer : Consumer;
  q_outbound : list nat;
  q_ops : gmap nat Pending;
}.

(** What [Enqueue] returns. *)
Inductive Result := Verdict (e : option string) | DeadlineExceeded | QueueClosed.

Inductive Event :=
  | Enqueue (id : nat) (op : Operation)
  | Offer (id : nat)
  | Accept (id : nat)
  | Ack (e : option string)
  | Return (id : nat)
  | Advance (d : Z)
  | ConsumerReads
  | Shutdown.

Definition NewBlockingOpQueue (now : Z) : Queue :=
  {| q_now := now; q_consumer := Away; q_outbound := []; q_ops := ∅ |}.

Definition set_state (q : Queue) (id : nat) (p : Pending) (st : OpState) : gmap nat Pending :=
  <[id := {| p_op := p_op p; p_state := st |}]> (q_ops q).

(** The rendezvous: the consumer observes the operation on the outbound
    stream and holds it. *)
Definition deliver (q : Queue) (id : nat) (p : Pending) : Queue :=
  {| q_now := q_now q; q_consumer := Holding id;
     q_outbound := q_outbound q ++ [id];
     q_ops := set_state q id p Delivered |}.

Definition with_ops (q : Queue) (ops : gmap nat Pending) : Queue :=
  {| q_now := q_now q; q_consumer := q_consumer q;
     q_outbound := q_outbound q; q_ops := ops |}.

(** Shutdown cancels the operations not yet delivered. *)
Definition cancel (p : Pending) : Pending :=
  match p_state p with
  | New | Offered => {| p_op := p_op p; p_state := Cancelled |}
  | _ => p
  end.

(** The timer of an operation on offer fires when the clock reaches its
    deadline: the operation is withdrawn. *)
Definition expire (now : Z) (p : Pending) : Pending :=
  match p_state p with
  | Offered =>
      if Deadline (p_op p) <=? now then {| p_op := p_op p; p_state := TimedOut |} else p
  | _ => p
  end.

(** One event, when it can happen in the given state. *)
Definition step (ev : Event) (q : Queue) : option Queue :=
  match ev with
  | Enqueue id op =>
      match q_ops q !! id with
      | Some _ => None
      | None =>
          Some (with_ops q
                  (<[id := {| p_op := op;
                              p_state := match q_consumer q with
                                         | Stopped => Cancelled
                                         | _ => New
                                         end |}]> (q_ops q)))
      end
  | Offer id =>
      match q_ops q !! id with
      | Some p =>
          match p_state p with
          | New =>
              if Deadline (p_op p) - q_now q <=? 0 then
                (* zero or negative time until the deadline: a non-blocking offer *)
                match q_consumer q with
                | Reading => Some (deliver q id p)
                | _ => Some (with_ops q (set_state q id p TimedOut))
                end
              else Some (with_ops q (set_state q id p Offered))
          | _ => None
          end
      | None => None
      end
  | Accept id =>
      match q_ops q !! id, q_consumer q with
      | Some p, Reading =>
          match p_state p with
          | Offered => Some (deliver q id p)
          | _ => None
          end
      | _, _ => None
      end
  | Ack e =>
      match q_consumer q with
      | Holding id =>
          match q_ops q !! id with
          | Some p =>
              match p_state p with
              | Delivered =>
                  Some {| q_now := q_now q; q_consumer := Away;
                          q_outbound := q_outbound q;
                          q_ops := set_state q id p (Verdicted e) |}
              | _ => None
              end
          | None => None
          end
      | _ => None
      end
  | Return id =>
      match q_ops q !! id with
      | Some p =>
          match p_state p with
          | Verdicted e => Some (with_ops q (set_state q id p (Returned e)))
          | _ => None
          end
      | None => None
      end
  | Advance d =>
      if 0 <=? d
      then Some {| q_now := q_now q + d; q_consumer := q_consumer q;
                   q_outbound := q_outbound q;
                   q_ops := expire (q_now q + d) <$> q_ops q |}
      else None
  | ConsumerReads =>
      match q_consumer q with
      | Away => Some {| q_now := q_now q; q_consumer := Reading;
                        q_outbound := q_outbound q; q_ops := q_ops q |}
      | _ => None
      end
  | Shutdown =>
      Some {| q_now := q_now q; q_consumer := Stopped;
              q_outbound := q_outbound q; q_ops := cancel <$> q_ops q |}
  end.

(** A schedule of events, while each of them can happen. *)
Fixpoint run (evs : list Event) (q : Queue) : option Queue :=
  match evs with
  | [] => Some q
  | ev :: rest =>
      match step ev q with
      | Some q' => run rest q'
      | None => None
      end
  end.

Definition state_of (q : Queue) (id : nat) : option OpState :=
  p_state <$> q_ops q !! id.

(** The value the submitter's [Enqueue] has returned, once it has. *)
Definition result (q : Queue) (id : nat) : option Result :=
  match state_of q id with
  | Some (Returned e) => Some (Verdict e)
  | Some TimedOut => Some DeadlineExceeded
  | Some Cancelled => Some QueueClosed
  | _ => None
  end.

(** The commands the consumer has observed, oldest first. *)
Definition observed (q : Queue) : list string :=
  omap (fun id => (fun p => Command (p_op p)) <$> q_ops q !! id) (q_outbound q).

(** An operation the consumer has been given. *)
Definition accepted (st : OpState) : bool :=
  match st with
  | Delivered | Verdicted _ | Returned _ => true
  | _ => false
  end.

(** Every operation on the outbound stream is one the consumer was given. *)
Definition outbound_accepted (q : Queue) : Prop :=
  forall id, id ∈ q_outbound q ->
  exists p, q_ops q !! id = Some p /\ accepted (p_state p) = true.

(** No operation is on offer at or after its deadline. *)
Definition offers_in_time (q : Queue) : Prop :=
  forall id p, q_ops q !! id = Some p -> p_state p = Offered -> q_now q < Deadline (p_op p).

(** The schedules of the test suite, with [now = 0] and durations in
    nanoseconds: [TestEnqueueTimesout] and [TestMultipleEnqueueWithErrors]. *)
Definition opName (i : nat) : string := "abc-" ++ pretty i.

Definition TestEnqueueTimesout : list Event :=
  [Enqueue 1 {| Command := "abc-1"; Deadline := 1 |}; Offer 1; Advance 1000000].

Definition TestMultipleEnqueueWithErrors : list Event :=
  [ConsumerReads;
   Enqueue 0 {| Command := opName 0; Deadline := 1 |}; Offer 0; Accept 0; Ack None; Return 0;
   Enqueue 1 {| Command := opName 1; Deadline := 1 |}; Offer 1;
   Advance 1000000;
   Enqueue 2 {| Command := opName 2; Deadline := 100000000 |}; Offer 2;
   ConsumerReads; Accept 2; Ack None; Return 2].

(** The consumer turns up after the timeout of [TestEnqueueTimesout] and
    is given a later operation. *)
Definition After_timeout : list Event :=
  [ConsumerReads; Enqueue 2 {| Command := "abc-2"; Deadline := 5000000 |};
   Offer 2; Accept 2].

(** The queue after [TestEnqueueTimesout], and after the consumer's late
    arrival. *)
Definition q_timed_out : Queue :=
  default (NewBlockingOpQueue 0) (run TestEnqueueTimesout (NewBlockingOpQueue 0)).
Definition q_after_timeout : Queue :=
  default q_timed_out (run After_timeout q_timed_out).

End OpQueue.

(** * Properties of the worker *)

Section WorkerFacts.
Context `{Opaque} {W : Type}.
Context `{!@CAASProvisionerFacade _ W, !@CAASUnitProvisionerFacade _ W,
          !@Application _ W, !@Clock W}.

Local Abbreviation St := (@St _ W).
Local Abbreviation M := (@M _ W).

(** Unfold one decision and reduce the monad's plumbing. *)
Ltac mrun f := unfold f, bind, get, put, ret; cbv beta iota zeta.
Ltac mstep := unfold bind, get, put, ret; cbv beta iota zeta.

Lemma int_wrap_id z : in_int z -> int_wrap z = z.
Proof.
  unfold in_int, int_max, int_wrap. intros Hz.
  rewrite Z.mod_small; lia.
Qed.


Lemma call_trace {R} c (op : W -> R * W) (s s' : St) r :
  call c op s = (r, s') ->
  trace s' = trace s ++ [c] /\ worker s' = worker s /\ op (world s) = (r, world s').
Proof.
  unfold call. destruct (op (world s)) as [r0 w] eqn:E.
  intros [= <- <-]. simpl. auto.
Qed.

Lemma updateProvisioningState_ok (s : St) scaling scaleTarget w :
  let newPs := {| Scaling := scaling; ScaleTarget := scaleTarget |} in
  SetProvisioningState (name (worker s)) newPs (world s) = (None, w) ->
  updateProvisioningState scaling scaleTarget s =
    (None, {| worker := set_ps (worker s) newPs; world := w;
              trace := trace s ++ [CSetProvisioningState (name (worker s)) newPs] |}).
Proof.
  intros newPs Hset. mrun @updateProvisioningState.
  unfold call. fold newPs. rewrite Hset. reflexivity.
Qed.

Lemma updateProvisioningState_trace (s s' : St) scaling scaleTarget r :
  updateProvisioningState scaling scaleTarget s = (r, s') ->
  trace s' = trace s ++ [CSetProvisioningState (name (worker s))
                           {| Scaling := scaling; ScaleTarget := scaleTarget |}].
Proof.
  mrun @updateProvisioningState. unfold call.
  destruct (SetProvisioningState _ _ _) as [err w].
  destruct (IsCodeTryAgain err); [intros [= <- <-]; reflexivity|].
  destruct err; intros [= <- <-]; reflexivity.
Qed.

Lemma removals_suppressed_run deadUnits (s s' : St) :
  removals_suppressed deadUnits s s' ->
  removeDeadUnits deadUnits s = (None, s') /\
  trace s' = trace s ++ map (fun u => CRemoveUnit (Tag u)) deadUnits /\
  worker s' = worker s.
Proof.
  induction 1 as [s|u rest s err s1 s2 Hcall Herr _ IH].
  - simpl. rewrite app_nil_r. auto.
  - simpl. mstep. rewrite Hcall, Herr.
    destruct IH as (-> & -> & ->).
    apply call_trace in Hcall as (-> & -> & _).
    rewrite <- app_assoc. auto.
Qed.


(** C9: with [provisioning.scaling = false] the function only reads the
    units: the one call it makes is [Units], the worker's fields (the
    provisioning state among them) are untouched, and when that read
    succeeds it returns [nil]. *)
Theorem reconcileDeadUnitScale_not_scaling (s : St) :
  Scaling (ps (worker s)) = false ->
  worker (snd (reconcileDeadUnitScale s)) = worker s /\
  trace (snd (reconcileDeadUnitScale s)) = trace s ++ [CUnits (name (worker s))] /\
  world (snd (reconcileDeadUnitScale s)) = snd (Units (name (worker s)) (world s)) /\
  (snd (fst (Units (name (worker s)) (world s))) = None ->
   fst (reconcileDeadUnitScale s) = None).
Proof.
  intros Hsc. mrun @reconcileDeadUnitScale. unfold call.
  destruct (Units _ _) as [[units err] w]. simpl.
  destruct err as [e|]; simpl.
  - repeat split; auto. discriminate.
  - rewrite Hsc. simpl. auto.
Qed.

Lemma collectDeadUnits_frame units acc (s s' : St) r :
  collectDeadUnits units acc s = (r, s') ->
  worker s' = worker s /\
  exists k, trace s' = trace s ++ map (fun u => CLife (Tag u)) (take k units).
Proof.
  revert acc s. induction units as [|u rest IH]; intros acc s; simpl.
  - intros [= _ <-]. split; [reflexivity|]. exists 0%nat. simpl. by rewrite app_nil_r.
  - mstep. destruct (call _ _ s) as [[l e] s1] eqn:Hl.
    apply call_trace in Hl as (Htr & Hw & _).
    destruct e.
    + intros [= _ <-]. split; [exact Hw|]. exists 1%nat. rewrite Htr. by destruct rest.
    + intros Hrest. apply IH in Hrest as (-> & k & ->). split; [exact Hw|].
      exists (S k). simpl. rewrite Htr, <- app_assoc. reflexivity.
Qed.

(** When asking for a life does not change the world and every answer
    comes without error, the units collected are exactly those whose life
    was answered dead, in the order of the units. *)
Lemma collectDeadUnits_dead units acc (s s' : St) deadUnits :
  (forall id w, snd (Life id w) = w) ->
  collectDeadUnits units acc s = ((deadUnits, None), s') ->
  deadUnits = acc ++ filter (fun u => fst (fst (Life (Tag u) (world s))) = Dead) units /\
  world s' = world s.
Proof.
  intros Hpure. revert acc s deadUnits.
  induction units as [|u rest IH]; intros acc s deadUnits; simpl.
  - intros [= <- <-]. rewrite app_nil_r. auto.
  - mstep. unfold call at 1. pose proof (Hpure (Tag u) (world s)) as Hw.
    rewrite filter_cons.
    destruct (Life (Tag u) (world s)) as [[l e] w] eqn:HL. simpl in Hw. subst w.
    destruct e; [discriminate|]. intros Hrest.
    apply IH in Hrest as [-> Hworld]. simpl in Hworld. split; [|exact Hworld].
    simpl. destruct (decide (l = Dead)) as [->|Hne].
    + rewrite bool_decide_eq_true_2 by reflexivity. rewrite <- app_assoc. reflexivity.
    + rewrite bool_decide_eq_false_2 by exact Hne. reflexivity.
Qed.

(** What is left of [reconcileDeadUnitScale] once the flag has been found
    set and the units and their lives have been read. *)
Lemma reconcileDeadUnitScale_after_reads (s s1 s2 : St) units deadUnits :
  Scaling (ps (worker s)) = true ->
  call (CUnits (name (worker s))) (Units (name (worker s))) s = ((units, None), s1) ->
  collectDeadUnits units [] s1 = ((deadUnits, None), s2) ->
  let desiredScale := ScaleTarget (ps (worker s)) in
  reconcileDeadUnitScale s =
    (if negb (unitsToRemove (len units) desiredScale (len deadUnits) =? len deadUnits)
     then ret None else
     bind (call (CScale desiredScale) (Scale desiredScale)) (fun err =>
     match err_unless NotFound err with
     | Some e => ret (Some (Annotate e ("scaling application " ++ quote (name (worker s))
                                          ++ " to scale " ++ pretty desiredScale)))
     | None =>
     bind (call CState State) (fun '(appState, err) =>
     match err_unless NotFound err with
     | Some e => ret (Some e)
     | None =>
     if len (Replicas appState) >? desiredScale then ret (Some tryAgain) else
     bind (removeDeadUnits deadUnits) (fun err =>
     match err with
     | Some e => ret (Some e)
     | None => updateProvisioningState false 0
     end) end) end)) s2.
Proof.
  intros Hsc Hunits Hdead desiredScale.
  mrun @reconcileDeadUnitScale. rewrite Hunits. cbv beta iota.
  rewrite Hsc. cbv beta iota delta [negb]. rewrite Hdead. reflexivity.
Qed.


(** C10: within [reconcileDeadUnitScale], a not-found error from the
    substrate's [Scale] or from the facade's [RemoveUnit] is suppressed:
    after a [Scale] answered by not found the function still reads the
    state, and when every [RemoveUnit] is answered by [nil] or not found it
    still goes through all the dead units and ends by clearing the scaling
    flag. *)
Theorem reconcileDeadUnitScale_NotFound_suppressed
    (s s1 s2 s3 s4 s5 : St) units deadUnits e appState err' :
  Scaling (ps (worker s)) = true ->
  call (CUnits (name (worker s))) (Units (name (worker s))) s = ((units, None), s1) ->
  collectDeadUnits units [] s1 = ((deadUnits, None), s2) ->
  let desiredScale := ScaleTarget (ps (worker s)) in
  len deadUnits = unitsToRemove (len units) desiredScale (len deadUnits) ->
  call (CScale desiredScale) (Scale desiredScale) s2 = (Some e, s3) ->
  errors_Is e NotFound = true ->
  call CState State s3 = ((appState, err'), s4) ->
  err_unless NotFound err' = None ->
  len (Replicas appState) <= desiredScale ->
  removals_suppressed deadUnits s4 s5 ->
  trace s5 = trace s2 ++ CScale desiredScale :: CState
                        :: map (fun u => CRemoveUnit (Tag u)) deadUnits /\
  reconcileDeadUnitScale s = updateProvisioningState false 0 s5 /\
  forall w, SetProvisioningState (name (worker s))
              {| Scaling := false; ScaleTarget := 0 |} (world s5) = (None, w) ->
    fst (reconcileDeadUnitScale s) = None /\
    ps (worker (snd (reconcileDeadUnitScale s))) = {| Scaling := false; ScaleTarget := 0 |}.
Proof.
  intros Hsc Hunits Hdead desiredScale Heq Hscale He Hstate Herr' Hle Hrem.
  pose proof (reconcileDeadUnitScale_after_reads s s1 s2 units deadUnits Hsc Hunits Hdead)
    as Hrun.
  cbv zeta in Hrun. fold desiredScale in Hrun.
  rewrite <- Heq, Z.eqb_refl in Hrun. cbv beta iota delta [negb] in Hrun.
  apply removals_suppressed_run in Hrem as (Hrem & Htr & Hw).
  assert (Hgo : reconcileDeadUnitScale s = updateProvisioningState false 0 s5).
  { rewrite Hrun. mstep. rewrite Hscale. unfold err_unless at 1. rewrite He.
    rewrite Hstate. cbv beta iota. rewrite Herr'.
    destruct (Z.gtb_spec (len (Replicas appState)) desiredScale); [lia|].
    rewrite Hrem. reflexivity. }
  apply call_trace in Hstate as (Htr4 & Hw4 & _).
  apply call_trace in Hscale as (Htr3 & Hw3 & _).
  split; [|split; [exact Hgo|]].
  - rewrite Htr, Htr4, Htr3, <- !app_assoc. reflexivity.
  - intros w Hset. rewrite Hgo.
    assert (Hname : name (worker s5) = name (worker s)).
    { rewrite Hw, Hw4, Hw3.
      apply collectDeadUnits_frame in Hdead as (-> & _).
      apply call_trace in Hunits as (_ & -> & _). reflexivity. }
    rewrite (updateProvisioningState_ok s5 false 0 w) by (rewrite Hname; exact Hset).
    simpl. auto.
Qed.

Lemma updateProvisioningState_None (s s' : St) scaling scaleTarget :
  updateProvisioningState scaling scaleTarget s = (None, s') ->
  worker s' = set_ps (worker s) {| Scaling := scaling; ScaleTarget := scaleTarget |}.
Proof.
  mrun @updateProvisioningState. unfold call.
  destruct (SetProvisioningState _ _ _) as [err w].
  destruct (IsCodeTryAgain err); [discriminate|].
  destruct err; [discriminate|]. intros [= <-]. reflexivity.
Qed.




Lemma existsFunc_frame (s s' : St) r :
  existsFunc s = (r, s') ->
  trace s' = trace s ++ [CExists] /\ worker s' = worker s.
Proof.
  mrun @existsFunc. destruct (call CExists GetExists s) as [[d e] s1] eqn:Hcall.
  apply call_trace in Hcall as (Htr & Hw & _).
  destruct e; [intros [= _ <-]; auto|].
  destruct (negb (Exists d)); [intros [= _ <-]; auto|].
  destruct (Exists d && negb (Terminating d)); intros [= _ <-]; auto.
Qed.

(** The verdict of one poll, from the answer of [Exists]. *)
Lemma existsFunc_verdict (s : St) :
  let '(d, e) := fst (GetExists (world s)) in
  fst (existsFunc s) =
    match e with
    | Some e => Some (Trace e)
    | None =>
        if negb (Exists d) then None
        else if negb (Terminating d)
        then Some (ErrNew Generic ("application " ++ quote (name (worker s))
                                     ++ " should be terminating but is now running"))
        else Some tryAgain
    end.
Proof.
  mrun @existsFunc. unfold call.
  destruct (GetExists (world s)) as [[d e] w]. simpl.
  destruct e; [reflexivity|].
  destruct (Exists d); simpl; [|reflexivity].
  destruct (Terminating d); reflexivity.
Qed.

(** A run of [retry.Call] on [existsFunc]: some rounds of polling and
    waiting, fewer than the attempts allowed, then a last poll whose verdict
    decides the result. *)
Lemma retry_Call_existsFunc n start fatal (s s' : St) r :
  (0 < n)%nat ->
  retry_Call n (3 * Second) (3 * Minute) start existsFunc fatal s = (r, s') ->
  exists k sl rl,
    (k < n)%nat /\
    trace sl = trace s ++ poll_calls k /\ worker sl = worker s /\
    existsFunc sl = (rl, s') /\
    (r = None <-> rl = None) /\
    (forall e, rl = Some e -> exists ctx, r = Some (ErrWrap ctx e)) /\
    (forall e, rl = Some e -> fatal e = true -> r = Some (Trace e)).
Proof.
  revert s. induction n as [|more IH]; intros s Hn; [lia|].
  simpl. mstep. destruct (existsFunc s) as [rl s1] eqn:Hf.
  destruct rl as [e|].
  - destruct (fatal e) eqn:Hfatal.
    { intros [= <- <-]. exists 0%nat, s, (Some e). simpl. rewrite app_nil_r.
      repeat split; auto; try lia; try discriminate.
      - intros e' [= <-]. eexists. reflexivity.
      - intros e' [= <-] _. reflexivity. }
    destruct more as [|more'].
    { intros [= <- <-]. exists 0%nat, s, (Some e). simpl. rewrite app_nil_r.
      repeat split; auto; try lia; try discriminate.
      - intros e' [= <-]. eexists. reflexivity.
      - intros e' [= <-] Hf'. congruence. }
    destruct (Now (world s1) - start + 3 * Second >? 3 * Minute).
    { intros [= <- <-]. exists 0%nat, s, (Some e). simpl. rewrite app_nil_r.
      repeat split; auto; try lia; try discriminate.
      - intros e' [= <-]. eexists. reflexivity.
      - intros e' [= <-] Hf'. congruence. }
    destruct (call _ _ s1) as [u s2] eqn:Hafter.
    intros Hrest. apply IH in Hrest as (k & sl & rl & Hk & Htr & Hw & Hlast & Hres); [|lia].
    apply call_trace in Hafter as (Htr2 & Hw2 & _).
    apply existsFunc_frame in Hf as (Htr1 & Hw1).
    exists (S k), sl, rl. repeat split; try tauto; try lia.
    + rewrite Htr, Htr2, Htr1. unfold poll_calls. simpl.
      rewrite <- !app_assoc. reflexivity.
    + congruence.
  - intros [= <- <-]. exists 0%nat, s, None. simpl. rewrite app_nil_r.
    repeat split; auto; try lia; discriminate.
Qed.

(** [waitForTerminated] polls at most 60 times, three seconds apart; it
    returns [nil] exactly when its last poll finds that the application no
    longer exists, and a hard error (not a [tryAgain]) when that poll finds it
    existing and not terminating. *)
Lemma waitForTerminated_spec (s s' : St) r :
  waitForTerminated s = (r, s') ->
  exists k sl,
    (k < 60)%nat /\
    trace sl = trace s ++ poll_calls k /\
    trace s' = trace sl ++ [CExists] /\
    worker s' = worker s /\
    let '(d, e) := fst (GetExists (world sl)) in
    (r = None <-> e = None /\ Exists d = false) /\
    (e = None -> Exists d = true -> Terminating d = false ->
     exists err, r = Some err /\ err_kind err = Generic).
Proof.
  mrun @waitForTerminated.
  destruct (retry_Call _ _ _ _ _ _ s) as [r0 s0] eqn:Hretry.
  intros Hres.
  assert (Hr : r = match r0 with Some e => Some (Trace e) | None => None end /\ s' = s0)
    by (destruct r0; inversion Hres; auto).
  destruct Hr as [-> ->]. clear Hres.
  apply retry_Call_existsFunc in Hretry as (k & sl & rl & Hk & Htr & Hw & Hlast & Hnil & Hwrap & Hfatal);
    [|lia].
  exists k, sl. pose proof (existsFunc_verdict sl) as Hv. rewrite Hlast in Hv. simpl fst in Hv.
  apply existsFunc_frame in Hlast as (Htr' & Hw').
  repeat split; auto; [congruence|].
  destruct (fst (GetExists (world sl))) as [d e]. split.
  - split.
    + intros Hr0. destruct r0; [discriminate|].
      assert (rl = None) as -> by tauto.
      destruct e; [discriminate|]. destruct (Exists d); simpl in Hv; [|auto].
      destruct (Terminating d); discriminate.
    + intros [-> Hex]. rewrite Hex in Hv. simpl in Hv.
      assert (r0 = None) as -> by tauto. reflexivity.
  - intros -> Hex Hterm. rewrite Hex, Hterm in Hv. simpl in Hv.
    rewrite (Hfatal _ Hv eq_refl). eexists. split; reflexivity.
Qed.

Lemma poll_calls_reads k :
  Forall (fun c => is_substrate_mutation c = false) (poll_calls k).
Proof.
  unfold poll_calls. induction k as [|k IH]; simpl; [constructor|].
  repeat constructor. exact IH.
Qed.

Lemma waitForTerminated_frame (s s' : St) r :
  waitForTerminated s = (r, s') ->
  worker s' = worker s /\
  exists l, trace s' = trace s ++ l /\ Forall (fun c => is_substrate_mutation c = false) l.
Proof.
  intros Hwait. apply waitForTerminated_spec in Hwait as (k & sl & _ & Htr & Htr' & Hw & _).
  split; [exact Hw|]. exists (poll_calls k ++ [CExists]). split.
  - rewrite Htr', Htr, <- app_assoc. reflexivity.
  - apply Forall_app. split; [apply poll_calls_reads|repeat constructor].
Qed.

(** Building the config only reads: the worker's fields are as before and
    none of the calls made changes the substrate. *)
Lemma aliveConfig_frame (s s' : St) config :
  aliveConfig s = (inl config, s') ->
  worker s' = worker s /\
  exists l, trace s' = trace s ++ l /\ Forall (fun c => is_substrate_mutation c = false) l.
Proof.
  mrun @aliveConfig.
  destruct (call _ _ s) as [[pinfo e1] sa] eqn:Ha. destruct e1; [discriminate|].
  destruct (CharmURL pinfo) as [url|]; [|discriminate].
  destruct (call _ _ sa) as [[ci e2] sb] eqn:Hb. destruct e2; [discriminate|].
  destruct (call CExists GetExists sb) as [[d e3] sc] eqn:Hc. destruct e3; [discriminate|].
  match goal with
  | |- context [(if ?c then ?x else ?y) sc] =>
      destruct ((if c then x else y) sc) as [e4 sd] eqn:Hd
  end.
  destruct e4; [discriminate|].
  destruct (call _ _ sd) as [[images e5] se] eqn:He. destruct e5; [discriminate|].
  destruct (ImageForBase _ _ _ _) as [img e6]. destruct e6; [discriminate|].
  destruct (buildContainers _ _ _) as [containers e7]. destruct e7; [discriminate|].
  intros [= _ <-].
  apply call_trace in Ha as (Htra & Hwa & _).
  apply call_trace in Hb as (Htrb & Hwb & _).
  apply call_trace in Hc as (Htrc & Hwc & _).
  apply call_trace in He as (Htre & Hwe & _).
  assert (Hwait : worker sd = worker sc /\
    exists l, trace sd = trace sc ++ l /\ Forall (fun c => is_substrate_mutation c = false) l).
  { destruct (Exists d && Terminating d).
    - eapply waitForTerminated_frame; eauto.
    - injection Hd as <-. split; [reflexivity|]. exists []. rewrite app_nil_r. auto. }
  destruct Hwait as (Hwd & l & Htrd & Hl).
  split; [congruence|].
  eexists. split.
  - rewrite Htre, Htrd, Htrc, Htrb, Htra, <- !app_assoc. reflexivity.
  - repeat (apply Forall_cons; split; [reflexivity|]).
    apply Forall_app. split; [exact Hl|repeat constructor].
Qed.

(** C4: once [alive] has built the fresh application config, the
    substrate's [Ensure] is called if and only if that config differs from
    [lastApplied].  When they are equal the function returns [nil] after its
    reads, having made no call that changes the substrate.  When they differ
    and [Ensure] succeeds, [lastApplied] becomes the config; when [Ensure]
    fails, the application status is set to error with the error's message,
    the error is returned, and [lastApplied] is left as it was. *)
Theorem alive_ensures_on_change (s s1 : St) config :
  aliveConfig s = (inl config, s1) ->
  (exists l, trace s1 = trace s ++ l /\
             Forall (fun c => is_substrate_mutation c = false) l) /\
  (exists l, trace (snd (alive s)) = trace s1 ++ l /\
             (In (CEnsure config) l <-> config <> lastApplied (worker s))) /\
  (config = lastApplied (worker s) -> alive s = (None, s1)) /\
  (config <> lastApplied (worker s) ->
   forall err s2, call (CEnsure config) (Ensure config) s1 = (err, s2) ->
   match err with
   | None =>
       alive s = (None, {| worker := set_lastApplied (worker s) config;
                           world := world s2; trace := trace s2 |})
   | Some e =>
       forall r s3,
       call (CSetOperatorStatus (name (worker s)) Error (err_msg e) nilData)
            (SetOperatorStatus (name (worker s)) Error (err_msg e) nilData) s2 = (r, s3) ->
       alive s = (Some (Annotate e ("ensuring application " ++ quote (name (worker s)))), s3) /\
       lastApplied (worker s3) = lastApplied (worker s)
   end).
Proof.
  intros Hcfg. pose proof (aliveConfig_frame _ _ _ Hcfg) as (Hw & Hreads).
  split; [exact Hreads|].
  assert (Heq : config = lastApplied (worker s) -> alive s = (None, s1)).
  { intros Hsame. mrun @alive. rewrite Hcfg. cbv beta iota. rewrite Hw.
    unfold DeepEqual_config. rewrite bool_decide_eq_true_2 by exact Hsame. reflexivity. }
  assert (Hne : config <> lastApplied (worker s) ->
    forall err s2, call (CEnsure config) (Ensure config) s1 = (err, s2) ->
    match err with
    | None =>
        alive s = (None, {| worker := set_lastApplied (worker s) config;
                            world := world s2; trace := trace s2 |})
    | Some e =>
        forall r s3,
        call (CSetOperatorStatus (name (worker s)) Error (err_msg e) nilData)
             (SetOperatorStatus (name (worker s)) Error (err_msg e) nilData) s2 = (r, s3) ->
        alive s = (Some (Annotate e ("ensuring application " ++ quote (name (worker s)))), s3) /\
        lastApplied (worker s3) = lastApplied (worker s)
    end).
  { intros Hdiff err s2 Hensure. pose proof Hensure as Hens.
    apply call_trace in Hens as (_ & Hw2 & _).
    assert (Hrun : alive s =
      (match err with
       | Some e =>
           bind (setApplicationStatus Error (err_msg e) nilData) (fun _ =>
           ret (Some (Annotate e ("ensuring application " ++ quote (name (worker s))))))
       | None => bind get (fun a => bind (put (set_lastApplied a config)) (fun _ => ret None))
       end) s2).
    { mrun @alive. rewrite Hcfg. cbv beta iota. rewrite Hw.
      unfold DeepEqual_config. rewrite bool_decide_eq_false_2 by exact Hdiff.
      cbv beta iota delta [negb]. rewrite Hensure. destruct err; reflexivity. }
    destruct err as [e|].
    - intros r s3 Hstatus. rewrite Hrun. unfold setApplicationStatus. mstep.
      rewrite Hw2, Hw, Hstatus. split; [reflexivity|].
      apply call_trace in Hstatus as (_ & -> & _). congruence.
    - rewrite Hrun. mstep. rewrite Hw2, Hw. reflexivity. }
  split; [|split; [exact Heq|exact Hne]].
  destruct (decide (config = lastApplied (worker s))) as [Hsame|Hdiff].
  - rewrite (Heq Hsame). exists []. simpl. rewrite app_nil_r. split; [reflexivity|].
    split; [intros []|intros Hc; contradiction].
  - destruct (call (CEnsure config) (Ensure config) s1) as [err s2] eqn:Hensure.
    pose proof (Hne Hdiff err s2 eq_refl) as Hrun.
    apply call_trace in Hensure as (Htr2 & _ & _).
    destruct err as [e|].
    + destruct (call (CSetOperatorStatus (name (worker s)) Error (err_msg e) nilData)
                  (SetOperatorStatus (name (worker s)) Error (err_msg e) nilData) s2)
        as [r s3] eqn:Hstatus.
      destruct (Hrun r s3 eq_refl) as [-> _].
      apply call_trace in Hstatus as (Htr3 & _ & _). simpl.
      eexists. split; [rewrite Htr3, Htr2, <- app_assoc; reflexivity|].
      split; [intros _; exact Hdiff|intros _; simpl; auto].
    + rewrite Hrun. simpl. exists [CEnsure config]. split; [exact Htr2|].
      split; [intros _; exact Hdiff|intros _; simpl; auto].
Qed.

(** ** Frame: the decisions on scale only touch the provisioning state *)

Lemma keeps_ret {A} a0 (x : A) : keeps a0 (@ret _ W _ x).
Proof. intros s r s' Hs [= _ <-]. exact Hs. Qed.

Lemma keeps_call {R} a0 c (op : W -> R * W) : keeps a0 (call c op).
Proof.
  intros s r s' Hs Hcall. apply call_trace in Hcall as (_ & -> & _). exact Hs.
Qed.

Lemma keeps_bind {A B} a0 (m : M A) (k : A -> M B) :
  keeps a0 m -> (forall x, keeps a0 (k x)) -> keeps a0 (bind m k).
Proof.
  intros Hm Hk s r s' Hs. unfold bind.
  destruct (m s) as [x s1] eqn:Hms. intros Hks.
  eapply Hk; [|exact Hks]. eapply Hm; eauto.
Qed.

Lemma keeps_get {B} a0 (k : appWorker -> M B) :
  (forall a, same_but_ps a0 a -> keeps a0 (k a)) -> keeps a0 (bind get k).
Proof.
  intros Hk s r s' Hs. unfold bind, get. intros Hks. eapply Hk; eauto.
Qed.

Lemma keeps_put_ps a0 a p : same_but_ps a0 a -> keeps a0 (@put _ W (set_ps a p)).
Proof. intros Ha s r s' _ [= _ <-]. exact Ha. Qed.

Lemma same_but_ps_refl a : same_but_ps a a.
Proof. repeat split. Qed.

Create HintDb keeps.
#[local] Hint Resolve keeps_ret keeps_call keeps_put_ps : keeps.

(** Walk through a computation: binds, reads of the worker, and case
    distinctions on answers. *)
Ltac keeps_walk :=
  repeat first
    [ progress intros
    | apply keeps_get
    | apply keeps_bind
    | solve [auto with keeps]
    | match goal with
      | |- keeps _ (match ?x with _ => _ end) => destruct x
      | |- keeps _ (let (_, _) := ?x in _) => destruct x
      end ].

Lemma keeps_updateProvisioningState a0 scaling scaleTarget :
  keeps a0 (updateProvisioningState scaling scaleTarget).
Proof. unfold updateProvisioningState. keeps_walk. Qed.

#[local] Hint Resolve keeps_updateProvisioningState : keeps.

Lemma keeps_collectDeadUnits a0 units acc : keeps a0 (collectDeadUnits units acc).
Proof.
  revert acc. induction units as [|u rest IH]; intros acc; simpl; keeps_walk.
Qed.

Lemma keeps_removeDeadUnits a0 deadUnits : keeps a0 (removeDeadUnits deadUnits).
Proof. induction deadUnits as [|u rest IH]; simpl; keeps_walk. Qed.

#[local] Hint Resolve keeps_collectDeadUnits keeps_removeDeadUnits : keeps.

Lemma keeps_reconcileDeadUnitScale a0 : keeps a0 reconcileDeadUnitScale.
Proof. unfold reconcileDeadUnitScale. keeps_walk. Qed.

Lemma keeps_ensureScale a0 : keeps a0 ensureScale.
Proof. unfold ensureScale. keeps_walk. Qed.

#[local] Hint Resolve keeps_reconcileDeadUnitScale keeps_ensureScale : keeps.

Lemma keeps_dying a0 : keeps a0 dying.
Proof. unfold dying. keeps_walk. Qed.

Lemma polled_trace start k (s sl : St) :
  polled start k s sl -> trace sl = trace s ++ poll_calls k /\ worker sl = worker s.
Proof.
  induction 1 as [s|k s e s1 s2 s3 Hf Hnf Htime Hafter Hrest IH].
  { unfold poll_calls. simpl. rewrite app_nil_r. auto. }
  destruct IH as (Htr & Hw).
  apply call_trace in Hafter as (Htr2 & Hw2 & _).
  apply existsFunc_frame in Hf as (Htr1 & Hw1).
  split; [|congruence].
  rewrite Htr, Htr2, Htr1. unfold poll_calls. simpl. rewrite <- !app_assoc. reflexivity.
Qed.

(** A run of [retry.Call] as [waitForTerminated] calls it, with [S n]
    attempts allowed: rounds of polling answered by [tryAgain] within the
    time allowed, each followed by a wait, then a last poll.  After a last
    poll answered by [tryAgain] the call gives up for one of two reasons:
    no attempt is left, or the time spent plus the next delay would pass
    three minutes. *)
Lemma retry_Call_polled n start (s s' : St) r :
  retry_Call (S n) (3 * Second) (3 * Minute) start existsFunc notTryAgain s = (r, s') ->
  exists k sl rl,
    (k <= n)%nat /\ polled start k s sl /\ existsFunc sl = (rl, s') /\
    match rl with
    | None => r = None
    | Some e =>
        if notTryAgain e then r = Some (Trace e)
        else (k = n /\ r = Some (Annotate e "attempt count exceeded")) \/
             ((k < n)%nat /\ Now (world s') - start + 3 * Second > 3 * Minute /\
              r = Some (Annotate e "max duration exceeded"))
    end.
Proof.
  revert s. induction n as [|n IH]; intros s.
  - cbn [retry_Call]. mstep. destruct (existsFunc s) as [rl s1] eqn:Hf.
    destruct rl as [e|].
    + destruct (notTryAgain e) eqn:Hfatal; intros [= <- <-].
      * exists O, s, (Some e). split_and!; auto; [constructor|]. rewrite Hfatal. reflexivity.
      * exists O, s, (Some e). split_and!; auto; [constructor|]. rewrite Hfatal. auto.
    + intros [= <- <-]. exists O, s, None. split_and!; auto. constructor.
  - cbn [retry_Call]. mstep. destruct (existsFunc s) as [rl s1] eqn:Hf.
    destruct rl as [e|].
    2:{ intros [= <- <-]. exists O, s, None. split_and!; auto; [lia|constructor]. }
    destruct (notTryAgain e) eqn:Hfatal.
    { intros [= <- <-]. exists O, s, (Some e). split_and!; auto; [lia|constructor|].
      rewrite Hfatal. reflexivity. }
    destruct (Z.gtb_spec (Now (world s1) - start + 3 * Second) (3 * Minute)) as [Hlate|Hok].
    { rewrite andb_true_r.
      assert (Hpos : (3 * Minute >? 0) = true) by reflexivity. rewrite Hpos.
      intros [= <- <-]. exists O, s, (Some e). split_and!; auto; [lia|constructor|].
      rewrite Hfatal. right. split_and!; auto; lia. }
    rewrite andb_false_r.
    destruct (call _ _ s1) as [u s2] eqn:Hafter. destruct u.
    intros Hrest. apply IH in Hrest as (k & sl & rl & Hk & Hpolled & Hlast & Hres).
    exists (S k), sl, rl. split_and!; auto; [lia|econstructor; eauto|].
    destruct rl as [e'|]; [|exact Hres].
    destruct (notTryAgain e'); [exact Hres|].
    destruct Hres as [(-> & Hr)|(Hlt & Hlate & Hr)]; [left; auto|right; split_and!; auto; lia].
Qed.

(** The wait of [waitForTerminated], round by round. *)
Lemma waitForTerminated_polled (s s' : St) r :
  waitForTerminated s = (r, s') ->
  exists k sl rl,
    (k < 60)%nat /\ polled (Now (world s)) k s sl /\ existsFunc sl = (rl, s') /\
    match rl with
    | None => r = None
    | Some e =>
        if notTryAgain e then r = Some (Trace (Trace e))
        else (k = 59%nat /\ r = Some (Trace (Annotate e "attempt count exceeded"))) \/
             ((k < 59)%nat /\ Now (world s') - Now (world s) + 3 * Second > 3 * Minute /\
              r = Some (Trace (Annotate e "max duration exceeded")))
    end.
Proof.
  mrun @waitForTerminated.
  destruct (retry_Call _ _ _ _ _ _ s) as [r0 s0] eqn:Hretry.
  intros Hres.
  assert (Hr : r = match r0 with Some e => Some (Trace e) | None => None end /\ s' = s0)
    by (destruct r0; inversion Hres; auto).
  destruct Hr as [-> ->]. clear Hres.
  apply (retry_Call_polled 59) in Hretry as (k & sl & rl & Hk & Hpolled & Hlast & Hres).
  exists k, sl, rl. split_and!; auto; [lia|].
  destruct rl as [e|]; [|rewrite Hres; reflexivity].
  destruct (notTryAgain e); [rewrite Hres; reflexivity|].
  destruct Hres as [(-> & ->)|(Hlt & Hlate & ->)]; auto.
Qed.

(** C6: [dead] first runs [dying] and stops there when it fails; then it
    calls the substrate's [Delete]; then it waits for termination.  The wait
    it makes is [k] rounds, fewer than 60, begun at the time read when the
    wait starts: in each round the poll of [Exists] is answered by a
    [tryAgain], the time spent since the start plus three seconds is within
    three minutes, and the worker waits three seconds; then comes a last
    poll.  A last poll without error ends the wait with success; a last
    poll with an error that is not a [tryAgain] ends it with that error;
    after a last poll answered by a [tryAgain], the wait gives up either
    because this was the 60th poll or because the time spent plus three
    seconds passes three minutes.  The wait succeeds exactly when its last
    poll finds that the application no longer exists, and finding it
    existing and not terminating is a hard error (not a [tryAgain]).  After
    a successful wait [dead] clears the application's resources flag through
    the facade and runs [updateState] once, from no previously reported
    status, before returning. *)
Theorem dead_sequence (s s1 : St) rd :
  dying s = (rd, s1) ->
  match rd with
  | Some e => dead s = (Some (Trace e), s1)
  | None =>
  forall rdel s2, call CDelete Delete s1 = (rdel, s2) ->
  match rdel with
  | Some e => dead s = (Some (Trace e), s2)
  | None =>
  forall rw s3, waitForTerminated s2 = (rw, s3) ->
  (exists k sl rl,
     (k < 60)%nat /\
     polled (Now (world s2)) k s2 sl /\
     existsFunc sl = (rl, s3) /\
     trace sl = trace s2 ++ poll_calls k /\
     trace s3 = trace sl ++ [CExists] /\
     match rl with
     | None => rw = None
     | Some e =>
         if notTryAgain e then rw = Some (Trace (Trace e))
         else (k = 59%nat /\
               rw = Some (Trace (Annotate e "attempt count exceeded"))) \/
              ((k < 59)%nat /\
               Now (world s3) - Now (world s2) + 3 * Second > 3 * Minute /\
               rw = Some (Trace (Annotate e "max duration exceeded")))
     end /\
     let '(d, e) := fst (GetExists (world sl)) in
     (rw = None <-> e = None /\ Exists d = false) /\
     (e = None -> Exists d = true -> Terminating d = false ->
      exists err, rw = Some err /\ err_kind err = Generic)) /\
  match rw with
  | Some e => dead s = (Some (Trace e), s3)
  | None =>
  forall rc s4,
  call (CClearApplicationResources (name (worker s)))
       (ClearApplicationResources (name (worker s))) s3 = (rc, s4) ->
  match rc with
  | Some e => dead s = (Some (Trace e), s4)
  | None =>
  forall m ru s5, updateState ∅ s4 = ((m, ru), s5) ->
  dead s = (match ru with Some e => Some (Trace e) | None => None end, s5)
  end end end end.
Proof.
  intros Hdying. destruct rd as [e|].
  { mrun @dead. rewrite Hdying. reflexivity. }
  intros rdel s2 Hdelete. destruct rdel as [e|].
  { mrun @dead. rewrite Hdying. cbv beta iota. rewrite Hdelete. reflexivity. }
  intros rw s3 Hwait. split.
  - pose proof Hwait as Hrounds.
    apply waitForTerminated_polled in Hrounds as (k & sl & rl & Hk & Hpolled & Hlast & Hres).
    exists k, sl, rl.
    pose proof (polled_trace _ _ _ _ Hpolled) as (Htr & _).
    pose proof (existsFunc_frame _ _ _ Hlast) as (Htr' & _).
    pose proof (existsFunc_verdict sl) as Hverdict. rewrite Hlast in Hverdict.
    split_and!; auto.
    destruct (fst (GetExists (world sl))) as [d e]. simpl in Hverdict.
    subst rl. split.
    + destruct e as [e|]; [|destruct (Exists d); [destruct (Terminating d)|]];
        cbn [negb] in Hres;
        repeat match type of Hres with
               | if ?c then _ else _ => let Hc := fresh in destruct c eqn:Hc
               | _ \/ _ => destruct Hres as [(_ & Hres)|(_ & _ & Hres)]
               end; subst rw; split; try discriminate; auto;
        intros (? & ?); discriminate.
    + intros -> Hex Hterm. rewrite Hex, Hterm in Hres. cbn [negb] in Hres.
      eexists. split; [exact Hres|reflexivity].
  - assert (Hname : name (worker s3) = name (worker s)).
    { pose proof (keeps_dying (worker s) s None s1 (same_but_ps_refl _) Hdying) as (Hn & _).
      pose proof Hwait as Hw3. apply waitForTerminated_spec in Hw3 as (_ & _ & _ & _ & _ & -> & _).
      pose proof Hdelete as Hw2. apply call_trace in Hw2 as (_ & -> & _). exact Hn. }
    destruct rw as [e|].
    { mrun @dead. rewrite Hdying. cbv beta iota. rewrite Hdelete, Hwait. reflexivity. }
    intros rc s4 Hclear. destruct rc as [e|].
    { mrun @dead. rewrite Hdying. cbv beta iota. rewrite Hdelete, Hwait. cbv beta iota.
      rewrite Hname, Hclear. reflexivity. }
    intros m ru s5 Hupdate.
    mrun @dead. rewrite Hdying. cbv beta iota. rewrite Hdelete, Hwait. cbv beta iota.
    rewrite Hname, Hclear, Hupdate. destruct ru; reflexivity.
Qed.

(** ** The event loop *)

(** Case analysis on whatever the goal still branches on. *)
Ltac case_all :=
  repeat (match goal with
          | |- context [let (_, _) := ?x in _] => destruct x
          | |- context [match ?x with _ => _ end] => destruct x
          end; cbv beta iota).

Lemma startWatcher_started started c op ctx (s : St) :
  snd (fst (startWatcher started c op ctx s)) = None ->
  fst (fst (startWatcher started c op ctx s)) = true.
Proof.
  unfold startWatcher, bind, ret. destruct started; [reflexivity|].
  destruct (call c op s) as [[[e1|] [e2|]] s1]; simpl; congruence.
Qed.

(** [handleChange] leaves the attempt counters, the trust timer and, when
    it fails, the flag [done] as they were. *)
Lemma handleChange_vars (v : loopVars) (s : St) :
  let v' := fst (fst (handleChange v s)) in
  scaleTries v' = scaleTries v /\ trustTries v' = trustTries v /\
  trustChan v' = trustChan v /\
  (snd (fst (handleChange v s)) <> None -> done v' = done v).
Proof.
  unfold handleChange, bind, get, put, ret. cbv beta iota zeta.
  destruct (call _ _ s) as [[l err] s1].
  set (appLife := match err with
                  | Some e => if errors_Is e NotFound then Dead else l
                  | None => l
                  end).
  destruct (err_unless NotFound err); [simpl; auto|].
  set (v1 := if initial (set_appLife v appLife) && Scaling (ps (worker s))
             then _ else _).
  assert (Hv1 : scaleTries v1 = scaleTries v /\ trustTries v1 = trustTries v /\
                trustChan v1 = trustChan v /\ done v1 = done v).
  { subst v1. destruct (initial _ && Scaling _); simpl; auto. }
  destruct Hv1 as (Hs & Ht & Hc & Hd). clearbody v1.
  destruct appLife.
  - destruct (startWatcher _ _ _ _ _) as [[prov [e|]] s2]; [simpl; auto|].
    destruct (alive s2) as [[e|] s3]; [simpl; auto|].
    destruct (startWatcher _ _ _ _ s3) as [[appc [e|]] s4]; [simpl; auto|].
    destruct (startWatcher _ _ _ _ s4) as [[repl [e|]] s5]; simpl; auto.
  - destruct (dying _) as [[e|] s2]; simpl; auto.
  - destruct (dead _) as [[e|] s2]; simpl; auto. repeat split; auto. congruence.
  - simpl; auto.
Qed.

Lemma int_add_tries t : 0 <= t < maxRetries -> int_add t 1 = t + 1.
Proof.
  unfold maxRetries, int_add. intros Ht. apply int_wrap_id.
  unfold in_int, int_max. lia.
Qed.

Lemma selectCase_tries c (v : loopVars) (s : St) :
  tries_bounded v -> tries_bounded (fst (fst (fst (selectCase c v s)))).
Proof.
  unfold tries_bounded. intros Hb.
  destruct c; unfold selectCase, bind, get, ret; cbv beta iota.
  - destruct ok; simpl; [|exact Hb]. destruct (scaleChan v); simpl; unfold maxRetries in *; lia.
  - destruct (ensureScale s) as [[e|] s1]; [|simpl; exact Hb].
    destruct (errors_Is e NotFound).
    + destruct (Z.geb_spec (scaleTries v) maxRetries); simpl; [exact Hb|].
      rewrite int_add_tries by lia. lia.
    + destruct (errors_Is e TryAgain); simpl; exact Hb.
  - destruct ok; simpl; [|exact Hb]. destruct (trustChan v); simpl; unfold maxRetries in *; lia.
  - destruct ok; simpl; [|exact Hb]. destruct (reconcileDeadChan v); simpl; exact Hb.
  - destruct (reconcileDeadUnitScale s) as [[e|] s1]; [|simpl; exact Hb].
    destruct (errors_Is e NotFound); [simpl; exact Hb|].
    destruct (errors_Is e TryAgain); simpl; exact Hb.
  - destruct (ensureTrust s) as [[e|] s1]; [|simpl; exact Hb].
    destruct (errors_Is e NotFound); [|simpl; exact Hb].
    destruct (Z.geb_spec (trustTries v) maxRetries); simpl; [exact Hb|].
    rewrite int_add_tries by lia. lia.
  - simpl. exact Hb.
  - destruct (stateAppChangedChan v); simpl; exact Hb.
  - destruct (stateAppChangedChan v); simpl; exact Hb.
  - pose proof (handleChange_vars v s) as (Hs & Ht & _).
    destruct (handleChange v s) as [[v1 err] s1]. simpl in Hs, Ht.
    destruct err as [e|]; [destruct (errors_Is e TryAgain)|]; simpl; rewrite ?Hs, ?Ht; exact Hb.
  - destruct (updateState _ s) as [[m [e|]] s1]; simpl; exact Hb.
  - destruct (updateState _ s) as [[m [e|]] s1]; simpl; exact Hb.
  - simpl. exact Hb.
Qed.

Lemma loop_iteration_vars c (v : loopVars) (s : St) :
  fst (fst (loop_iteration c v s)) = fst (fst (fst (selectCase c v s))).
Proof.
  unfold loop_iteration, bind, get, ret.
  destruct (selectCase c v s) as [[[v1 refresh] out] s1]. cbv beta iota.
  destruct out; [|reflexivity].
  destruct (done v1); [reflexivity|]. destruct refresh; [|reflexivity].
  destruct (refreshApplicationStatus _ _) as [[e|] s2]; reflexivity.
Qed.

Lemma loop_run_tries schedule (v : loopVars) (s : St) :
  tries_bounded v -> tries_bounded (fst (fst (loop_run schedule v s))).
Proof.
  revert v s. induction schedule as [|c rest IH]; intros v s Hb; simpl; [exact Hb|].
  unfold bind. pose proof (selectCase_tries c v s Hb) as Hb1.
  rewrite <- loop_iteration_vars in Hb1.
  destruct (loop_iteration c v s) as [[v1 out] s1]. simpl in Hb1.
  destruct out; [apply IH; exact Hb1|exact Hb1].
Qed.

Lemma kind_TryAgain_not_NotFound e :
  errors_Is e TryAgain = true -> errors_Is e NotFound = false.
Proof.
  unfold errors_Is. intros Hk. apply bool_decide_eq_true_1 in Hk.
  apply bool_decide_eq_false_2. congruence.
Qed.

(** C7: in the event loop a not-found error from [ensureScale] or
    [ensureTrust] increments that decision's attempt counter and re-arms its
    timer at 3 seconds, unless the counter has already reached 20: then the
    worker terminates with an error.  The counters never exceed 20 along any
    run of the loop, and a counter is reset to 0 when its watcher arms an
    idle timer. *)
Theorem attempt_counters (v : loopVars) (s : St) :
  (forall e s1, ensureScale s = (Some e, s1) -> errors_Is e NotFound = true ->
   0 <= scaleTries v ->
   selectCase scaleChan_fires v s =
     if scaleTries v >=? 20
     then (v, true, Return (Some (Annotate e ("more than " ++ pretty maxRetries
                                                ++ " retries ensuring scale"))), s1)
     else (set_scale v (Some (3 * Second)) (scaleTries v + 1), false, Continue, s1)) /\
  (forall e s1, ensureTrust s = (Some e, s1) -> errors_Is e NotFound = true ->
   0 <= trustTries v ->
   selectCase trustChan_fires v s =
     if trustTries v >=? 20
     then (v, true, Return (Some (Annotate e ("more than " ++ pretty maxRetries
                                                ++ " retries ensuring trust"))), s1)
     else (set_trust v (Some (3 * Second)) (trustTries v + 1), false, Continue, s1)) /\
  (scaleChan v = None ->
   selectCase (appScaleWatcher_Changes true) v s = (set_scale v (Some 0) 0, false, Continue, s)) /\
  (trustChan v = None ->
   selectCase (appTrustWatcher_Changes true) v s = (set_trust v (Some 0) 0, false, Continue, s)) /\
  (forall schedule,
   0 <= scaleTries v <= 20 -> 0 <= trustTries v <= 20 ->
   0 <= scaleTries (fst (fst (loop_run schedule v s))) <= 20 /\
   0 <= trustTries (fst (fst (loop_run schedule v s))) <= 20).
Proof.
  repeat split.
  - intros e s1 Hrun He Hpos. unfold selectCase, bind, get, ret. cbv beta iota.
    rewrite Hrun, He. fold maxRetries.
    destruct (Z.geb_spec (scaleTries v) maxRetries); [reflexivity|].
    rewrite int_add_tries by lia. reflexivity.
  - intros e s1 Hrun He Hpos. unfold selectCase, bind, get, ret. cbv beta iota.
    rewrite Hrun, He. fold maxRetries.
    destruct (Z.geb_spec (trustTries v) maxRetries); [reflexivity|].
    rewrite int_add_tries by lia. reflexivity.
  - intros Hidle. unfold selectCase, bind, get, ret. cbv beta iota. rewrite Hidle. reflexivity.
  - intros Hidle. unfold selectCase, bind, get, ret. cbv beta iota. rewrite Hidle. reflexivity.
  - apply (loop_run_tries schedule v s). split; assumption.
  - apply (loop_run_tries schedule v s). split; assumption.
  - apply (loop_run_tries schedule v s). split; assumption.
  - apply (loop_run_tries schedule v s). split; assumption.
Qed.

(** [ensureTrust] creates no error of its own: what it returns is the
    error answered by the unit facade or by the substrate, with context. *)
Lemma ensureTrust_passes_on (s s' : St) e :
  ensureTrust s = (Some e, s') ->
  exists ctx e0, e = ErrWrap ctx e0 /\
    (snd (fst (ApplicationTrust (name (worker s)) (world s))) = Some e0 \/
     exists b w, fst (Trust b w) = Some e0).
Proof.
  mrun @ensureTrust. unfold call.
  destruct (ApplicationTrust _ _) as [[b e1] w1]. simpl.
  destruct e1 as [e1|].
  - intros [= <- _]. eexists _, e1. split; [reflexivity|]. left. reflexivity.
  - cbv beta iota. simpl. destruct (Trust b w1) as [e2 w2] eqn:Htrust.
    destruct e2 as [e2|]; [|discriminate].
    intros [= <- _]. eexists _, e2. split; [reflexivity|]. right.
    exists b, w1. rewrite Htrust. reflexivity.
Qed.

(** C2 (amended): a [tryAgain] error returned by [ensureScale], by
    [reconcileDeadUnitScale] or by [handleChange] re-arms that decision's
    timer at the retry delay of 3 seconds and does not end the loop: the
    turn goes on to the status refresh, and the loop returns in that turn
    only if the refresh fails.  The trust timer's case has no such branch:
    an error of [ensureTrust] other than not found, [tryAgain] included, is
    returned and ends the worker. *)
Theorem tryAgain_rearms (v : loopVars) (s : St) :
  retryDelay = 3 * 1000000000 /\
  (forall e s1, ensureScale s = (Some e, s1) -> errors_Is e TryAgain = true ->
   selectCase scaleChan_fires v s
   = (set_scale v (Some retryDelay) (scaleTries v), true, Continue, s1)) /\
  (forall e s1, reconcileDeadUnitScale s = (Some e, s1) -> errors_Is e TryAgain = true ->
   selectCase reconcileDeadChan_fires v s
   = (set_reconcileDeadChan v (Some retryDelay), true, Continue, s1)) /\
  (forall v1 e s1, handleChange v s = (v1, Some e, s1) -> errors_Is e TryAgain = true ->
   selectCase stateAppChangedChan_fires v s
   = (set_stateAppChangedChan v1 (Some retryDelay), true, Continue, s1) /\
   done v1 = done v) /\
  (forall c v1 s1, selectCase c v s = (v1, true, Continue, s1) -> done v1 = false ->
   forall r s2, refreshApplicationStatus (appLife v1) s1 = (r, s2) ->
   loop_iteration c v s =
     (v1, match r with
          | Some e => Return (Some (Annotate e ("refreshing application status for "
                                                  ++ quote (name (worker s1)))))
          | None => Continue
          end, s2)) /\
  (forall e s1, ensureTrust s = (Some e, s1) -> errors_Is e NotFound = false ->
   selectCase trustChan_fires v s = (v, true, Return (Some (Trace e)), s1) /\
   loop_iteration trustChan_fires v s = (v, Return (Some (Trace e)), s1)).
Proof.
  split; [reflexivity|]. split; [|split; [|split; [|split]]].
  - intros e s1 Hrun He. unfold selectCase, bind, get, ret. cbv beta iota.
    rewrite Hrun, (kind_TryAgain_not_NotFound e He), He. reflexivity.
  - intros e s1 Hrun He. unfold selectCase, bind, get, ret. cbv beta iota.
    rewrite Hrun, (kind_TryAgain_not_NotFound e He), He. reflexivity.
  - intros v1 e s1 Hrun He. pose proof (handleChange_vars v s) as (_ & _ & _ & Hdone).
    rewrite Hrun in Hdone. simpl in Hdone. split; [|apply Hdone; discriminate].
    unfold selectCase, bind, get, ret. cbv beta iota. rewrite Hrun, He. reflexivity.
  - intros c v1 s1 Hcase Hdone r s2 Hrefresh.
    unfold loop_iteration, bind, get, ret. rewrite Hcase. cbv beta iota.
    rewrite Hdone, Hrefresh. destruct r; reflexivity.
  - intros e s1 Hrun He.
    assert (Hcase : selectCase trustChan_fires v s = (v, true, Return (Some (Trace e)), s1)).
    { unfold selectCase, bind, get, ret. cbv beta iota. rewrite Hrun, He. reflexivity. }
    split; [exact Hcase|].
    unfold loop_iteration, bind, get, ret. rewrite Hcase. reflexivity.
Qed.

(** ** Further properties: the calls each decision makes *)

Lemma only_ret {A} allowed (x : A) : makes_only allowed (@ret _ W _ x).
Proof. intros s r s' [= _ <-]. exists []. rewrite app_nil_r. auto. Qed.

Lemma only_reader {A} allowed (f : St -> A) : makes_only allowed (fun s : St => (f s, s)).
Proof. intros s r s' [= _ <-]. exists []. rewrite app_nil_r. auto. Qed.

Lemma only_call {R} (allowed : Call -> bool) c (op : W -> R * W) :
  allowed c = true -> makes_only allowed (call c op).
Proof.
  intros Hc s r s' Hcall. apply call_trace in Hcall as (-> & _).
  exists [c]. split; [reflexivity|]. repeat constructor. exact Hc.
Qed.

Lemma only_bind {A B} allowed (m : M A) (k : A -> M B) :
  makes_only allowed m -> (forall x, makes_only allowed (k x)) -> makes_only allowed (bind m k).
Proof.
  intros Hm Hk s r s'. unfold bind. destruct (m s) as [x s1] eqn:Hms. intros Hks.
  destruct (Hm _ _ _ Hms) as (l1 & -> & Hl1) || destruct (Hm _ _ _ Hms) as (l1 & Htr1 & Hl1).
  destruct (Hk x _ _ _ Hks) as (l2 & Htr2 & Hl2).
  exists (l1 ++ l2). split; [rewrite Htr2, Htr1, app_assoc; reflexivity|].
  apply Forall_app. auto.
Qed.

Lemma only_put allowed a : makes_only allowed (@put _ W a).
Proof. intros s r s' [= _ <-]. exists []. simpl. rewrite app_nil_r. auto. Qed.

Lemma only_weaken {A} (P Q : Call -> bool) (m : M A) :
  (forall c, P c = true -> Q c = true) -> makes_only P m -> makes_only Q m.
Proof.
  intros HPQ Hm s r s' Hrun. destruct (Hm _ _ _ Hrun) as (l & Htr & Hl).
  exists l. split; [exact Htr|]. eapply Forall_impl; [exact Hl|]. exact HPQ.
Qed.

Create HintDb only.
#[local] Hint Resolve only_ret only_put : only.

(** Walk through a computation, checking each call against the allowed
    ones. *)
Ltac only_walk :=
  repeat first
    [ progress intros
    | apply only_bind
    | apply only_call; reflexivity
    | apply only_reader
    | solve [auto with only]
    | match goal with
      | |- makes_only _ (match ?x with _ => _ end) => destruct x
      | |- makes_only _ (let (_, _) := ?x in _) => destruct x
      end ].

Lemma only_updateProvisioningState scaling scaleTarget :
  makes_only updateProvisioningState_calls (updateProvisioningState scaling scaleTarget).
Proof. unfold updateProvisioningState, get. only_walk. Qed.

Lemma only_collectDeadUnits units acc :
  makes_only reconcileDeadUnitScale_calls (collectDeadUnits units acc).
Proof. revert acc. induction units as [|u rest IH]; intros acc; simpl; only_walk. Qed.

Lemma only_removeDeadUnits deadUnits :
  makes_only reconcileDeadUnitScale_calls (removeDeadUnits deadUnits).
Proof. induction deadUnits as [|u rest IH]; simpl; only_walk. Qed.

Lemma only_updateProvisioningState_in (allowed : Call -> bool) scaling scaleTarget :
  (forall n p, allowed (CSetProvisioningState n p) = true) ->
  makes_only allowed (updateProvisioningState scaling scaleTarget).
Proof.
  intros Hall. eapply only_weaken; [|apply only_updateProvisioningState].
  intros []; simpl; try discriminate. auto.
Qed.

#[local] Hint Resolve only_collectDeadUnits only_removeDeadUnits : only.

Lemma only_reconcileDeadUnitScale :
  makes_only reconcileDeadUnitScale_calls reconcileDeadUnitScale.
Proof.
  unfold reconcileDeadUnitScale, get. only_walk.
  all: apply only_updateProvisioningState_in; reflexivity.
Qed.

Lemma only_ensureScale : makes_only ensureScale_calls ensureScale.
Proof.
  unfold ensureScale, get. only_walk.
  all: apply only_updateProvisioningState_in; reflexivity.
Qed.

Lemma only_ensureTrust : makes_only ensureTrust_calls ensureTrust.
Proof. unfold ensureTrust, get. only_walk. Qed.

Lemma only_setApplicationStatus (allowed : Call -> bool) st reason d :
  (forall n, allowed (CSetOperatorStatus n st reason d) = true) ->
  makes_only allowed (setApplicationStatus st reason d).
Proof.
  intros Hall. unfold setApplicationStatus, get. apply only_bind; [apply only_reader|].
  intros a. apply only_call. apply Hall.
Qed.

Lemma only_refreshApplicationStatus appLife :
  makes_only refreshApplicationStatus_calls (refreshApplicationStatus appLife).
Proof.
  unfold refreshApplicationStatus, get. only_walk.
  all: apply only_setApplicationStatus; reflexivity.
Qed.

Lemma only_existsFunc : makes_only waitForTerminated_calls existsFunc.
Proof. unfold existsFunc, get. only_walk. Qed.

Lemma only_retry_Call n start fatal :
  makes_only waitForTerminated_calls
    (retry_Call n (3 * Second) (3 * Minute) start existsFunc fatal).
Proof.
  induction n as [|more IH]; [apply only_ret|].
  cbn [retry_Call]. apply only_bind; [apply only_existsFunc|]. intros [e|]; [|apply only_ret].
  destruct (fatal e); [apply only_ret|].
  destruct more as [|more']; [apply only_ret|].
  apply only_bind; [apply only_reader|]. intros elapsed.
  destruct (_ && _); [apply only_ret|].
  apply only_bind; [apply only_call; reflexivity|]. intros _. exact IH.
Qed.

Lemma only_waitForTerminated : makes_only waitForTerminated_calls waitForTerminated.
Proof.
  unfold waitForTerminated. apply only_bind; [apply only_reader|]. intros start.
  apply only_bind; [apply only_retry_Call|]. intros [e|]; apply only_ret.
Qed.

Lemma only_aliveConfig : makes_only alive_calls aliveConfig.
Proof.
  unfold aliveConfig, get. only_walk.
  all: eapply only_weaken; [|apply only_waitForTerminated].
  all: intros []; simpl; congruence.
Qed.

Lemma only_alive : makes_only alive_calls alive.
Proof.
  unfold alive, get. apply only_bind; [apply only_aliveConfig|]. only_walk.
  all: apply only_setApplicationStatus; reflexivity.
Qed.

Lemma only_annotateUnits appName units :
  makes_only updateState_calls (annotateUnits appName units).
Proof. induction units as [|u rest IH]; simpl; only_walk. Qed.

#[local] Hint Resolve only_annotateUnits : only.

Lemma only_updateState last : makes_only updateState_calls (updateState last).
Proof. unfold updateState, get. only_walk. Qed.

Lemma only_dying : makes_only dying_calls dying.
Proof.
  unfold dying. apply only_bind.
  { eapply only_weaken; [|apply only_ensureScale]. intros c Hc. unfold dying_calls.
    rewrite Hc. reflexivity. }
  intros [e|]; [apply only_ret|]. apply only_bind; [|intros [e|]; apply only_ret].
  eapply only_weaken; [|apply only_reconcileDeadUnitScale]. intros c Hc. unfold dying_calls.
  rewrite Hc. apply orb_true_r.
Qed.

Lemma only_dead : makes_only dead_calls dead.
Proof.
  unfold dead, get.
  apply only_bind.
  { eapply only_weaken; [|apply only_dying]. intros c Hc. unfold dead_calls.
    rewrite Hc. reflexivity. }
  intros [e|]; [apply only_ret|].
  apply only_bind; [apply only_call; reflexivity|]. intros [e|]; [apply only_ret|].
  apply only_bind.
  { eapply only_weaken; [|apply only_waitForTerminated]. intros c Hc. unfold dead_calls.
    rewrite Hc. rewrite orb_true_r. reflexivity. }
  intros [e|]; [apply only_ret|].
  apply only_bind; [apply only_reader|]. intros a.
  apply only_bind; [apply only_call; reflexivity|]. intros [e|]; [apply only_ret|].
  apply only_bind.
  { eapply only_weaken; [|apply only_updateState]. intros c Hc. unfold dead_calls.
    rewrite Hc. rewrite orb_true_r. reflexivity. }
  intros [m [e|]]; apply only_ret.
Qed.


(** ** Further properties: what changes in the worker *)

Lemma bind_inv {A B} (m : M A) (k : A -> M B) (s s' : St) r :
  bind m k s = (r, s') -> exists x s1, m s = (x, s1) /\ k x s1 = (r, s').
Proof. unfold bind. destruct (m s) as [x s1]. intros Hk. exists x, s1. auto. Qed.

Lemma kw_ret {A} (x : A) : keeps_worker (@ret _ W _ x).
Proof. intros s r s' [= _ <-]. reflexivity. Qed.

Lemma kw_reader {A} (f : St -> A) : keeps_worker (fun s : St => (f s, s)).
Proof. intros s r s' [= _ <-]. reflexivity. Qed.

Lemma kw_call {R} c (op : W -> R * W) : keeps_worker (call c op).
Proof. intros s r s' Hc. apply call_trace in Hc as (_ & Hw & _). exact Hw. Qed.

Lemma kw_bind {A B} (m : M A) (k : A -> M B) :
  keeps_worker m -> (forall x, keeps_worker (k x)) -> keeps_worker (bind m k).
Proof.
  intros Hm Hk s r s' Hrun. apply bind_inv in Hrun as (x & s1 & Hms & Hks).
  rewrite (Hk _ _ _ _ Hks). exact (Hm _ _ _ Hms).
Qed.

Create HintDb kw.
#[local] Hint Resolve kw_ret kw_call : kw.

Ltac kw_walk :=
  repeat first
    [ progress intros
    | solve [auto with kw]
    | apply kw_bind
    | apply kw_reader
    | match goal with
      | |- keeps_worker (match ?x with _ => _ end) => destruct x
      | |- keeps_worker (let (_, _) := ?x in _) => destruct x
      end ].

Lemma kw_setApplicationStatus st reason d : keeps_worker (setApplicationStatus st reason d).
Proof. unfold setApplicationStatus, get. kw_walk. Qed.

#[local] Hint Resolve kw_setApplicationStatus : kw.

Lemma kw_refreshApplicationStatus appLife : keeps_worker (refreshApplicationStatus appLife).
Proof. unfold refreshApplicationStatus, get. kw_walk. Qed.

Lemma kw_ensureTrust : keeps_worker ensureTrust.
Proof. unfold ensureTrust, get. kw_walk. Qed.

Lemma kw_waitForTerminated : keeps_worker waitForTerminated.
Proof. intros s r s' Hrun. apply waitForTerminated_frame in Hrun as (Hw & _). exact Hw. Qed.

#[local] Hint Resolve kw_waitForTerminated : kw.

Lemma kw_aliveConfig : keeps_worker aliveConfig.
Proof. unfold aliveConfig, get. kw_walk. Qed.

Lemma kw_annotateUnits appName units : keeps_worker (annotateUnits appName units).
Proof. induction units as [|u rest IH]; simpl; kw_walk. Qed.

#[local] Hint Resolve kw_annotateUnits : kw.

Lemma kw_updateState last : keeps_worker (updateState last).
Proof. unfold updateState, get. kw_walk. Qed.

Lemma kw_startWatcher started c (op : W -> (option error * option error) * W) ctx :
  keeps_worker (startWatcher started c op ctx).
Proof. unfold startWatcher. kw_walk. Qed.

Lemma keeps_of_kw {A} a0 (m : M A) : keeps_worker m -> keeps a0 m.
Proof. intros Hm s r s' Hs Hrun. rewrite (Hm _ _ _ Hrun). exact Hs. Qed.

Lemma keeps_dead a0 : keeps a0 dead.
Proof.
  unfold dead.
  apply keeps_bind; [apply keeps_dying|]. intros [e|]; [apply keeps_ret|].
  apply keeps_bind; [apply keeps_call|]. intros [e|]; [apply keeps_ret|].
  apply keeps_bind; [apply keeps_of_kw, kw_waitForTerminated|]. intros [e|]; [apply keeps_ret|].
  apply keeps_get. intros a Ha.
  apply keeps_bind; [apply keeps_call|]. intros [e|]; [apply keeps_ret|].
  apply keeps_bind; [apply keeps_of_kw, kw_updateState|]. intros [m [e|]]; apply keeps_ret.
Qed.

Lemma ki_of_keeps {A} (m : M A) : (forall a0, keeps a0 m) -> keeps_identity m.
Proof.
  intros Hm s r s' Hrun.
  destruct (Hm (worker s) s r s' (same_but_ps_refl _) Hrun) as (Hn & Hp & _ & Hl).
  repeat split; assumption.
Qed.

Lemma ki_of_kw {A} (m : M A) : keeps_worker m -> keeps_identity m.
Proof. intros Hm s r s' Hrun. rewrite (Hm _ _ _ Hrun). repeat split. Qed.

Lemma ki_bind {A B} (m : M A) (k : A -> M B) :
  keeps_identity m -> (forall x, keeps_identity (k x)) -> keeps_identity (bind m k).
Proof.
  intros Hm Hk s r s' Hrun. apply bind_inv in Hrun as (x & s1 & Hms & Hks).
  destruct (Hm _ _ _ Hms) as (Hn & Hp & Hl). destruct (Hk _ _ _ _ Hks) as (Hn' & Hp' & Hl').
  repeat split; congruence.
Qed.

Lemma ki_alive : keeps_identity alive.
Proof.
  intros s r s' Hrun. unfold alive in Hrun.
  apply bind_inv in Hrun as ([config|e] & s1 & Hcfg & Hrun).
  2:{ injection Hrun as _ <-. rewrite (kw_aliveConfig _ _ _ Hcfg). repeat split. }
  apply kw_aliveConfig in Hcfg. unfold bind, get in Hrun.
  destruct (negb _); [|injection Hrun as _ <-; rewrite Hcfg; repeat split].
  destruct (call (CEnsure config) (Ensure config) s1) as [err s2] eqn:Hens.
  apply kw_call in Hens. destruct err as [e|].
  - destruct (setApplicationStatus _ _ _ s2) as [u s3] eqn:Hset.
    apply kw_setApplicationStatus in Hset. injection Hrun as _ <-.
    rewrite Hset, Hens, Hcfg. repeat split.
  - unfold put, ret in Hrun. injection Hrun as _ <-. simpl. rewrite Hens, Hcfg. repeat split.
Qed.
Lemma only_startWatcher (allowed : Call -> bool) started c
    (op : W -> (option error * option error) * W) ctx :
  allowed c = true -> makes_only allowed (startWatcher started c op ctx).
Proof.
  intros Hc. unfold startWatcher. destruct started; [apply only_ret|].
  apply only_bind; [apply only_call; exact Hc|].
  intros [[e|] [e'|]]; apply only_ret.
Qed.

(** A run of [dead] that ends without error has deleted the application
    and cleared its resources flag. *)
Lemma dead_None_calls (s s' : St) :
  dead s = (None, s') ->
  exists l, trace s' = trace s ++ l /\ In CDelete l /\
            In (CClearApplicationResources (name (worker s))) l.
Proof.
  intros Hrun. unfold dead in Hrun.
  apply bind_inv in Hrun as ([e|] & s1 & Hdying & Hrun); [discriminate|].
  apply bind_inv in Hrun as ([e|] & s2 & Hdel & Hrun); [discriminate|].
  apply bind_inv in Hrun as ([e|] & s3 & Hwait & Hrun); [discriminate|].
  apply bind_inv in Hrun as (a & s3' & Hget & Hrun). injection Hget as <- <-.
  apply bind_inv in Hrun as ([e|] & s4 & Hclear & Hrun); [discriminate|].
  apply bind_inv in Hrun as ([m [e|]] & s5 & Hupd & Hrun); [discriminate|].
  injection Hrun as <-.
  destruct (keeps_dying (worker s) _ _ _ (same_but_ps_refl _) Hdying) as (Hn & _).
  destruct (only_dying _ _ _ Hdying) as (l1 & Ht1 & _).
  apply call_trace in Hdel as (Ht2 & Hw2 & _).
  destruct (only_waitForTerminated _ _ _ Hwait) as (l3 & Ht3 & _).
  apply kw_waitForTerminated in Hwait.
  apply call_trace in Hclear as (Ht4 & _ & _).
  destruct (only_updateState _ _ _ _ Hupd) as (l5 & Ht5 & _).
  rewrite Hwait, Hw2, Hn in Ht4.
  eexists. split.
  { rewrite Ht5, Ht4, Ht3, Ht2, Ht1, <- !app_assoc. reflexivity. }
  split; rewrite !in_app_iff; simpl; auto 10.
Qed.

Ltac hc_done Hlf :=
  simpl in *; split_and!; auto;
  try (rewrite Hlf; auto; fail);
  try (intros Hd; simpl in Hd; rewrite Hlf in Hd; discriminate);
  try (intros _ Hd; discriminate).

(** What a run of [handleChange] reads, calls and assigns. *)
Lemma handleChange_run v (s s' : St) v' r :
  handleChange v s = (v', r, s') ->
  exists lf err s1 l,
    call (CLife (name (worker s))) (Life (name (worker s))) s = ((lf, err), s1) /\
    appLife v' = match err with
                 | Some e => if errors_Is e NotFound then Dead else lf
                 | None => lf
                 end /\
    trace s' = trace s ++ CLife (name (worker s)) :: l /\
    Forall (fun c => handleChange_calls (appLife v') c = true) l /\
    name (worker s') = name (worker s) /\ password (worker s') = password (worker s) /\
    stateAppChangedChan v' = stateAppChangedChan v /\
    match err_unless NotFound err with
    | Some e => r = Some (Trace e) /\ s' = s1 /\ v' = set_appLife v (appLife v')
    | None =>
        life (worker s') = appLife v' /\
        (if initial v && Scaling (ps (worker s))
         then initial v' = false /\ scaleChan v' = Some 0 /\ reconcileDeadChan v' = Some 0
         else initial v' = initial v /\ scaleChan v' = scaleChan v /\
              reconcileDeadChan v' = reconcileDeadChan v) /\
        (done v' = done v \/ (done v' = true /\ r = None /\ appLife v' = Dead)) /\
        (appLife v' = Dead -> r = None ->
         done v' = true /\ In CDelete l /\
         In (CClearApplicationResources (name (worker s))) l)
    end.
Proof.
  intros Hrun. unfold handleChange in Hrun.
  apply bind_inv in Hrun as (a & s0 & Hget & Hrun). injection Hget as <- <-.
  apply bind_inv in Hrun as ([lf err] & s1 & Hlife & Hrun).
  exists lf, err, s1. cbv zeta in Hrun.
  remember (match err with
            | Some e => if errors_Is e NotFound then Dead else lf
            | None => lf
            end) as al eqn:Hal.
  destruct (call_trace _ _ _ _ _ Hlife) as (Ht1 & Hw1 & _).
  destruct (err_unless NotFound err) as [e|] eqn:Herr.
  { injection Hrun as <- <- <-. exists []. simpl. rewrite Hw1. repeat split; auto. }
  apply bind_inv in Hrun as ([] & s2 & Hput & Hrun). injection Hput as <-.
  remember (if initial (set_appLife v al) && Scaling (ps (worker s))
            then _ else _) as v1 eqn:Hv1 in Hrun.
  assert (Hvars : appLife v1 = al /\ stateAppChangedChan v1 = stateAppChangedChan v /\
                  done v1 = done v /\
                  (if initial v && Scaling (ps (worker s))
                   then initial v1 = false /\ scaleChan v1 = Some 0 /\
                        reconcileDeadChan v1 = Some 0
                   else initial v1 = initial v /\ scaleChan v1 = scaleChan v /\
                        reconcileDeadChan v1 = reconcileDeadChan v)).
  { subst v1. simpl. destruct (initial v && Scaling _); simpl; repeat split. }
  clear Hv1. destruct Hvars as (Hlf & Hch & Hdone & Hinit).
  set (s2 := {| worker := set_life (worker s) al; world := world s1; trace := trace s1 |}) in *.
  assert (Hid : forall t : St, same_identity (worker s2) (worker t) ->
                name (worker t) = name (worker s) /\ password (worker t) = password (worker s) /\
                life (worker t) = al).
  { intros t (Hn & Hp & Hl). simpl in *. auto. }
  assert (Hfin : forall (t : St) v2 l, appLife v2 = al ->
            trace t = trace s2 ++ l ->
            Forall (fun c => handleChange_calls al c = true) l ->
            exists l, trace t = trace s ++ CLife (name (worker s)) :: l /\
                      Forall (fun c => handleChange_calls (appLife v2) c = true) l).
  { intros t v2 l -> Htr Hall. exists l. split; [|exact Hall].
    rewrite Htr. simpl. rewrite Ht1, <- app_assoc. reflexivity. }
  assert (Hsw : forall started c (op : W -> (option error * option error) * W) ctx
                        (t t' : St) b e,
            handleChange_calls Alive c = true ->
            startWatcher started c op ctx t = ((b, e), t') ->
            worker t' = worker t /\
            exists l, trace t' = trace t ++ l /\
                      Forall (fun c => handleChange_calls Alive c = true) l).
  { intros started c op ctx t t' b e Hc Hsw. split; [exact (kw_startWatcher _ _ _ _ _ _ _ Hsw)|].
    exact (only_startWatcher _ _ _ _ _ Hc _ _ _ Hsw). }
  destruct al.
  - (* alive *)
    apply bind_inv in Hrun as ([prov e1] & s3 & Hw3 & Hrun).
    apply Hsw in Hw3 as (Hw3 & l3 & Ht3 & Hl3); [|reflexivity].
    destruct e1 as [e1|].
    { injection Hrun as <- <- <-.
      destruct (Hfin _ (set_watchers v1 (appChanges v1) prov (replicaChanges v1)) l3 Hlf Ht3 Hl3)
        as (l & Htr & Hall).
      exists l. rewrite Hw3. hc_done Hlf. }
    apply bind_inv in Hrun as (ea & s4 & Halive & Hrun).
    destruct (only_alive _ _ _ Halive) as (l4 & Ht4 & Hl4).
    apply ki_alive in Halive. rewrite Hw3 in Halive.
    assert (Hl4' : Forall (fun c => handleChange_calls Alive c = true) l4).
    { eapply Forall_impl; [exact Hl4|]. intros c Hc. unfold handleChange_calls.
      rewrite Hc. destruct c; reflexivity. }
    destruct ea as [ea|].
    { injection Hrun as <- <- <-.
      assert (Htr' : trace s4 = trace s2 ++ l3 ++ l4)
        by (rewrite Ht4, Ht3, app_assoc; reflexivity).
      assert (Hall' : Forall (fun c => handleChange_calls Alive c = true) (l3 ++ l4))
        by (apply Forall_app; auto).
      destruct (Hfin _ (set_watchers v1 (appChanges v1) prov (replicaChanges v1)) _ Hlf Htr' Hall')
        as (l & Htr & Hall).
      exists l. apply Hid in Halive as (Hn & Hp & Hl). hc_done Hlf. }
    apply bind_inv in Hrun as ([appc e5] & s5 & Hw5 & Hrun).
    apply Hsw in Hw5 as (Hw5 & l5 & Ht5 & Hl5); [|reflexivity].
    rewrite <- Hw5 in Halive.
    destruct e5 as [e5|].
    { injection Hrun as <- <- <-.
      assert (Htr' : trace s5 = trace s2 ++ l3 ++ l4 ++ l5)
        by (rewrite Ht5, Ht4, Ht3, <- !app_assoc; reflexivity).
      assert (Hall' : Forall (fun c => handleChange_calls Alive c = true) (l3 ++ l4 ++ l5))
        by (rewrite !Forall_app; auto).
      destruct (Hfin _ (set_watchers v1 (appChanges v1) prov (replicaChanges v1)) _ Hlf Htr' Hall')
        as (l & Htr & Hall).
      exists l. apply Hid in Halive as (Hn & Hp & Hl). hc_done Hlf. }
    apply bind_inv in Hrun as ([repl e6] & s6 & Hw6 & Hrun).
    apply Hsw in Hw6 as (Hw6 & l6 & Ht6 & Hl6); [|reflexivity].
    rewrite <- Hw6 in Halive.
    assert (Htr' : trace s6 = trace s2 ++ l3 ++ l4 ++ l5 ++ l6)
      by (rewrite Ht6, Ht5, Ht4, Ht3, <- !app_assoc; reflexivity).
    assert (Hall' : Forall (fun c => handleChange_calls Alive c = true) (l3 ++ l4 ++ l5 ++ l6))
      by (rewrite !Forall_app; auto).
    apply Hid in Halive as (Hn & Hp & Hl).
    destruct e6 as [e6|]; injection Hrun as <- <- <-.
    all: destruct (Hfin _ (set_watchers v1 (appChanges v1) prov (replicaChanges v1)) _
                     Hlf Htr' Hall') as (l & Htr & Hall).
    all: exists l; hc_done Hlf.
  - (* dying *)
    apply bind_inv in Hrun as (ed & s3 & Hdying & Hrun).
    destruct (only_dying _ _ _ Hdying) as (l3 & Ht3 & Hl3).
    apply (Forall_impl _ (fun c => handleChange_calls Dying c = true)) in Hl3;
      [|intros c Hc; destruct c; auto].
    apply (ki_of_keeps _ keeps_dying) in Hdying. apply Hid in Hdying as (Hn & Hp & Hl).
    destruct (Hfin _ v1 l3 Hlf Ht3 Hl3) as (l & Htr & Hall).
    exists l. destruct ed as [ed|]; injection Hrun as <- <- <-; hc_done Hlf.
  - (* dead *)
    apply bind_inv in Hrun as (ed & s3 & Hdead & Hrun).
    destruct (only_dead _ _ _ Hdead) as (l3 & Ht3 & Hl3).
    apply (Forall_impl _ (fun c => handleChange_calls Dead c = true)) in Hl3;
      [|intros c Hc; destruct c; auto].
    pose proof (ki_of_keeps _ keeps_dead _ _ _ Hdead) as Hkd. apply Hid in Hkd as (Hn & Hp & Hl).
    destruct ed as [ed|]; injection Hrun as <- <- <-.
    { destruct (Hfin _ v1 l3 Hlf Ht3 Hl3) as (l & Htr & Hall).
      exists l. hc_done Hlf. }
    apply dead_None_calls in Hdead as (l & Ht & Hdel & Hclear).
    assert (l = l3) as -> by (rewrite Ht in Ht3; apply app_inv_head in Ht3; exact Ht3).
    exists l3. simpl. split_and!; auto.
    + rewrite Ht3. simpl. rewrite Ht1, <- app_assoc. reflexivity.
    + rewrite Hlf. exact Hl3.
    + rewrite Hlf; auto.
  - (* an unknown life *)
    injection Hrun as <- <- <-. exists []. rewrite Hlf. hc_done Hlf.
Qed.
(** ** Further properties: the event loop *)

Lemma loop_iteration_inv c v (s s' : St) v' out :
  loop_iteration c v s = (v', out, s') ->
  exists refresh out1 s1,
    selectCase c v s = (v', refresh, out1, s1) /\
    ((s' = s1 /\ out = out1 /\ out1 <> Continue) \/
     (s' = s1 /\ out1 = Continue /\ done v' = true /\ out = Return None) \/
     (s' = s1 /\ out1 = Continue /\ done v' = false /\ refresh = false /\ out = Continue) \/
     (out1 = Continue /\ done v' = false /\ refresh = true /\
      exists r, refreshApplicationStatus (appLife v') s1 = (r, s') /\
        out = match r with
              | Some e => Return (Some (Annotate e ("refreshing application status for "
                                                      ++ quote (name (worker s1)))))
              | None => Continue
              end)).
Proof.
  intros Hrun. unfold loop_iteration in Hrun.
  apply bind_inv in Hrun as ([[v1 refresh] out1] & s1 & Hsel & Hrun).
  destruct out1 as [|err].
  - destruct (done v1) eqn:Hdone.
    { injection Hrun as <- <- <-. exists refresh, Continue, s1. auto 10. }
    destruct refresh.
    + apply bind_inv in Hrun as (a & s0 & Hget & Hrun). injection Hget as <- <-.
      apply bind_inv in Hrun as (r & s2 & Href & Hrun).
      exists true, Continue, s1.
      destruct r as [e|]; injection Hrun as <- <- <-; (split; [exact Hsel|]);
        do 3 right; split_and!; auto; eexists; (split; [exact Href|reflexivity]).
    + injection Hrun as <- <- <-. exists false, Continue, s1. auto 10.
  - injection Hrun as <- <- <-. exists refresh, (Return err), s1.
    split; [exact Hsel|]. left. split_and!; auto; discriminate.
Qed.

Lemma selectCase_state_inv v (s s' : St) v' refresh out :
  selectCase stateAppChangedChan_fires v s = (v', refresh, out, s') ->
  exists v2 r,
    handleChange v s = (v2, r, s') /\ refresh = true /\
    match r with
    | Some e =>
        if errors_Is e TryAgain
        then v' = set_stateAppChangedChan v2 (Some retryDelay) /\ out = Continue
        else v' = v2 /\ out = Return (Some (Trace e))
    | None => v' = set_stateAppChangedChan v2 None /\ out = Continue
    end.
Proof.
  intros Hrun. unfold selectCase in Hrun.
  apply bind_inv in Hrun as (a & s0 & Hget & Hrun). injection Hget as <- <-.
  apply bind_inv in Hrun as ([v2 r] & s1 & Hh & Hrun).
  exists v2, r. destruct r as [e|]; [destruct (errors_Is e TryAgain)|];
    injection Hrun as <- <- <- <-; auto.
Qed.

(** Whenever a case of the [select] returns, it returns an error. *)
Lemma selectCase_Return c v (s : St) :
  snd (fst (selectCase c v s)) <> Return None.
Proof.
  unfold selectCase, bind, get, ret. destruct c; case_all; simpl; discriminate.
Qed.

(** All cases but the one of the application's own changes leave the
    variables [done] and [appLife] alone. *)
Lemma selectCase_done c v (s : St) :
  c <> stateAppChangedChan_fires ->
  done (fst (fst (fst (selectCase c v s)))) = done v /\
  appLife (fst (fst (fst (selectCase c v s)))) = appLife v.
Proof.
  intros Hc. unfold selectCase, bind, get, ret. destruct c; try congruence; case_all; simpl; auto.
Qed.

Lemma only_selectCase c v :
  c <> stateAppChangedChan_fires ->
  makes_only (fun x => negb (is_deletion x) && negb (is_ensure x)) (selectCase c v).
Proof.
  intros Hc. unfold selectCase, get.
  apply only_bind; [apply only_reader|]. intros a.
  destruct c; try congruence.
  - destruct (negb ok); apply only_ret.
  - apply only_bind; [|intros; case_all; apply only_ret].
    eapply only_weaken; [|apply only_ensureScale]. intros []; simpl; congruence.
  - destruct (negb ok); apply only_ret.
  - destruct (negb ok); apply only_ret.
  - apply only_bind; [|intros; case_all; apply only_ret].
    eapply only_weaken; [|apply only_reconcileDeadUnitScale]. intros []; simpl; congruence.
  - apply only_bind; [|intros; case_all; apply only_ret].
    eapply only_weaken; [|apply only_ensureTrust]. intros []; simpl; congruence.
  - apply only_ret.
  - apply only_ret.
  - apply only_ret.
  - apply only_bind; [|intros; case_all; apply only_ret].
    eapply only_weaken; [|apply only_updateState]. intros []; simpl; congruence.
  - apply only_bind; [|intros; case_all; apply only_ret].
    eapply only_weaken; [|apply only_updateState]. intros []; simpl; congruence.
  - apply only_ret.
Qed.

Lemma handleChange_calls_deletion al x :
  handleChange_calls al x = true -> is_deletion x = true -> al = Dead.
Proof. destruct al, x; cbv; congruence. Qed.

Lemma handleChange_calls_ensure al x :
  handleChange_calls al x = true -> is_ensure x = true -> al = Alive.
Proof. destruct al, x; cbv; congruence. Qed.
Lemma keeps_selectCase a0 c v :
  c <> stateAppChangedChan_fires -> keeps a0 (selectCase c v).
Proof.
  intros Hc. unfold selectCase. apply keeps_get. intros a Ha.
  destruct c; try congruence.
  - destruct (negb ok); apply keeps_ret.
  - apply keeps_bind; [apply keeps_ensureScale|]. intros; case_all; apply keeps_ret.
  - destruct (negb ok); apply keeps_ret.
  - destruct (negb ok); apply keeps_ret.
  - apply keeps_bind; [apply keeps_reconcileDeadUnitScale|]. intros; case_all; apply keeps_ret.
  - apply keeps_bind; [apply keeps_of_kw, kw_ensureTrust|]. intros; case_all; apply keeps_ret.
  - apply keeps_ret.
  - apply keeps_ret.
  - apply keeps_ret.
  - apply keeps_bind; [apply keeps_of_kw, kw_updateState|]. intros; case_all; apply keeps_ret.
  - apply keeps_bind; [apply keeps_of_kw, kw_updateState|]. intros; case_all; apply keeps_ret.
  - apply keeps_ret.
Qed.

(** What one iteration of the loop calls and leaves in the worker. *)
Lemma loop_iteration_run c v (s s' : St) v' out :
  loop_iteration c v s = (v', out, s') ->
  name (worker s') = name (worker s) /\ password (worker s') = password (worker s) /\
  (c <> stateAppChangedChan_fires ->
   same_but_ps (worker s) (worker s') /\ done v' = done v /\ appLife v' = appLife v) /\
  (out = Continue -> done v' = false) /\
  exists l, trace s' = trace s ++ l /\
    (forall x, In x l -> is_deletion x = true ->
       c = stateAppChangedChan_fires /\ appLife v' = Dead /\ life (worker s') = Dead) /\
    (forall x, In x l -> is_ensure x = true ->
       c = stateAppChangedChan_fires /\ appLife v' = Alive /\ life (worker s') = Alive) /\
    (out = Return None -> done v = false ->
       appLife v' = Dead /\ life (worker s') = Dead /\ In CDelete l /\
       In (CClearApplicationResources (name (worker s))) l).
Proof.
  intros Hrun. apply loop_iteration_inv in Hrun as (refresh & out1 & s1 & Hsel & Hrest).
  (* the part after the select *)
  assert (Hafter : worker s' = worker s1 /\
            (out = Continue -> done v' = false) /\
            (out = Return None -> out1 = Continue /\ done v' = true /\ s' = s1) /\
            exists l2, trace s' = trace s1 ++ l2 /\
              Forall (fun x => negb (is_deletion x) && negb (is_ensure x) = true) l2).
  { destruct Hrest as [(-> & -> & Hne)|[(-> & -> & Hd & ->)|[(-> & -> & Hd & -> & ->)
                      |(-> & Hd & -> & r & Href & ->)]]].
    - split_and!; auto; try congruence.
      + intros ->. pose proof (selectCase_Return c v s) as Hr. rewrite Hsel in Hr. contradiction.
      + exists []. rewrite app_nil_r. auto.
    - split_and!; auto; try congruence. exists []. rewrite app_nil_r. auto.
    - split_and!; auto; try congruence. exists []. rewrite app_nil_r. auto.
    - split_and!.
      + exact (kw_refreshApplicationStatus _ _ _ _ Href).
      + auto.
      + destruct r; discriminate.
      + destruct (only_refreshApplicationStatus _ _ _ _ Href) as (l2 & Ht & Hl).
        exists l2. split; [exact Ht|]. eapply Forall_impl; [exact Hl|].
        intros []; simpl; congruence. }
  destruct Hafter as (Hw & Hcont & Hnil & l2 & Ht2 & Hl2).
  rewrite List.Forall_forall in Hl2.
  assert (Hdec : c = stateAppChangedChan_fires \/ c <> stateAppChangedChan_fires)
    by (destruct c; auto; right; discriminate).
  destruct Hdec as [->|Hc].
  - apply selectCase_state_inv in Hsel as (v2 & r & Hh & -> & Hv').
    apply handleChange_run in Hh as (lf & err & sl & l & Hlife & Hal & Htr & Hall & Hn & Hp
                                     & Hch & Hmatch).
    assert (Hv : appLife v' = appLife v2 /\ done v' = done v2).
    { destruct r as [e|]; [destruct (errors_Is e TryAgain)|];
        destruct Hv' as (-> & _); auto. }
    destruct Hv as (Hv & Hdv). rewrite <- Hv in *. rewrite Hw.
    rewrite List.Forall_forall in Hall.
    assert (Hin : forall x, In x (CLife (name (worker s)) :: l ++ l2) ->
                  is_deletion x = true \/ is_ensure x = true ->
                  In x l /\ life (worker s1) = appLife v').
    { intros x [<-|Hx] Hk; [destruct Hk; discriminate|].
      apply in_app_iff in Hx as [Hx|Hx].
      - split; [exact Hx|]. destruct (err_unless NotFound err).
        + destruct Hmatch as (_ & -> & _).
          apply call_trace in Hlife as (Hl1 & _). rewrite Hl1 in Htr.
          apply app_inv_head in Htr. injection Htr as <-. destruct Hx.
        + destruct Hmatch as (Hl & _). exact Hl.
      - apply Hl2 in Hx. destruct Hk as [Hk|Hk]; rewrite Hk in Hx; simpl in Hx;
          [discriminate|rewrite andb_false_r in Hx; discriminate]. }
    split_and!; auto; try congruence.
    exists (CLife (name (worker s)) :: l ++ l2). split_and!.
    + rewrite Ht2, Htr, <- app_assoc. reflexivity.
    + intros x Hx Hk. destruct (Hin x Hx (or_introl Hk)) as (Hxl & Hlife').
      split_and!; auto. all: rewrite ?Hlife'; eapply handleChange_calls_deletion; eauto.
    + intros x Hx Hk. destruct (Hin x Hx (or_intror Hk)) as (Hxl & Hlife').
      split_and!; auto. all: rewrite ?Hlife'; eapply handleChange_calls_ensure; eauto.
    + intros Hout Hdone. destruct (Hnil Hout) as (_ & Hd' & ->).
      destruct (err_unless NotFound err).
      * destruct Hmatch as (_ & _ & ->). simpl in Hdv. congruence.
      * destruct Hmatch as (Hl & _ & [Hd|(_ & -> & Hdead)] & Hdel); [congruence|].
        destruct (Hdel Hdead eq_refl) as (_ & Hdel' & Hclr).
        rewrite Hl. split_and!; auto; right; apply in_app_iff; auto.
  - pose proof (keeps_selectCase (worker s) c v Hc _ _ _ (same_but_ps_refl _) Hsel) as Hk.
    destruct (only_selectCase c v Hc _ _ _ Hsel) as (l1 & Ht1 & Hl1).
    rewrite List.Forall_forall in Hl1.
    pose proof (selectCase_done c v s Hc) as (Hd & Ha). rewrite Hsel in Hd, Ha. simpl in Hd, Ha.
    rewrite Hw. destruct Hk as (Hn & Hp & Hla & Hli).
    assert (Hno : forall x, In x (l1 ++ l2) ->
                  is_deletion x = true \/ is_ensure x = true -> False).
    { intros x Hx Hk. assert (Hx' : negb (is_deletion x) && negb (is_ensure x) = true).
      { apply in_app_iff in Hx as [Hx|Hx]; auto. }
      destruct Hk as [Hk|Hk]; rewrite Hk in Hx'; simpl in Hx';
        [discriminate|rewrite andb_false_r in Hx'; discriminate]. }
    split_and!; auto.
    { intros _. repeat split; auto. }
    exists (l1 ++ l2). split_and!.
    + rewrite Ht2, Ht1, <- app_assoc. reflexivity.
    + intros x Hx Hk. destruct (Hno x Hx (or_introl Hk)).
    + intros x Hx Hk. destruct (Hno x Hx (or_intror Hk)).
    + intros Hout Hdone. destruct (Hnil Hout) as (_ & Hd' & _). congruence.
Qed.
(** X1 (handleChange, loop): the worker deletes the application, or clears
    its resources flag, only in an iteration that handles a change of the
    application and has just read its life as dead (or found it gone); it
    ensures the application on the substrate only in such an iteration that
    has just read its life as alive.  No other case of the select makes any
    of these calls. *)
Theorem loop_iteration_lifecycle c v (s s' : St) v' out :
  loop_iteration c v s = (v', out, s') ->
  exists l, trace s' = trace s ++ l /\
    (forall x, In x l -> is_deletion x = true ->
       c = stateAppChangedChan_fires /\ appLife v' = Dead /\ life (worker s') = Dead) /\
    (forall x, In x l -> is_ensure x = true ->
       c = stateAppChangedChan_fires /\ appLife v' = Alive /\ life (worker s') = Alive).
Proof.
  intros Hrun.
  apply loop_iteration_run in Hrun as (_ & _ & _ & _ & l & Htr & Hdel & Hens & _).
  exists l. auto.
Qed.

(** X2 (loop): the loop returns without an error only after it has read the
    application's life as dead, deleted the application on the substrate and
    cleared its resources flag at the controller. *)
Theorem loop_run_clean_exit schedule v (s s' : St) v' :
  done v = false ->
  loop_run schedule v s = (v', Return None, s') ->
  appLife v' = Dead /\ life (worker s') = Dead /\
  exists l, trace s' = trace s ++ l /\ In CDelete l /\
            In (CClearApplicationResources (name (worker s))) l.
Proof.
  revert v s. induction schedule as [|c rest IH]; intros v s Hdone Hrun; [discriminate|].
  cbn [loop_run] in Hrun.
  apply bind_inv in Hrun as ([v1 out] & s1 & Hit & Hrun).
  apply loop_iteration_run in Hit as (Hn & _ & _ & Hcont & l & Htr & _ & _ & Hnil).
  destruct out as [|err].
  - destruct (IH v1 s1 (Hcont eq_refl) Hrun) as (Ha & Hl & l' & Htr' & Hdel & Hclr).
    split_and!; auto. exists (l ++ l'). rewrite Hn in Hclr. split_and!.
    + rewrite Htr', Htr, app_assoc. reflexivity.
    + apply in_app_iff; auto.
    + apply in_app_iff; auto.
  - injection Hrun as ? ? ?; subst.
    destruct (Hnil eq_refl Hdone) as (Ha & Hl & Hdel & Hclr).
    split_and!; auto. exists l. auto.
Qed.

(** X3 (loop): along every schedule the worker keeps its name and its
    password; its life, the config it last applied, and the loop's own
    [appLife] and [done] change only in iterations that handle a change of
    the application. *)
Theorem loop_run_identity schedule v (s s' : St) v' out :
  loop_run schedule v s = (v', out, s') ->
  name (worker s') = name (worker s) /\ password (worker s') = password (worker s) /\
  (~ In stateAppChangedChan_fires schedule ->
   life (worker s') = life (worker s) /\ lastApplied (worker s') = lastApplied (worker s) /\
   appLife v' = appLife v /\ done v' = done v).
Proof.
  revert v s. induction schedule as [|c rest IH]; intros v s Hrun.
  { injection Hrun as <- <- <-. split_and!; auto. }
  cbn [loop_run] in Hrun.
  apply bind_inv in Hrun as ([v1 out1] & s1 & Hit & Hrun).
  apply loop_iteration_run in Hit as (Hn & Hp & Hother & _).
  assert (Hend : name (worker s') = name (worker s1) /\
                 password (worker s') = password (worker s1) /\
                 (~ In stateAppChangedChan_fires rest ->
                  life (worker s') = life (worker s1) /\
                  lastApplied (worker s') = lastApplied (worker s1) /\
                  appLife v' = appLife v1 /\ done v' = done v1)).
  { destruct out1 as [|err]; [exact (IH _ _ Hrun)|]. injection Hrun as <- <- <-.
    split_and!; auto. }
  destruct Hend as (Hn' & Hp' & Hrest).
  split_and!; try congruence.
  intros Hnotin. simpl in Hnotin.
  destruct Hother as ((_ & _ & Hla & Hli) & Hd & Ha); [intros ->; auto|].
  destruct Hrest as (Hli' & Hla' & Ha' & Hd'); [auto|].
  split_and!; congruence.
Qed.

(** X4 (handleChange): the life the worker goes on with is the life the
    facade has just reported; an application the facade no longer finds is
    treated as dead, and in that case a run without error has deleted the
    application and ends the loop.  Any other error of the life query is
    returned after this one call and leaves the worker as it was. *)
Theorem handleChange_life v (s s' : St) v' r :
  handleChange v s = (v', r, s') ->
  let '(lf, err) := fst (Life (name (worker s)) (world s)) in
  match err with
  | None => appLife v' = lf /\ life (worker s') = lf
  | Some e =>
      if errors_Is e NotFound
      then appLife v' = Dead /\ life (worker s') = Dead /\
           (r = None ->
            done v' = true /\
            exists l, trace s' = trace s ++ CLife (name (worker s)) :: l /\ In CDelete l)
      else r = Some (Trace e) /\ worker s' = worker s /\
           trace s' = trace s ++ [CLife (name (worker s))]
  end.
Proof.
  intros Hrun.
  apply handleChange_run in Hrun as (lf & err & s1 & l & Hlife & Hal & Htr & _ & _ & _ & _ & Hm).
  apply call_trace in Hlife as (Ht1 & Hw1 & Hop). rewrite Hop. simpl.
  destruct err as [e|]; simpl in Hm.
  - destruct (errors_Is e NotFound) eqn:Hnf; simpl in Hm.
    + destruct Hm as (Hl & _ & _ & Hdead). split_and!; [congruence..|].
      intros ->. destruct (Hdead Hal eq_refl) as (Hd & Hdel & _). eauto.
    + destruct Hm as (-> & -> & _). auto.
  - destruct Hm as (Hl & _). split; congruence.
Qed.

(** X5 (handleChange): a worker that starts while a scale operation is
    recorded as in progress resumes it when it first handles a change:
    unless the life query fails, the scale timer and the dead-unit timer are
    armed to fire at once and the first-time flag is dropped.  Otherwise
    [handleChange] leaves these timers and the flag as they are. *)
Theorem handleChange_resumes_scaling v (s s' : St) v' r :
  handleChange v s = (v', r, s') ->
  err_unless NotFound (snd (fst (Life (name (worker s)) (world s)))) = None ->
  (if initial v && Scaling (ps (worker s))
   then initial v' = false /\ scaleChan v' = Some 0 /\ reconcileDeadChan v' = Some 0
   else initial v' = initial v /\ scaleChan v' = scaleChan v /\
        reconcileDeadChan v' = reconcileDeadChan v) /\
  stateAppChangedChan v' = stateAppChangedChan v /\ trustChan v' = trustChan v /\
  scaleTries v' = scaleTries v /\ trustTries v' = trustTries v.
Proof.
  intros Hrun Herr.
  pose proof (handleChange_vars v s) as (Hst & Htt & Htc & _). rewrite Hrun in Hst, Htt, Htc.
  simpl in Hst, Htt, Htc.
  apply handleChange_run in Hrun as (lf & err & s1 & l & Hlife & _ & _ & _ & _ & _ & Hch & Hm).
  apply call_trace in Hlife as (_ & _ & Hop). rewrite Hop in Herr. simpl in Herr.
  rewrite Herr in Hm. destruct Hm as (_ & Hinit & _). auto.
Qed.
Lemma selectCase_timer c v (s : St) :
  is_timer_case c = true ->
  snd (fst (selectCase c v s)) = Continue ->
  let v' := fst (fst (fst (selectCase c v s))) in
  (timer_of c v' = None \/ timer_of c v' = Some retryDelay) /\
  (c <> stateAppChangedChan_fires ->
   forall c', c' <> c -> timer_of c' v' = timer_of c' v).
Proof.
  unfold selectCase, bind, get, ret. destruct c; try discriminate; intros _.
  - destruct (ensureScale s) as [[e|] s1]; case_all; simpl; try discriminate; intros _.
    all: split; [auto|]; intros _ [] Hc'; simpl; congruence.
  - destruct (reconcileDeadUnitScale s) as [[e|] s1]; case_all; simpl; try discriminate;
      intros _.
    all: split; [auto|]; intros _ [] Hc'; simpl; congruence.
  - destruct (ensureTrust s) as [[e|] s1]; case_all; simpl; try discriminate; intros _.
    all: split; [auto|]; intros _ [] Hc'; simpl; congruence.
  - destruct (handleChange v s) as [[v2 [e|]] s1]; case_all; simpl; try discriminate; intros _.
    all: split; [auto|]; congruence.
Qed.

(** X6 (loop): when the case of one of the four timers has been handled and
    the loop goes on, that timer is either cleared or set again with the
    retry delay of three seconds; it is never left ready to fire at once.
    The cases of the scale, trust and dead-unit timers leave the other
    timers as they are. *)
Theorem timer_rearmed_or_cleared c v (s s' : St) v' :
  is_timer_case c = true ->
  loop_iteration c v s = (v', Continue, s') ->
  (timer_of c v' = None \/ timer_of c v' = Some (3 * Second)) /\
  (c <> stateAppChangedChan_fires ->
   forall c', c' <> c -> timer_of c' v' = timer_of c' v).
Proof.
  intros Hc Hrun.
  apply loop_iteration_inv in Hrun as (refresh & out1 & s1 & Hsel & Hrest).
  assert (Hout : out1 = Continue).
  { destruct Hrest as [(_ & <- & Hne)|[(_ & _ & _ & Hr)|[(_ & -> & _)|(-> & _)]]];
      congruence. }
  subst out1. pose proof (selectCase_timer c v s Hc) as Ht.
  rewrite Hsel in Ht. exact (Ht eq_refl).
Qed.



(** ** Further properties: the decisions on scale *)

Ltac bstep H x s E := apply bind_inv in H as (x & s & E & H).

(** Closes a goal on the calls of a run from the equations collected on the
    way: the trace is put together, then each call is checked. *)
Ltac trace_all :=
  repeat match goal with
         | Ht : trace _ = _ |- _ => rewrite Ht; clear Ht
         end;
  rewrite <- ?app_assoc; simpl.

(** X8 (ensureScale): for a dying or dead application the desired scale is
    not asked for: the worker first records with the facade that it is
    scaling to 0, and every target it then gives to the substrate is 0. *)
Theorem ensureScale_dying_to_zero (s s' : St) r :
  life (worker s) = Dying \/ life (worker s) = Dead ->
  ensureScale s = (r, s') ->
  exists l,
    trace s' = trace s ++ CSetProvisioningState (name (worker s))
                            {| Scaling := true; ScaleTarget := 0 |} :: l /\
    Forall (fun c => scales_to_zero c = true) l.
Proof.
  intros Hlife Hrun. unfold ensureScale in Hrun.
  bstep Hrun a s0 Hget. injection Hget as <- <-.
  assert (Hb : negb (Scaling (ps (worker s))) || negb (bool_decide (life (worker s) = Alive))
               = true).
  { destruct Hlife as [-> | ->]; rewrite bool_decide_eq_false_2 by discriminate;
      apply orb_true_r. }
  rewrite Hb in Hrun. clear Hb.
  bstep Hrun de s0 Hd.
  assert (de = (0, None) /\ s0 = s) as (-> & ->).
  { destruct Hlife as [Hl | Hl]; rewrite Hl in Hd; injection Hd as <- <-; auto. }
  clear Hd. cbv beta iota in Hrun.
  bstep Hrun e1 s1 Hups.
  pose proof (updateProvisioningState_trace _ _ _ _ _ Hups) as Ht1.
  destruct e1 as [e1|].
  { injection Hrun as <- <-. exists []. auto. }
  apply updateProvisioningState_None in Hups.
  bstep Hrun ue s2 Hunits. destruct ue as [units e2].
  apply call_trace in Hunits as (Ht2 & Hw2 & _). rewrite Hups in Hw2.
  destruct e2 as [e2|].
  { injection Hrun as <- <-. eexists. split; [trace_all; reflexivity|]. repeat constructor. }
  bstep Hrun a s2' Hget. injection Hget as <- <-.
  rewrite Hw2 in Hrun. simpl in Hrun.
  destruct (0 >=? len units).
  - bstep Hrun e3 s3 Hscale. apply call_trace in Hscale as (Ht3 & _ & _).
    destruct e3 as [e3|].
    { injection Hrun as <- <-. eexists. split; [trace_all; reflexivity|]. repeat constructor. }
    apply updateProvisioningState_trace in Hrun.
    eexists. split; [trace_all; reflexivity|]. repeat constructor.
  - bstep Hrun ud s3 Hrem. destruct ud as [unitsToDestroy e3].
    apply call_trace in Hrem as (Ht3 & _ & _).
    destruct e3 as [e3|].
    { destruct (errors_Is e3 NotFound); injection Hrun as <- <-.
      all: eexists; (split; [trace_all; reflexivity|]); repeat constructor. }
    bstep Hrun e4 s4 Hdestroy.
    assert (Ht4 : exists l4, trace s4 = trace s3 ++ l4 /\
                             Forall (fun c => scales_to_zero c = true) l4).
    { destruct (len unitsToDestroy >? 0).
      - apply call_trace in Hdestroy as (Ht4 & _). exists [CDestroyUnits unitsToDestroy].
        split; [exact Ht4|]. repeat constructor.
      - injection Hdestroy as _ <-. exists []. rewrite app_nil_r. auto. }
    destruct Ht4 as (l4 & Ht4 & Hl4).
    assert (s' = s4) as ->.
    { destruct e4 as [e4|]; injection Hrun as _ <-; reflexivity. }
    eexists. split; [trace_all; reflexivity|]. repeat constructor. exact Hl4.
Qed.
(** Settles a property of the calls of a run once the list of calls is
    known: membership is decided call by call. *)
Ltac in_cases H :=
  simpl in H;
  repeat match type of H with
         | _ \/ _ => destruct H as [H|H]
         | False => destruct H
         | ?a = ?b => first [discriminate H | is_var b; subst b | is_var a; subst a
                            | injection H as ?; subst]
         end.

(** X9 (ensureScale): scaling goes one way or the other.  A run of
    [ensureScale] never both sets the scale on the substrate and asks it for
    units to remove; units are destroyed only when the substrate has named
    some; and a run without error leaves the scaling flag cleared exactly
    when it has set the scale on the substrate: after a scale down through
    the removal of units the flag stays set.  Only the provisioning state of
    the worker changes. *)
Theorem ensureScale_paths (s s' : St) r :
  ensureScale s = (r, s') ->
  same_but_ps (worker s) (worker s') /\
  exists l, trace s' = trace s ++ l /\
    (forall n m, In (CScale n) l -> ~ In (CUnitsToRemove m) l) /\
    (forall us, In (CDestroyUnits us) l ->
       us <> [] /\ exists m, In (CUnitsToRemove m) l) /\
    (r = None -> (Scaling (ps (worker s')) = false <-> exists n, In (CScale n) l)).
Proof.
  intros Hrun.
  split; [exact (keeps_ensureScale (worker s) _ _ _ (same_but_ps_refl _) Hrun)|].
  unfold ensureScale in Hrun.
  bstep Hrun a s0 Hget. injection Hget as <- <-.
  bstep Hrun de s0 Hd. destruct de as [desiredScale err].
  assert (Hd' : exists l0, (l0 = [] \/ l0 = [CApplicationScale (name (worker s))]) /\
                           trace s0 = trace s ++ l0 /\ worker s0 = worker s).
  { destruct (life (worker s)).
    - bstep Hd de s0' Hcall. apply call_trace in Hcall as (Ht & Hw & _).
      exists [CApplicationScale (name (worker s))].
      destruct de as [d [e|]]; injection Hd as _ _ <-; auto.
    - injection Hd as _ _ <-. exists []. rewrite app_nil_r. auto.
    - injection Hd as _ _ <-. exists []. rewrite app_nil_r. auto.
    - injection Hd as _ _ <-. exists []. rewrite app_nil_r. auto. }
  destruct Hd' as (l0 & Hl0 & Ht0 & Hw0). clear Hd.
  destruct err as [e|].
  { injection Hrun as <- <-. exists l0. split_and!; auto.
    - intros n m Hn. destruct Hl0 as [-> | ->]; in_cases Hn.
    - intros us Hn. destruct Hl0 as [-> | ->]; in_cases Hn.
    - discriminate. }
  bstep Hrun e1 s1 Hups.
  assert (Hu : exists l1,
            (l1 = [] \/ exists p, l1 = [CSetProvisioningState (name (worker s)) p]) /\
            trace s1 = trace s0 ++ l1 /\
            (e1 = None -> Scaling (ps (worker s1)) = true)).
  { destruct (negb (Scaling (ps (worker s))) || negb (bool_decide (life (worker s) = Alive)))
      eqn:Htrans.
    - pose proof (updateProvisioningState_trace _ _ _ _ _ Hups) as Ht1. rewrite Hw0 in Ht1.
      eexists. split_and!; [right; eexists; reflexivity|exact Ht1|].
      intros ->. apply updateProvisioningState_None in Hups. rewrite Hups. reflexivity.
    - injection Hups as <- <-. exists []. rewrite app_nil_r.
      apply orb_false_iff in Htrans as (Hsc & _). apply negb_false_iff in Hsc.
      rewrite Hw0. auto. }
  destruct Hu as (l1 & Hl1 & Ht1 & Hsc). clear Hups.
  assert (Hpre : exists l, trace s1 = trace s ++ l /\
            forall x, In x l -> is_Scale x = false /\ is_UnitsToRemove x = false /\
                                is_DestroyUnits x = false).
  { exists (l0 ++ l1). split; [rewrite Ht1, Ht0, app_assoc; reflexivity|].
    intros x Hx. apply in_app_iff in Hx as [Hx|Hx].
    - destruct Hl0 as [-> | ->]; in_cases Hx; auto.
    - destruct Hl1 as [-> | (p & ->)]; in_cases Hx; auto. }
  clear l0 l1 Hl0 Ht0 Hl1 Ht1 Hw0 s0. destruct Hpre as (l & Ht1 & Hpre).
  assert (Hfin : forall l', trace s' = trace s1 ++ l' ->
            (forall n m, In (CScale n) l' -> ~ In (CUnitsToRemove m) l') ->
            (forall us, In (CDestroyUnits us) l' ->
               us <> [] /\ exists m, In (CUnitsToRemove m) l') ->
            (r = None -> (Scaling (ps (worker s')) = false <-> exists n, In (CScale n) l')) ->
            exists l, trace s' = trace s ++ l /\
              (forall n m, In (CScale n) l -> ~ In (CUnitsToRemove m) l) /\
              (forall us, In (CDestroyUnits us) l ->
                 us <> [] /\ exists m, In (CUnitsToRemove m) l) /\
              (r = None ->
               (Scaling (ps (worker s')) = false <-> exists n, In (CScale n) l))).
  { intros l' Ht' P1 P2 P3. exists (l ++ l'). split_and!.
    - rewrite Ht', Ht1, app_assoc. reflexivity.
    - intros n m Hn Hm. apply in_app_iff in Hn as [Hn|Hn]; [apply Hpre in Hn as (? & _);
        discriminate|].
      apply in_app_iff in Hm as [Hm|Hm]; [apply Hpre in Hm as (_ & ? & _); discriminate|].
      exact (P1 n m Hn Hm).
    - intros us Hu. apply in_app_iff in Hu as [Hu|Hu]; [apply Hpre in Hu as (_ & _ & ?);
        discriminate|].
      destruct (P2 us Hu) as (Hne & m & Hm). split; [exact Hne|].
      exists m. apply in_app_iff. auto.
    - intros Hr. rewrite (P3 Hr). split; intros (n & Hn); exists n.
      + apply in_app_iff. auto.
      + apply in_app_iff in Hn as [Hn|Hn]; [apply Hpre in Hn as (? & _); discriminate|].
        exact Hn. }
  clear Hpre Ht1 l.
  destruct e1 as [e1|].
  { injection Hrun as <- <-. apply (Hfin []).
    - rewrite app_nil_r. reflexivity.
    - intros n m [].
    - intros us [].
    - discriminate. }
  specialize (Hsc eq_refl).
  bstep Hrun ue s2 Hunits. destruct ue as [units e2].
  apply call_trace in Hunits as (Ht2 & Hw2 & _).
  destruct e2 as [e2|].
  { injection Hrun as <- <-. apply (Hfin [CUnits (name (worker s))]); auto.
    - intros n m Hn. in_cases Hn.
    - intros us Hn. in_cases Hn.
    - discriminate. }
  bstep Hrun a s2' Hget. injection Hget as <- <-.
  destruct (ScaleTarget (ps (worker s2)) >=? len units).
  - bstep Hrun e3 s3 Hscale. apply call_trace in Hscale as (Ht3 & Hw3 & _).
    destruct e3 as [e3|].
    { injection Hrun as <- <-.
      apply (Hfin [CUnits (name (worker s)); CScale (ScaleTarget (ps (worker s2)))]).
      - rewrite Ht3, Ht2, <- app_assoc. reflexivity.
      - intros n m Hn Hm. in_cases Hm.
      - intros us Hn. in_cases Hn.
      - discriminate. }
    pose proof (updateProvisioningState_trace _ _ _ _ _ Hrun) as Ht4.
    apply (Hfin [CUnits (name (worker s)); CScale (ScaleTarget (ps (worker s2)));
                 CSetProvisioningState (name (worker s3))
                   {| Scaling := false; ScaleTarget := 0 |}]).
    + rewrite Ht4, Ht3, Ht2, <- !app_assoc. reflexivity.
    + intros n m Hn Hm. in_cases Hm.
    + intros us Hn. in_cases Hn.
    + intros ->. apply updateProvisioningState_None in Hrun. rewrite Hrun. simpl.
      split; [|reflexivity]. intros _. eexists. simpl. eauto.
  - bstep Hrun ud s3 Hrem. destruct ud as [unitsToDestroy e3].
    apply call_trace in Hrem as (Ht3 & Hw3 & _).
    assert (Hno : forall t (L : list (list string)),
              (Scaling (ps (worker s1)) = false <->
               exists n, In (CScale n)
                 (CUnits (name (worker s)) :: CUnitsToRemove t :: map CDestroyUnits L))).
    { intros t L. rewrite Hsc. split; [discriminate|]. intros (n & Hn). exfalso.
      destruct Hn as [Hn|[Hn|Hn]]; try discriminate.
      apply in_map_iff in Hn as (x & Hx & _). discriminate. }
    destruct e3 as [e3|].
    { assert (s' = s3) as ->
        by (destruct (errors_Is e3 NotFound); injection Hrun as _ <-; reflexivity).
      apply (Hfin [CUnits (name (worker s)); CUnitsToRemove (ScaleTarget (ps (worker s2)))]).
      - rewrite Ht3, Ht2, <- app_assoc. reflexivity.
      - intros n m Hn. in_cases Hn.
      - intros us Hn. in_cases Hn.
      - intros _. rewrite Hw3, Hw2. apply (Hno _ []). }
    bstep Hrun e4 s4 Hdestroy.
    assert (s' = s4) as ->.
    { destruct e4 as [e4|]; [|destruct (negb _)]; injection Hrun as _ <-; reflexivity. }
    destruct (len unitsToDestroy >? 0) eqn:Hlen.
    + apply call_trace in Hdestroy as (Ht4 & Hw4 & _).
      apply (Hfin [CUnits (name (worker s)); CUnitsToRemove (ScaleTarget (ps (worker s2)));
                   CDestroyUnits unitsToDestroy]).
      * rewrite Ht4, Ht3, Ht2, <- !app_assoc. reflexivity.
      * intros n m Hn. in_cases Hn.
      * intros us Hn. in_cases Hn. split; [|eexists; simpl; eauto].
        intros ->. discriminate.
      * intros _. rewrite Hw4, Hw3, Hw2. apply (Hno _ [unitsToDestroy]).
    + injection Hdestroy as _ <-.
      apply (Hfin [CUnits (name (worker s)); CUnitsToRemove (ScaleTarget (ps (worker s2)))]).
      * rewrite Ht3, Ht2, <- app_assoc. reflexivity.
      * intros n m Hn. in_cases Hn.
      * intros us Hn. in_cases Hn.
      * intros _. rewrite Hw3, Hw2. apply (Hno _ []).
Qed.
Lemma collectDeadUnits_ok units acc (s s' : St) deadUnits :
  collectDeadUnits units acc s = ((deadUnits, None), s') ->
  trace s' = trace s ++ map (fun u => CLife (Tag u)) units.
Proof.
  revert acc s. induction units as [|u rest IH]; intros acc s Hrun.
  { injection Hrun as _ <-. rewrite app_nil_r. reflexivity. }
  cbn [collectDeadUnits] in Hrun. bstep Hrun lf s1 Hlife. destruct lf as [l [e|]].
  { discriminate. }
  apply call_trace in Hlife as (Ht & _). apply IH in Hrun.
  rewrite Hrun, Ht, <- app_assoc. reflexivity.
Qed.

Lemma removeDeadUnits_trace deadUnits (s s' : St) r :
  removeDeadUnits deadUnits s = (r, s') ->
  exists k, trace s' = trace s ++ map (fun u => CRemoveUnit (Tag u)) (take k deadUnits).
Proof.
  revert s. induction deadUnits as [|u rest IH]; intros s Hrun.
  { injection Hrun as _ <-. exists O. rewrite app_nil_r. reflexivity. }
  cbn [removeDeadUnits] in Hrun. bstep Hrun e s1 Hrem.
  apply call_trace in Hrem as (Ht & _).
  destruct (err_unless NotFound e).
  - injection Hrun as _ <-. exists 1%nat. rewrite Ht. destruct rest; reflexivity.
  - apply IH in Hrun as (k & Hk). exists (S k). rewrite Hk, Ht, <- app_assoc. reflexivity.
Qed.

(** X10 (reconcileDeadUnitScale): units are only removed from the
    controller when they are dead.  Where asking for a life does not change
    the answers of the facade, every unit the worker removes is one of the
    application's units whose life the facade has just reported as dead, and
    the worker removes units only while scaling and after it has told the
    substrate to scale to the target. *)
Theorem reconcileDeadUnitScale_removes_dead (s s' : St) r :
  (forall id w, snd (Life id w) = w) ->
  reconcileDeadUnitScale s = (r, s') ->
  exists l, trace s' = trace s ++ l /\
    forall id, In (CRemoveUnit id) l ->
      Scaling (ps (worker s)) = true /\
      In id (map Tag (fst (fst (Units (name (worker s)) (world s))))) /\
      fst (fst (Life id (snd (Units (name (worker s)) (world s))))) = Dead /\
      In (CLife id) l /\ In (CScale (ScaleTarget (ps (worker s)))) l.
Proof.
  intros Hread Hrun. unfold reconcileDeadUnitScale in Hrun.
  bstep Hrun a s0 Hget. injection Hget as <- <-.
  bstep Hrun ue s1 Hunits. destruct ue as [units e1].
  apply call_trace in Hunits as (Ht1 & Hw1 & Hop1). rewrite Hop1. simpl.
  destruct e1 as [e1|].
  { injection Hrun as _ <-. eexists. split; [exact Ht1|]. intros id Hin. in_cases Hin. }
  destruct (Scaling (ps (worker s))) eqn:Hsc; simpl in Hrun.
  2:{ injection Hrun as _ <-. eexists. split; [exact Ht1|]. intros id Hin. in_cases Hin. }
  bstep Hrun de s2 Hcollect. destruct de as [deadUnits e2].
  destruct e2 as [e2|].
  { injection Hrun as _ <-.
    apply collectDeadUnits_frame in Hcollect as (_ & k & Ht2).
    eexists. split; [rewrite Ht2, Ht1, <- app_assoc; reflexivity|].
    intros id Hin. apply in_app_iff in Hin as [Hin|Hin]; [in_cases Hin|].
    apply in_map_iff in Hin as (u & Hu & _). discriminate. }
  pose proof (collectDeadUnits_ok _ _ _ _ _ Hcollect) as Ht2.
  apply (collectDeadUnits_dead _ _ _ _ _ Hread) in Hcollect as (Hdead & Hw2).
  simpl in Hdead.
  assert (Hfin : forall l', trace s' = trace s2 ++ l' ->
            (forall id, In (CRemoveUnit id) l' ->
               In (CScale (ScaleTarget (ps (worker s)))) l' /\
               exists u, In u deadUnits /\ Tag u = id) ->
            exists l, trace s' = trace s ++ l /\
              forall id, In (CRemoveUnit id) l ->
                true = true /\ In id (map Tag units) /\
                fst (fst (Life id (world s1))) = Dead /\
                In (CLife id) l /\ In (CScale (ScaleTarget (ps (worker s)))) l).
  { intros l' Ht' Hl'.
    exists ((CUnits (name (worker s)) :: map (fun u => CLife (Tag u)) units) ++ l').
    split; [rewrite Ht', Ht2, Ht1, <- !app_assoc; reflexivity|].
    intros id Hin. apply in_app_iff in Hin as [Hin|Hin].
    { destruct Hin as [Hin|Hin]; [discriminate|].
      apply in_map_iff in Hin as (u & Hu & _). discriminate. }
    destruct (Hl' id Hin) as (Hscale & u & Hu & <-).
    rewrite Hdead in Hu. apply list_elem_of_In, list_elem_of_filter in Hu as (Hlife & Hu).
    apply list_elem_of_In in Hu.
    split_and!; auto.
    - apply in_map. exact Hu.
    - apply in_app_iff. left. right. apply in_map_iff. exists u. auto.
    - apply in_app_iff. auto. }
  clear Ht2 Ht1.
  destruct (negb (unitsToRemove (len units) (ScaleTarget (ps (worker s))) (len deadUnits)
                  =? len deadUnits)).
  { injection Hrun as _ <-. apply (Hfin []); [rewrite app_nil_r; reflexivity|]. intros id []. }
  bstep Hrun e3 s3 Hscale. apply call_trace in Hscale as (Ht3 & _).
  destruct (err_unless NotFound e3).
  { injection Hrun as _ <-. eapply Hfin; [exact Ht3|]. intros id Hin. in_cases Hin. }
  bstep Hrun se s4 Hstate. destruct se as [appState e4].
  apply call_trace in Hstate as (Ht4 & _).
  destruct (err_unless NotFound e4).
  { injection Hrun as _ <-. eapply Hfin; [rewrite Ht4, Ht3, <- app_assoc; reflexivity|].
    intros id Hin. in_cases Hin. }
  destruct (len (Replicas appState) >? ScaleTarget (ps (worker s))).
  { injection Hrun as _ <-. eapply Hfin; [rewrite Ht4, Ht3, <- app_assoc; reflexivity|].
    intros id Hin. in_cases Hin. }
  bstep Hrun e5 s5 Hremove. apply removeDeadUnits_trace in Hremove as (k & Ht5).
  assert (Hend : exists l6, trace s' = trace s5 ++ l6 /\
                            forall id, ~ In (CRemoveUnit id) l6).
  { destruct e5 as [e5|].
    - injection Hrun as _ <-. exists []. rewrite app_nil_r. auto.
    - apply updateProvisioningState_trace in Hrun. eexists. split; [exact Hrun|].
      intros id Hin. in_cases Hin. }
  destruct Hend as (l6 & Ht6 & Hl6).
  apply (Hfin (CScale (ScaleTarget (ps (worker s))) :: CState ::
               map (fun u => CRemoveUnit (Tag u)) (take k deadUnits) ++ l6)).
  { rewrite Ht6, Ht5, Ht4, Ht3, <- !app_assoc. reflexivity. }
  intros id Hin. split; [left; reflexivity|].
  destruct Hin as [Hin|[Hin|Hin]]; try discriminate.
  apply in_app_iff in Hin as [Hin|Hin]; [|destruct (Hl6 id Hin)].
  apply in_map_iff in Hin as (u & Hu & Hin). injection Hu as <-.
  exists u. split; [|reflexivity].
  apply list_elem_of_In. apply list_elem_of_In in Hin.
  exact (subseteq_take _ _ _ Hin).
Qed.
(** ** Further properties: the status report *)

Lemma unitUpdates_fold units last reported args :
  unitUpdates units last reported args =
    (foldl (fun m u => <[u_Id u := u_Status u]> m) reported (liveUnits units),
     args ++ map (unitParams last) (liveUnits units)).
Proof.
  revert reported args. induction units as [|u rest IH]; intros reported args.
  { simpl. rewrite app_nil_r. reflexivity. }
  cbn [unitUpdates]. unfold liveUnits. rewrite filter_cons.
  destruct (u_Dying u) eqn:Hd.
  - rewrite decide_False by discriminate. apply IH.
  - rewrite decide_True by reflexivity. rewrite IH. cbn [foldl map].
    rewrite <- app_assoc. cbn [app]. f_equal. f_equal. f_equal.
    unfold unitParams, sentStatus, DeepEqual_status.
    destruct (last !! u_Id u) as [st|] eqn:Hlast.
    + destruct (decide (st = u_Status u)) as [->|Hne].
      * rewrite !bool_decide_eq_true_2 by reflexivity. reflexivity.
      * rewrite (bool_decide_eq_false_2 (st = _)) by exact Hne.
        rewrite bool_decide_eq_false_2 by congruence. reflexivity.
    + rewrite bool_decide_eq_false_2 by discriminate. reflexivity.
Qed.

Lemma foldl_insert_lookup (l : list caas_Unit) (m : gmap string StatusInfo) id :
  foldl (fun m u => <[u_Id u := u_Status u]> m) m l !! id =
    match last (filter (fun u => u_Id u = id) l) with
    | Some u => Some (u_Status u)
    | None => m !! id
    end.
Proof.
  revert m. induction l as [|u rest IH]; intros m; [reflexivity|].
  cbn [foldl]. rewrite IH, filter_cons.
  destruct (decide (u_Id u = id)) as [<-|Hne].
  - rewrite last_cons. destruct (last (filter _ rest)); [reflexivity|].
    apply lookup_insert_eq.
  - destruct (last (filter _ rest)); [reflexivity|]. apply lookup_insert_ne. exact Hne.
Qed.
Lemma filter_none {A} (P : A -> Prop) `{forall x, Decision (P x)} (l : list A) :
  (forall x, x ∈ l -> ~ P x) -> filter P l = [].
Proof.
  induction l as [|x rest IH]; intros Hl; [reflexivity|].
  rewrite filter_cons, decide_False by (apply Hl; left).
  apply IH. intros y Hy. apply Hl. right. exact Hy.
Qed.

Lemma last_filter_id (l : list caas_Unit) u :
  NoDup (map u_Id l) -> u ∈ l -> last (filter (fun x => u_Id x = u_Id u) l) = Some u.
Proof.
  induction l as [|x rest IH]; intros Hnd Hin; [inversion Hin|].
  cbn [map] in Hnd. apply NoDup_cons in Hnd as (Hx & Hnd).
  rewrite filter_cons. apply elem_of_cons in Hin as [->|Hin].
  - rewrite decide_True by reflexivity.
    rewrite filter_none; [reflexivity|].
    intros y Hy Heq. apply Hx. rewrite <- Heq. apply list_elem_of_fmap_2. exact Hy.
  - rewrite decide_False; [exact (IH Hnd Hin)|].
    intros Heq. apply Hx. rewrite Heq. apply list_elem_of_fmap_2. exact Hin.
Qed.

(** X11 (updateState): what the loop over the substrate's units builds.
    Units marked as dying are left out; every other unit gets one update, in
    the order of the units, whose status is masked as unknown exactly when
    it equals the status last reported under the unit's id; and the statuses
    to remember are, for each id, the status of the last such unit. *)
Theorem unitUpdates_report units lastReported :
  snd (unitUpdates units lastReported ∅ []) = map (unitParams lastReported) (liveUnits units) /\
  (forall id, fst (unitUpdates units lastReported ∅ []) !! id =
              u_Status <$> last (filter (fun u => u_Id u = id) (liveUnits units))) /\
  (forall u, u ∈ liveUnits units <-> u ∈ units /\ u_Dying u = false).
Proof.
  rewrite unitUpdates_fold. simpl. split_and!; auto.
  - intros id. rewrite foldl_insert_lookup.
    destruct (last _); [reflexivity|]. apply lookup_empty.
  - intros u. unfold liveUnits. rewrite list_elem_of_filter. tauto.
Qed.

(** X12 (updateState): the report settles.  When no two reported units
    share an id and the units are unchanged since the statuses were
    remembered, the next report masks the status of every unit as unknown,
    with an empty message and no data, and remembers the same statuses. *)
Theorem unitUpdates_settles units lastReported :
  NoDup (map u_Id (liveUnits units)) ->
  let reported := fst (unitUpdates units lastReported ∅ []) in
  fst (unitUpdates units reported ∅ []) = reported /\
  length (snd (unitUpdates units reported ∅ [])) = length (liveUnits units) /\
  Forall (fun p => up_Status p = Unknown /\ up_Info p = EmptyString /\ up_Data p = nilData)
         (snd (unitUpdates units reported ∅ [])).
Proof.
  intros Hnd reported. subst reported. rewrite !unitUpdates_fold. simpl.
  split_and!; [reflexivity|apply length_map|].
  apply Forall_forall. intros p Hp. apply list_elem_of_fmap in Hp as (u & -> & Hu).
  unfold unitParams, sentStatus. rewrite bool_decide_eq_true_2; [auto|].
  rewrite foldl_insert_lookup, (last_filter_id _ _ Hnd Hu). reflexivity.
Qed.
(** The call that annotates the pod of an acknowledged unit. *)
Lemma annotateUnits_run appName units (s s' : St) r :
  annotateUnits appName units s = (r, s') ->
  exists k, (k <= length units)%nat /\
    trace s' = trace s ++
      map (fun u => CAnnotateUnit appName (ui_ProviderId u) (fst (ParseUnitTag (ui_UnitTag u))))
          (take k units) /\
    Forall (fun u => snd (ParseUnitTag (ui_UnitTag u)) = None) (take k units) /\
    (r = None -> k = length units).
Proof.
  revert s s' r. induction units as [|u rest IH]; intros s s' r Hrun.
  { injection Hrun as <- <-. exists O. rewrite app_nil_r. auto. }
  cbn [annotateUnits] in Hrun.
  destruct (ParseUnitTag (ui_UnitTag u)) as [tag [e|]] eqn:Hparse.
  { injection Hrun as <- <-. exists O. rewrite app_nil_r. split_and!; auto; [simpl; lia|].
    discriminate. }
  bstep Hrun e s1 Hann. apply call_trace in Hann as (Ht & _).
  assert (Hstep : forall t r, annotateUnits appName rest s1 = (r, t) ->
            exists k, (k <= length (u :: rest))%nat /\
              trace t = trace s ++
                map (fun u => CAnnotateUnit appName (ui_ProviderId u)
                                (fst (ParseUnitTag (ui_UnitTag u)))) (take k (u :: rest)) /\
              Forall (fun u => snd (ParseUnitTag (ui_UnitTag u)) = None) (take k (u :: rest)) /\
              (r = None -> k = length (u :: rest))).
  { intros t r0 Hrest. apply IH in Hrest as (k & Hk & Htr & Hall & Hr).
    exists (S k). cbn [take map length]. rewrite Hparse. simpl. split_and!.
    - lia.
    - rewrite Htr, Ht, <- app_assoc. reflexivity.
    - constructor; [rewrite Hparse; reflexivity|exact Hall].
    - intros Hn. rewrite (Hr Hn). reflexivity. }
  destruct e as [e|]; [destruct (errors_Is e NotFound)|]; try exact (Hstep _ _ Hrun).
  injection Hrun as <- <-. exists 1%nat. cbn [take map length]. rewrite Hparse. simpl.
  split_and!; [lia|rewrite Ht; destruct rest; reflexivity| |discriminate].
  destruct rest; repeat constructor; rewrite Hparse; reflexivity.
Qed.

(** X14 (updateState): the report to the controller, call by call.  A run
    of [updateState] asks the substrate for the service; an error other
    than not found ends the run.  With a service, it tells the unit facade
    the service's id and addresses, and an error other than not found ends
    the run.  It then lists the substrate's units and, with the units that
    call returned, sends one [UpdateUnits] for the application: the status
    of the service, and one update for each listed unit not marked as
    dying, unchanged statuses masked.  An error in the facade's answer ends
    the run unless it is forbidden or not found.  Otherwise the run
    annotates pods of the units acknowledged in that answer and of no
    other, in order; it returns the statuses of the listed units when the
    annotation succeeds and an empty map with the error when it fails, and
    leaves the worker as it was. *)
Theorem updateState_report lastReported (s s1 : St) svc e1 :
  call CService Service s = ((svc, e1), s1) ->
  match err_unless NotFound e1 with
  | Some e => updateState lastReported s = ((∅, Some (Trace e)), s1)
  | None =>
  forall e2 s2,
  match svc with
  | Some sv =>
      call (CUpdateApplicationService (serviceArg (name (worker s)) sv))
           (UpdateApplicationService (serviceArg (name (worker s)) sv)) s1 = (e2, s2)
  | None => e2 = None /\ s2 = s1
  end ->
  match err_unless NotFound e2 with
  | Some e => updateState lastReported s = ((∅, Some (Trace e)), s2)
  | None =>
  forall units e3 s3, call CAppUnits AppUnits s2 = ((units, e3), s3) ->
  match e3 with
  | Some e => updateState lastReported s = ((∅, Some (Trace e)), s3)
  | None =>
  let args := {| ua_ApplicationTag := String.append "application-" (name (worker s));
                 ua_Status := serviceStatus svc;
                 ua_Units := map (unitParams lastReported) (liveUnits units) |} in
  forall info e4 s4, call (CUpdateUnits args) (UpdateUnits args) s3 = ((info, e4), s4) ->
  (forall e, e4 = Some e -> errors_Is e Forbidden = false -> errors_Is e NotFound = false ->
             updateState lastReported s = ((∅, Some (Trace e)), s4)) /\
  (e4 = None \/
   (exists e, e4 = Some e /\ (errors_Is e Forbidden = true \/ errors_Is e NotFound = true)) ->
   forall r5 s5, annotateUnits (name (worker s)) (acknowledged info) s4 = (r5, s5) ->
   updateState lastReported s =
     ((match r5 with
       | Some _ => ∅
       | None => fst (unitUpdates units lastReported ∅ [])
       end, r5), s5) /\
   worker s5 = worker s /\
   exists k, (k <= length (acknowledged info))%nat /\
     (r5 = None -> k = length (acknowledged info)) /\
     trace s5 = trace s ++ [CService] ++
                match svc with
                | Some sv => [CUpdateApplicationService (serviceArg (name (worker s)) sv)]
                | None => []
                end ++ [CAppUnits; CUpdateUnits args] ++
                map (annotateCall (name (worker s))) (take k (acknowledged info)))
  end end end.
Proof.
  destruct (updateState lastReported s) as [[m r] s'] eqn:Hrun.
  intros Hsvc. unfold updateState in Hrun.
  bstep Hrun a s0 Hget. injection Hget as <- <-.
  bstep Hrun se s1' Hsvc'. rewrite Hsvc in Hsvc'. injection Hsvc' as <- <-.
  pose proof (call_trace _ _ _ _ _ Hsvc) as (Ht1 & Hw1 & _).
  destruct (err_unless NotFound e1) as [e|] eqn:He1; [symmetry; exact Hrun|].
  intros e2 s2 Hsvc2.
  bstep Hrun ae s2' Hstep. destruct ae as [appStatus e2'].
  assert (Hs2 : appStatus = serviceStatus svc /\ e2' = err_unless NotFound e2 /\ s2' = s2 /\
                worker s2 = worker s /\
                trace s2 = trace s ++ [CService] ++
                  match svc with
                  | Some sv => [CUpdateApplicationService (serviceArg (name (worker s)) sv)]
                  | None => []
                  end).
  { destruct svc as [sv|].
    - bstep Hstep e s2'' Hcall. unfold serviceArg in Hsvc2. rewrite Hsvc2 in Hcall.
      injection Hcall as <- <-. injection Hstep as <- <- <-.
      apply call_trace in Hsvc2 as (Ht2 & Hw2 & _).
      split_and!; try reflexivity; [congruence|].
      rewrite Ht2, Ht1, <- app_assoc. reflexivity.
    - destruct Hsvc2 as [-> ->]. injection Hstep as <- <- <-.
      split_and!; try reflexivity; [exact Hw1|]. rewrite Ht1. reflexivity. }
  destruct Hs2 as (-> & -> & -> & Hw2 & Ht2). clear Hstep.
  destruct (err_unless NotFound e2) as [e|] eqn:He2; [symmetry; exact Hrun|].
  intros units e3 s3 Hunits.
  bstep Hrun ue s3' Hunits'. rewrite Hunits in Hunits'. injection Hunits' as <- <-.
  pose proof (call_trace _ _ _ _ _ Hunits) as (Ht3 & Hw3 & _).
  destruct e3 as [e|]; [symmetry; exact Hrun|].
  rewrite unitUpdates_fold in Hrun. cbn [app] in Hrun.
  intros args info e4 s4 Hupd.
  bstep Hrun ie s4' Hupd'. unfold args in Hupd. rewrite Hupd in Hupd'.
  injection Hupd' as <- <-.
  pose proof (call_trace _ _ _ _ _ Hupd) as (Ht4 & Hw4 & _).
  split.
  - intros e -> Hf Hn. unfold err_unless in Hrun. rewrite Hf in Hrun. rewrite Hn in Hrun.
    symmetry; exact Hrun.
  - intros Hok.
    assert (Herr : err_unless NotFound (err_unless Forbidden e4) = None).
    { destruct Hok as [->|(e & -> & [Hk|Hk])]; [reflexivity| |]; unfold err_unless.
      - rewrite Hk. reflexivity.
      - destruct (errors_Is e Forbidden); [reflexivity|]. rewrite Hk. reflexivity. }
    rewrite Herr in Hrun.
    intros r5 s5 Hann.
    bstep Hrun r5' s5' Hann'.
    assert (Hsame : r5' = r5 /\ s5' = s5).
    { destruct info as [i|]; simpl in Hann; rewrite Hann in Hann';
        injection Hann' as <- <-; auto. }
    destruct Hsame as [-> ->]. clear Hann'.
    pose proof (kw_annotateUnits _ _ _ _ _ Hann) as Hw5.
    apply annotateUnits_run in Hann as (k & Hk & Htr & _ & Hall).
    split_and!.
    + rewrite unitUpdates_fold. destruct r5; symmetry; exact Hrun.
    + congruence.
    + exists k. split_and!; auto.
      rewrite Htr, Ht4, Ht3, Ht2, <- !app_assoc. reflexivity.
Qed.
(** ** Further properties: [alive] *)

Lemma buildContainers_valid l images acc :
  snd (buildContainers l images acc) = None <->
  Forall (fun kv => containerConfig images (fst kv) (snd kv) <> None) l.
Proof.
  revert acc. induction l as [|[k v] rest IH]; intros acc.
  { simpl. split; auto. }
  cbn [buildContainers]. rewrite Forall_cons. unfold containerConfig at 1. simpl.
  destruct (bool_decide (Resource v = EmptyString)).
  { simpl. split; [discriminate|]. intros (Hv & _). destruct (Hv eq_refl). }
  destruct (images !! Resource v) as [image|].
  - rewrite IH. simpl. split; [intros Hr; split; [discriminate|exact Hr]|tauto].
  - simpl. split; [discriminate|]. intros (Hv & _). destruct (Hv eq_refl).
Qed.

Lemma buildContainers_kind l images acc e :
  snd (buildContainers l images acc) = Some e -> err_kind e = NotValid \/ err_kind e = NotFound.
Proof.
  revert acc. induction l as [|[k v] rest IH]; intros acc; [discriminate|].
  cbn [buildContainers].
  destruct (bool_decide (Resource v = EmptyString)).
  { simpl. intros [= <-]. auto. }
  destruct (images !! Resource v) as [image|].
  - apply IH.
  - simpl. intros [= <-]. auto.
Qed.

Lemma buildContainers_lookup l images acc :
  NoDup l.*1 ->
  snd (buildContainers l images acc) = None ->
  forall k, fst (buildContainers l images acc) !! k =
    match (list_to_map l : gmap string charm_Container) !! k with
    | Some v => containerConfig images k v
    | None => acc !! k
    end.
Proof.
  revert acc. induction l as [|[k0 v0] rest IH]; intros acc Hnd Hok k.
  { simpl. rewrite lookup_empty. reflexivity. }
  cbn [fmap list_fmap fst] in Hnd. apply NoDup_cons in Hnd as (Hk0 & Hnd).
  cbn [buildContainers] in *. cbn [list_to_map foldr].
  destruct (bool_decide (Resource v0 = EmptyString)) eqn:Hres; [discriminate|].
  destruct (images !! Resource v0) as [image|] eqn:Himg; [|discriminate].
  rewrite (IH _ Hnd Hok). simpl.
  destruct (decide (k = k0)) as [->|Hne].
  - rewrite (not_elem_of_list_to_map_1 _ _ Hk0), !lookup_insert_eq.
    unfold containerConfig. rewrite Hres, Himg. reflexivity.
  - rewrite !lookup_insert_ne by congruence. reflexivity.
Qed.

(** X15 (alive): the containers of the application config.  In whatever
    order the charm's containers are visited, building them succeeds exactly
    when every container names a resource for which an image is known; the
    result then has, under each container's name, its image and its mounts,
    and nothing else.  A failure is a not-valid error (no resource named)
    or a not-found error (no image for the resource). *)
Theorem buildContainers_spec (cs : gmap string charm_Container) images l :
  l ≡ₚ map_to_list cs ->
  (snd (buildContainers l images ∅) = None <->
   forall k v, cs !! k = Some v -> containerConfig images k v <> None) /\
  (snd (buildContainers l images ∅) = None ->
   forall k, fst (buildContainers l images ∅) !! k = cs !! k ≫= containerConfig images k) /\
  (forall e, snd (buildContainers l images ∅) = Some e ->
   err_kind e = NotValid \/ err_kind e = NotFound).
Proof.
  intros Hperm. split_and!.
  - rewrite buildContainers_valid, Forall_forall. split.
    + intros Hall k v Hkv. apply (Hall (k, v)). rewrite Hperm.
      apply elem_of_map_to_list. exact Hkv.
    + intros Hall [k v] Hin. rewrite Hperm in Hin. apply elem_of_map_to_list in Hin.
      exact (Hall k v Hin).
  - intros Hok k.
    assert (Hnd : NoDup l.*1) by (rewrite Hperm; apply NoDup_fst_map_to_list).
    rewrite (buildContainers_lookup _ _ _ Hnd Hok).
    assert (Hmap : (list_to_map l : gmap string charm_Container) = cs).
    { rewrite <- (list_to_map_to_list cs). apply list_to_map_proper; [exact Hnd|exact Hperm]. }
    rewrite Hmap. destruct (cs !! k); [reflexivity|apply lookup_empty].
  - intros e. apply buildContainers_kind.
Qed.
Lemma only_aliveConfig_reads : makes_only aliveConfig_calls aliveConfig.
Proof.
  unfold aliveConfig, get. only_walk.
  all: eapply only_weaken; [|apply only_waitForTerminated].
  all: intros []; simpl; congruence.
Qed.

Lemma aliveConfig_secret (s s' : St) config :
  aliveConfig s = (inl config, s') ->
  IntroductionSecret config = password (worker s) /\ Containers config <> None.
Proof.
  intros Hrun. unfold aliveConfig in Hrun.
  bstep Hrun a s0 Hget. injection Hget as <- <-.
  bstep Hrun x1 s1 Hinfo. destruct x1 as [provisionInfo [e|]]; [discriminate|].
  destruct (CharmURL provisionInfo) as [url|]; [|discriminate].
  bstep Hrun x2 s2 Hcharm. destruct x2 as [charmInfo [e|]]; [discriminate|].
  bstep Hrun x3 s3 Hexists. destruct x3 as [appState [e|]]; [discriminate|].
  bstep Hrun x4 s4 Hwait. destruct x4 as [e|]; [discriminate|].
  bstep Hrun x5 s5 Himages. destruct x5 as [images [e|]]; [discriminate|].
  destruct (ImageForBase _ _ _ _) as [charmBaseImage [e|]]; [discriminate|].
  destruct (buildContainers _ _ _) as [containers [e|]]; [discriminate|].
  injection Hrun as <- <-. simpl. split; [reflexivity|discriminate].
Qed.

(** X16 (alive): the application is ensured at most once.  [alive] makes at
    most one call that changes the substrate, an [Ensure]; the config it
    ensures differs from the one last applied and carries the worker's
    password as its introduction secret.  The worker's record of the config
    last applied changes only to a config that has just been ensured
    without error; name, password, life and provisioning state stay. *)
Theorem alive_applies_once (s s' : St) r :
  alive s = (r, s') ->
  name (worker s') = name (worker s) /\ password (worker s') = password (worker s) /\
  life (worker s') = life (worker s) /\ ps (worker s') = ps (worker s) /\
  exists l, trace s' = trace s ++ l /\
    (length (filter (fun c => is_substrate_mutation c = true) l) <= 1)%nat /\
    (forall cfg, In (CEnsure cfg) l ->
       cfg <> lastApplied (worker s) /\ IntroductionSecret cfg = password (worker s) /\
       (r = None -> lastApplied (worker s') = cfg) /\
       (r <> None -> lastApplied (worker s') = lastApplied (worker s))) /\
    (lastApplied (worker s') <> lastApplied (worker s) ->
     r = None /\ In (CEnsure (lastApplied (worker s'))) l).
Proof.
  intros Hrun. unfold alive in Hrun.
  bstep Hrun c s1 Hcfg.
  destruct (only_aliveConfig_reads _ _ _ Hcfg) as (l1 & Ht1 & Hl1).
  pose proof (kw_aliveConfig _ _ _ Hcfg) as Hw1.
  assert (Hreads : filter (fun c => is_substrate_mutation c = true) l1 = [] /\
                   forall cfg, ~ In (CEnsure cfg) l1).
  { rewrite List.Forall_forall in Hl1. split.
    - apply filter_none. intros x Hx. apply list_elem_of_In, Hl1 in Hx.
      destruct x; simpl in *; congruence.
    - intros cfg Hin. apply Hl1 in Hin. discriminate. }
  destruct Hreads as (Hf1 & Hno1).
  destruct c as [config|e].
  2:{ injection Hrun as <- <-. rewrite Hw1. split_and!; auto.
      exists l1. split_and!; auto.
      - rewrite Hf1. simpl. lia.
      - intros cfg Hin. destruct (Hno1 cfg Hin).
      - intros Hne. destruct Hne. reflexivity. }
  apply aliveConfig_secret in Hcfg as (Hsecret & _).
  bstep Hrun a s1' Hget. injection Hget as <- <-.
  unfold DeepEqual_config in Hrun. rewrite Hw1 in Hrun.
  destruct (decide (config = lastApplied (worker s))) as [Heq|Hne].
  { rewrite bool_decide_eq_true_2 in Hrun by exact Heq. injection Hrun as <- <-.
    rewrite Hw1. split_and!; auto.
    exists l1. split_and!; auto.
    - rewrite Hf1. simpl. lia.
    - intros cfg Hin. destruct (Hno1 cfg Hin).
    - intros Hne. destruct Hne. reflexivity. }
  rewrite bool_decide_eq_false_2 in Hrun by exact Hne. simpl in Hrun.
  bstep Hrun e s2 Hens. apply call_trace in Hens as (Ht2 & Hw2 & _).
  destruct e as [e|].
  - bstep Hrun u s3 Hset.
    pose proof (kw_setApplicationStatus _ _ _ _ _ _ Hset) as Hw3.
    unfold setApplicationStatus in Hset. bstep Hset a s2' Hget. injection Hget as <- <-.
    apply call_trace in Hset as (Ht3 & _). injection Hrun as <- <-.
    rewrite Hw3, Hw2, Hw1. split_and!; auto.
    eexists. split; [rewrite Ht3, Ht2, Ht1, <- !app_assoc; reflexivity|].
    split_and!.
    + rewrite filter_app, Hf1. simpl. lia.
    + intros cfg Hin. apply in_app_iff in Hin as [Hin|Hin]; [destruct (Hno1 cfg Hin)|].
      in_cases Hin. split_and!; auto. discriminate.
    + intros Hx. destruct Hx. reflexivity.
  - bstep Hrun a s2' Hget. injection Hget as <- <-.
    bstep Hrun u s3 Hput. injection Hput as _ <-. injection Hrun as <- <-. simpl.
    rewrite Hw2, Hw1. split_and!; auto.
    eexists. split; [rewrite Ht2, Ht1, <- !app_assoc; reflexivity|].
    split_and!.
    + rewrite filter_app, Hf1. simpl. lia.
    + intros cfg Hin. apply in_app_iff in Hin as [Hin|Hin]; [destruct (Hno1 cfg Hin)|].
      in_cases Hin. split_and!; auto. congruence.
    + intros _. split; [reflexivity|]. apply in_app_iff. right. left. reflexivity.
Qed.

End WorkerFacts.

(** * The properties on concrete runs *)

Lemma reconcileDeadUnitScale_not_scaling_witness :
  fst (reconcileDeadUnitScale sc_not_scaling) = None /\
  trace (snd (reconcileDeadUnitScale sc_not_scaling)) = [CUnits "gitlab"].
Proof.
  destruct (reconcileDeadUnitScale_not_scaling sc_not_scaling) as (_ & Htr & _ & Hnil).
  - reflexivity.
  - split; [apply Hnil; reflexivity | exact Htr].
Defined.



Lemma reconcileDeadUnitScale_NotFound_suppressed_witness :
  fst (reconcileDeadUnitScale sc_gone) = None /\
  ps (worker (snd (reconcileDeadUnitScale sc_gone))) =
    {| Scaling := false; ScaleTarget := 0 |}.
Proof.
  pose (r1 := call (CUnits "gitlab") (Units "gitlab") sc_gone).
  pose (r2 := collectDeadUnits (fst (fst r1)) [] (snd r1)).
  pose (r3 := call (CScale 2) (Scale 2) (snd r2)).
  pose (r4 := call CState State (snd r3)).
  pose (r5 := call (CRemoveUnit "gitlab/2") (RemoveUnit "gitlab/2") (snd r4)).
  destruct (reconcileDeadUnitScale_NotFound_suppressed sc_gone (snd r1) (snd r2) (snd r3)
              (snd r4) (snd r5) (fst (fst r1)) (fst (fst r2))
              (ErrNew NotFound "statefulset gitlab not found")
              (fst (fst r4)) (snd (fst r4))) as (_ & _ & Hps);
    [reflexivity | reflexivity | reflexivity | reflexivity | reflexivity | reflexivity
    | reflexivity | reflexivity | vm_compute; discriminate | |].
  - apply (removals_cons _ _ _ (fst r5) (snd r5) (snd r5));
      [reflexivity | reflexivity | apply removals_nil].
  - exact (Hps (world (snd r5)) eq_refl).
Defined.




Lemma alive_ensures_on_change_witness :
  fst (alive sc_one_dead) = None /\
  Some (lastApplied (worker (snd (alive sc_one_dead)))) =
    match fst (aliveConfig sc_one_dead) with inl c => Some c | inr _ => None end.
Proof.
  pose (rc := aliveConfig sc_one_dead).
  pose (config := match fst rc with inl c => c | inr _ => zeroConfig end).
  destruct (alive_ensures_on_change sc_one_dead (snd rc) config) as (_ & _ & _ & Hne);
    [vm_compute; reflexivity|].
  pose (re := call (CEnsure config) (Ensure config) (snd rc)).
  pose proof (Hne ltac:(vm_compute; discriminate) None (snd re) ltac:(vm_compute; reflexivity))
    as Hrun.
  cbv beta iota in Hrun. rewrite Hrun. split; [reflexivity|]. vm_compute. reflexivity.
Defined.

Lemma dead_sequence_witness :
  (fst (dead sc_dead) = None /\
   trace (snd (dead sc_dead)) =
     trace (snd (dying sc_dead)) ++
            [CDelete; CExists; CAfter (3 * Second); CExists; CAfter (3 * Second); CExists;
             CClearApplicationResources "gitlab"; CService; CAppUnits;
             CUpdateUnits {| ua_ApplicationTag := "application-gitlab";
                             ua_Status := {| es_Status := EmptyString; es_Info := EmptyString;
                                             es_Data := tt |};
                             ua_Units := [] |}]) /\
  (fst (dead sc_stuck) =
     Some (Trace (Trace (Annotate tryAgain "attempt count exceeded"))) /\
   trace (snd (dead sc_stuck)) =
     trace (snd (dying sc_stuck)) ++ [CDelete] ++ poll_calls 59 ++ [CExists] /\
   Now (world (snd (dead sc_stuck))) = 59 * (3 * Second)).
Proof.
  split.
  - pose (r1 := dying sc_dead).
    pose (r2 := call CDelete Delete (snd r1)).
    pose (r3 := waitForTerminated (snd r2)).
    pose (r4 := call (CClearApplicationResources "gitlab") (ClearApplicationResources "gitlab")
                  (snd r3)).
    pose (r5 := updateState ∅ (snd r4)).
    assert (E1 : dying sc_dead = (None, snd r1)) by (vm_compute; reflexivity).
    assert (E2 : call CDelete Delete (snd r1) = (None, snd r2)) by (vm_compute; reflexivity).
    assert (E3 : waitForTerminated (snd r2) = (None, snd r3)) by (vm_compute; reflexivity).
    assert (E4 : call (CClearApplicationResources (name (worker sc_dead)))
                   (ClearApplicationResources (name (worker sc_dead))) (snd r3)
                 = (None, snd r4)) by (vm_compute; reflexivity).
    assert (E5 : updateState ∅ (snd r4) = (fst (fst r5), None, snd r5))
      by (vm_compute; reflexivity).
    pose proof (dead_sequence sc_dead (snd r1) None E1) as H1.
    pose proof (H1 None (snd r2) E2) as H2.
    destruct (H2 None (snd r3) E3) as (_ & H3).
    pose proof (H3 None (snd r4) E4) as H4.
    pose proof (H4 (fst (fst r5)) None (snd r5) E5) as H5.
    rewrite H5. split; [reflexivity|]. vm_compute. reflexivity.
  - pose (r1 := dying sc_stuck).
    pose (r2 := call CDelete Delete (snd r1)).
    pose (r3 := waitForTerminated (snd r2)).
    pose (e := Trace (Annotate tryAgain "attempt count exceeded")).
    assert (E1 : dying sc_stuck = (None, snd r1)) by (vm_compute; reflexivity).
    assert (E2 : call CDelete Delete (snd r1) = (None, snd r2)) by (vm_compute; reflexivity).
    assert (E3 : waitForTerminated (snd r2) = (Some e, snd r3)) by (vm_compute; reflexivity).
    pose proof (dead_sequence sc_stuck (snd r1) None E1) as H1.
    pose proof (H1 None (snd r2) E2) as H2.
    destruct (H2 (Some e) (snd r3) E3) as (_ & H3).
    rewrite H3. split_and!; [reflexivity|vm_compute; reflexivity|vm_compute; reflexivity].
Defined.

Lemma attempt_counters_witness :
  scaleTries (fst (fst (fst (selectCase scaleChan_fires (sc_vars_scale 3) sc_scale_not_found))))
  = 4 /\
  (exists err, snd (fst (selectCase scaleChan_fires (sc_vars_scale 20) sc_scale_not_found))
               = Return (Some err)).
Proof.
  pose (r := ensureScale sc_scale_not_found).
  pose (e := ErrWrap ("fetching application " ++ quote "gitlab" ++ " desired scale")
               (ErrNew NotFound "application gitlab not found")).
  split.
  - destruct (attempt_counters (sc_vars_scale 3) sc_scale_not_found) as (Hscale & _).
    rewrite (Hscale e (snd r) ltac:(vm_compute; reflexivity) eq_refl
               ltac:(vm_compute; discriminate)).
    reflexivity.
  - destruct (attempt_counters (sc_vars_scale 20) sc_scale_not_found) as (Hscale & _).
    rewrite (Hscale e (snd r) ltac:(vm_compute; reflexivity) eq_refl
               ltac:(vm_compute; discriminate)).
    eexists. reflexivity.
Defined.

Lemma tryAgain_rearms_witness :
  scaleChan (fst (fst (fst (selectCase scaleChan_fires (sc_vars_scale 0) sc_stale_target))))
  = Some 3000000000 /\
  snd (fst (selectCase scaleChan_fires (sc_vars_scale 0) sc_stale_target)) = Continue.
Proof.
  pose (r := ensureScale sc_stale_target).
  destruct (tryAgain_rearms (sc_vars_scale 0) sc_stale_target) as (_ & Hscale & _).
  rewrite (Hscale tryAgain (snd r) ltac:(vm_compute; reflexivity) eq_refl).
  split; reflexivity.
Defined.

(** C2, as stated, fails for [ensureTrust]: when that decision returns a
    [tryAgain] error the trust timer is not re-armed and the loop returns the
    error, which ends the worker. *)

Lemma trust_tryAgain_counterexample :
  exists e,
    fst (ensureTrust sc_trust_again) = Some e /\
    errors_Is e TryAgain = true /\
    ready trustChan_fires sc_vars_trust = true /\
    snd (fst (loop_iteration trustChan_fires sc_vars_trust sc_trust_again))
    = Return (Some (Trace e)) /\
    trustChan (fst (fst (loop_iteration trustChan_fires sc_vars_trust sc_trust_again)))
    <> Some retryDelay.
Proof.
  eexists. split; [vm_compute; reflexivity|].
  repeat split; try (vm_compute; reflexivity). vm_compute. discriminate.
Qed.

(** The scale-down scenario: alive, desired scale 2, three units of which
    the last is dead.  [ensureScale] moves to scaling toward 2 and destroys
    the surplus unit; [reconcileDeadUnitScale] then finds the one dead unit
    that was to go, scales the substrate to 2, removes the unit and clears
    the flag. *)
Example scale_down_with_dead_unit :
  let s1 := snd (ensureScale sc_not_scaling) in
  let s2 := snd (reconcileDeadUnitScale s1) in
  fst (ensureScale sc_not_scaling) = None /\
  ps (worker s1) = {| Scaling := true; ScaleTarget := 2 |} /\
  fst (reconcileDeadUnitScale s1) = None /\
  ps (worker s2) = {| Scaling := false; ScaleTarget := 0 |} /\
  trace s2 =
    [CApplicationScale "gitlab";
     CSetProvisioningState "gitlab" {| Scaling := true; ScaleTarget := 2 |};
     CUnits "gitlab"; CUnitsToRemove 2; CDestroyUnits ["gitlab/2"];
     CUnits "gitlab"; CLife "gitlab/0"; CLife "gitlab/1"; CLife "gitlab/2";
     CScale 2; CState; CRemoveUnit "gitlab/2";
     CSetProvisioningState "gitlab" {| Scaling := false; ScaleTarget := 0 |}].
Proof. repeat split; vm_compute; reflexivity. Qed.

(** The scale-up scenario: [Scale(3)] is called once and the provisioning
    state is cleared. *)
Example scale_up :
  trace (snd (ensureScale sc_scale_up)) =
    [CApplicationScale "gitlab";
     CSetProvisioningState "gitlab" {| Scaling := true; ScaleTarget := 3 |};
     CUnits "gitlab"; CScale 3;
     CSetProvisioningState "gitlab" {| Scaling := false; ScaleTarget := 0 |}].
Proof. vm_compute. reflexivity. Qed.

Lemma loop_iteration_lifecycle_witness :
  appLife (fst (fst (loop_iteration stateAppChangedChan_fires (loopVars_init Alive) sc_dead)))
    = Dead /\
  life (worker (snd (loop_iteration stateAppChangedChan_fires (loopVars_init Alive) sc_dead)))
    = Dead.
Proof.
  pose (x := loop_iteration stateAppChangedChan_fires (loopVars_init Alive) sc_dead).
  assert (E : loop_iteration stateAppChangedChan_fires (loopVars_init Alive) sc_dead
              = (fst (fst x), snd (fst x), snd x)) by (vm_compute; reflexivity).
  destruct (loop_iteration_lifecycle _ _ _ _ _ _ E) as (l & Htr & Hdel & _).
  assert (Hin : In CDelete l).
  { assert (Hl : l = trace (snd x)) by (rewrite Htr; reflexivity).
    rewrite Hl. vm_compute. repeat (first [left; reflexivity | right]). }
  destruct (Hdel CDelete Hin eq_refl) as (_ & Ha & Hl). split; assumption.
Defined.
Lemma loop_run_clean_exit_witness :
  In CDelete (trace (snd (loop_run [heartbeat; stateAppChangedChan_fires]
                            (loopVars_init Alive) sc_dead))) /\
  In (CClearApplicationResources "gitlab")
     (trace (snd (loop_run [heartbeat; stateAppChangedChan_fires]
                    (loopVars_init Alive) sc_dead))).
Proof.
  pose (x := loop_run [heartbeat; stateAppChangedChan_fires] (loopVars_init Alive) sc_dead).
  assert (E : loop_run [heartbeat; stateAppChangedChan_fires] (loopVars_init Alive) sc_dead
              = (fst (fst x), Return None, snd x)) by (vm_compute; reflexivity).
  destruct (loop_run_clean_exit [heartbeat; stateAppChangedChan_fires] (loopVars_init Alive)
              sc_dead (snd x) (fst (fst x)) eq_refl E) as (_ & _ & l & Htr & Hdel & Hclr).
  assert (Hl : l = trace (snd x)) by (rewrite Htr; reflexivity).
  unfold x in Hl.
  rewrite Hl in Hdel, Hclr. split; assumption.
Defined.

Lemma loop_run_identity_witness :
  life (worker (snd (loop_run [scaleChan_fires; heartbeat] (sc_vars_scale 0) sc_one_dead)))
    = Alive /\
  lastApplied (worker (snd (loop_run [scaleChan_fires; heartbeat] (sc_vars_scale 0)
                              sc_one_dead))) = zeroConfig.
Proof.
  pose (x := loop_run [scaleChan_fires; heartbeat] (sc_vars_scale 0) sc_one_dead).
  assert (E : loop_run [scaleChan_fires; heartbeat] (sc_vars_scale 0) sc_one_dead
              = (fst (fst x), snd (fst x), snd x)) by (vm_compute; reflexivity).
  destruct (loop_run_identity _ _ _ _ _ _ E) as (_ & _ & Hkeep).
  destruct Hkeep as (Hli & Hla & _).
  - intros Hin. simpl in Hin. destruct Hin as [Hin|[Hin|[]]]; discriminate.
  - split; assumption.
Defined.

Lemma handleChange_life_witness :
  appLife (fst (fst (handleChange (loopVars_init Alive) sc_removed))) = Dead /\
  life (worker (snd (handleChange (loopVars_init Alive) sc_removed))) = Dead /\
  done (fst (fst (handleChange (loopVars_init Alive) sc_removed))) = true.
Proof.
  pose (x := handleChange (loopVars_init Alive) sc_removed).
  assert (E : handleChange (loopVars_init Alive) sc_removed = (fst (fst x), None, snd x))
    by (vm_compute; reflexivity).
  pose proof (handleChange_life _ _ _ _ _ E) as Hl. hnf in Hl.
  destruct Hl as (Ha & Hli & Hd). destruct (Hd eq_refl) as (Hdone & _).
  split_and!; assumption.
Defined.

Lemma handleChange_resumes_scaling_witness :
  scaleChan (fst (fst (handleChange (loopVars_init Alive) sc_one_dead))) = Some 0 /\
  reconcileDeadChan (fst (fst (handleChange (loopVars_init Alive) sc_one_dead))) = Some 0 /\
  initial (fst (fst (handleChange (loopVars_init Alive) sc_one_dead))) = false.
Proof.
  pose (x := handleChange (loopVars_init Alive) sc_one_dead).
  assert (E : handleChange (loopVars_init Alive) sc_one_dead
              = (fst (fst x), snd (fst x), snd x)) by (vm_compute; reflexivity).
  destruct (handleChange_resumes_scaling (loopVars_init Alive) sc_one_dead (snd x)
              (fst (fst x)) (snd (fst x)) E eq_refl) as ((Hi & Hs & Hr) & _).
  split_and!; assumption.
Defined.

Lemma timer_rearmed_or_cleared_witness :
  scaleChan (fst (fst (loop_iteration scaleChan_fires (sc_vars_scale 0) sc_stale_target)))
    = Some 3000000000 /\
  trustChan (fst (fst (loop_iteration scaleChan_fires (sc_vars_scale 0) sc_stale_target)))
    = None.
Proof.
  pose (x := loop_iteration scaleChan_fires (sc_vars_scale 0) sc_stale_target).
  assert (E : loop_iteration scaleChan_fires (sc_vars_scale 0) sc_stale_target
              = (fst (fst x), Continue, snd x)) by (vm_compute; reflexivity).
  destruct (timer_rearmed_or_cleared scaleChan_fires (sc_vars_scale 0) sc_stale_target
              (snd x) (fst (fst x)) eq_refl E) as (Hown & Hothers).
  split.
  - destruct Hown as [Hn|Hs]; [|exact Hs]. exfalso. revert Hn. vm_compute. discriminate.
  - exact (Hothers ltac:(discriminate) trustChan_fires ltac:(discriminate)).
Defined.


Lemma ensureScale_dying_to_zero_witness :
  exists l, trace (snd (ensureScale sc_dead)) =
              CSetProvisioningState "gitlab" {| Scaling := true; ScaleTarget := 0 |} :: l /\
            Forall (fun c => scales_to_zero c = true) l.
Proof.
  pose (x := ensureScale sc_dead).
  assert (E : ensureScale sc_dead = (fst x, snd x)) by (vm_compute; reflexivity).
  exact (ensureScale_dying_to_zero sc_dead (snd x) (fst x) (or_intror eq_refl) E).
Defined.

Lemma ensureScale_paths_witness :
  fst (ensureScale sc_one_dead) = None /\
  Scaling (ps (worker (snd (ensureScale sc_one_dead)))) = true /\
  ~ In (CScale 2) (trace (snd (ensureScale sc_one_dead))).
Proof.
  pose (x := ensureScale sc_one_dead).
  assert (E : ensureScale sc_one_dead = (None, snd x)) by (vm_compute; reflexivity).
  destruct (ensureScale_paths _ _ _ E) as (_ & l & Htr & Hone & _ & _).
  assert (Hl : l = trace (snd x)) by (rewrite Htr; reflexivity).
  unfold x in Hl.
  split_and!; [reflexivity|reflexivity|].
  intros Hin. rewrite <- Hl in Hin. apply (Hone 2 2 Hin).
  rewrite Hl. vm_compute. repeat (first [left; reflexivity | right]).
Defined.

Lemma reconcileDeadUnitScale_removes_dead_witness :
  In (CRemoveUnit "gitlab/2") (trace (snd (reconcileDeadUnitScale sc_one_dead))) /\
  fst (fst (Life "gitlab/2" (world sc_one_dead))) = Dead.
Proof.
  pose (x := reconcileDeadUnitScale sc_one_dead).
  assert (E : reconcileDeadUnitScale sc_one_dead = (fst x, snd x)) by (vm_compute; reflexivity).
  assert (Hread : forall id (w : Scripted), snd (Life id w) = w) by (intros; reflexivity).
  destruct (reconcileDeadUnitScale_removes_dead sc_one_dead (snd x) (fst x) Hread E)
    as (l & Htr & Hrem).
  assert (Hl : l = trace (snd x)) by (rewrite Htr; reflexivity).
  unfold x in Hl.
  assert (Hin : In (CRemoveUnit "gitlab/2") l).
  { rewrite Hl. vm_compute. repeat (first [left; reflexivity | right]). }
  destruct (Hrem _ Hin) as (_ & _ & Hdead & _).
  split; [rewrite <- Hl; exact Hin|exact Hdead].
Defined.

Lemma unitUpdates_settles_witness :
  Forall (fun p => up_Status p = Unknown /\ up_Info p = EmptyString /\ up_Data p = nilData)
         (snd (unitUpdates sc_pods (fst (unitUpdates sc_pods ∅ ∅ [])) ∅ [])) /\
  length (snd (unitUpdates sc_pods (fst (unitUpdates sc_pods ∅ ∅ [])) ∅ [])) = 2%nat.
Proof.
  assert (Hnd : NoDup (map u_Id (liveUnits sc_pods))).
  { apply (bool_decide_unpack _). vm_compute. exact I. }
  destruct (unitUpdates_settles sc_pods ∅ Hnd) as (_ & Hlen & Hall).
  split; [exact Hall|exact Hlen].
Defined.


Lemma updateState_report_witness :
  snd (fst (updateState rp_lastReported rp_start)) = None /\
  fst (fst (updateState rp_lastReported rp_start)) !! "gitlab-1" =
    Some {| si_Status := "allocating"; si_Message := "started"; si_Data := tt;
            si_Since := None |} /\
  fst (fst (updateState rp_lastReported rp_start)) !! "gitlab-2" = None /\
  trace (snd (updateState rp_lastReported rp_start)) =
    [CService;
     CUpdateApplicationService {| us_ApplicationTag := "application-gitlab";
                                  us_ProviderId := "gitlab-svc";
                                  us_Addresses := ["10.152.183.7"] |};
     CAppUnits;
     CUpdateUnits
       {| ua_ApplicationTag := "application-gitlab";
          ua_Status := {| es_Status := "active"; es_Info := ""; es_Data := tt |};
          ua_Units :=
            [ {| up_ProviderId := "gitlab-0"; up_Address := "10.1.0.1"; up_Ports := ["8080"];
                 up_Stateful := true; up_Status := "unknown"; up_Info := ""; up_Data := tt;
                 up_FilesystemInfo := [] |};
              {| up_ProviderId := "gitlab-1"; up_Address := "10.1.0.1"; up_Ports := ["8080"];
                 up_Stateful := true; up_Status := "allocating"; up_Info := "started";
                 up_Data := tt; up_FilesystemInfo := [] |} ] |};
     CAnnotateUnit "gitlab" "gitlab-0" "unit-gitlab-0";
     CAnnotateUnit "gitlab" "gitlab-1" "unit-gitlab-1"] /\
  rp_annotated (world (snd (updateState rp_lastReported rp_start))) =
    [("gitlab-0", "unit-gitlab-0")].
Proof.
  pose (svc := {| svc_Id := "gitlab-svc"; svc_Addresses := ["10.152.183.7"];
                  svc_Status := {| si_Status := "active"; si_Message := "";
                                   si_Data := tt; si_Since := None |} |}).
  pose (args := {| ua_ApplicationTag := String.append "application-" (name (worker rp_start));
                   ua_Status := serviceStatus (Some svc);
                   ua_Units := map (unitParams rp_lastReported) (liveUnits sc_pods) |}).
  pose (forbidden := ErrNew Forbidden "application gitlab is not alive").
  pose (r1 := call CService Service rp_start).
  pose (r2 := call (CUpdateApplicationService (serviceArg "gitlab" svc))
                (UpdateApplicationService (serviceArg "gitlab" svc)) (snd r1)).
  pose (r3 := call CAppUnits AppUnits (snd r2)).
  pose (r4 := call (CUpdateUnits args) (UpdateUnits args) (snd r3)).
  pose (r5 := annotateUnits "gitlab" sc_acknowledged (snd r4)).
  assert (E1 : call CService Service rp_start = ((Some svc, None), snd r1))
    by (vm_compute; reflexivity).
  assert (E2 : call (CUpdateApplicationService (serviceArg (name (worker rp_start)) svc))
                 (UpdateApplicationService (serviceArg (name (worker rp_start)) svc)) (snd r1)
               = (None, snd r2)) by (vm_compute; reflexivity).
  assert (E3 : call CAppUnits AppUnits (snd r2) = ((sc_pods, None), snd r3))
    by (vm_compute; reflexivity).
  assert (E4 : call (CUpdateUnits args) (UpdateUnits args) (snd r3)
               = ((Some {| ui_Units := sc_acknowledged |}, Some forbidden), snd r4))
    by (vm_compute; reflexivity).
  assert (E5 : annotateUnits (name (worker rp_start))
                 (acknowledged (Some {| ui_Units := sc_acknowledged |})) (snd r4)
               = (None, snd r5)) by (vm_compute; reflexivity).
  pose proof (updateState_report rp_lastReported rp_start (snd r1) (Some svc) None E1) as H1.
  pose proof (H1 None (snd r2) E2) as H2.
  pose proof (H2 sc_pods None (snd r3) E3) as H3.
  destruct (H3 (Some {| ui_Units := sc_acknowledged |}) (Some forbidden) (snd r4) E4)
    as (_ & H4).
  destruct (H4 (or_intror (ex_intro _ forbidden (conj eq_refl (or_introl eq_refl))))
              None (snd r5) E5) as (H5 & _).
  rewrite H5. split_and!; vm_compute; reflexivity.
Defined.

Lemma buildContainers_spec_witness :
  fst (buildContainers (map_to_list (Meta_Containers sc_charmInfo))
         {[ "gitlab-image" := "docker.io/gitlab:latest" ]} ∅) !! "gitlab"
  = Some {| cc_Name := "gitlab"; cc_Image := "docker.io/gitlab:latest";
            cc_Mounts := [ {| StorageName := "database"; Path := "/srv/db" |} ] |}.
Proof.
  destruct (buildContainers_spec (Meta_Containers sc_charmInfo)
              {[ "gitlab-image" := "docker.io/gitlab:latest" ]}
              (map_to_list (Meta_Containers sc_charmInfo)) (reflexivity _)) as (_ & Hok & _).
  rewrite Hok; [|vm_compute; reflexivity]. vm_compute. reflexivity.
Defined.

Lemma alive_applies_once_witness :
  IntroductionSecret (lastApplied (worker (snd (alive sc_one_dead)))) = "secret" /\
  In (CEnsure (lastApplied (worker (snd (alive sc_one_dead)))))
     (trace (snd (alive sc_one_dead))).
Proof.
  pose (x := alive sc_one_dead).
  assert (E : alive sc_one_dead = (None, snd x)) by (vm_compute; reflexivity).
  destruct (alive_applies_once _ _ _ E) as (_ & _ & _ & _ & l & Htr & _ & Hens & Hchg).
  assert (Hl : l = trace (snd x)) by (rewrite Htr; reflexivity).
  unfold x in Hl.
  destruct Hchg as (_ & Hin); [vm_compute; discriminate|].
  destruct (Hens _ Hin) as (_ & Hsecret & _).
  split; [exact Hsecret|rewrite <- Hl; exact Hin].
Defined.

(** * Properties of the blocking operation queue *)

Module OpQueueFacts.
Import OpQueue.

Lemma step_timed_out ev q q' id :
  step ev q = Some q' ->
  state_of q id = Some TimedOut -> state_of q' id = Some TimedOut.
Proof.
  unfold state_of. intros Hstep Hst.
  destruct ev; simpl in Hstep; repeat case_match; simplify_eq; simpl;
    unfold set_state; try exact Hst;
    try (rewrite lookup_insert; case_decide; [subst|exact Hst];
         match goal with
         | H : q_ops q !! _ = _ |- _ => rewrite H in Hst; simpl in Hst; congruence
         end).
  - rewrite lookup_fmap. destruct (q_ops q !! id) as [p|]; [|discriminate].
    simpl in *. unfold expire. injection Hst as Hst. rewrite Hst. simpl. congruence.
  - rewrite lookup_fmap. destruct (q_ops q !! id) as [p|]; [|discriminate].
    simpl in *. unfold cancel. injection Hst as Hst. rewrite Hst. simpl. congruence.
Qed.

Lemma step_outbound_accepted ev q q' :
  step ev q = Some q' -> outbound_accepted q -> outbound_accepted q'.
Proof.
  unfold outbound_accepted. intros Hstep Hinv.
  assert (Hkeep : forall id0 p0 st,
    q_ops q !! id0 = Some p0 -> accepted (p_state p0) = false \/ accepted st = true ->
    forall id, id ∈ q_outbound q ->
    exists p, set_state q id0 p0 st !! id = Some p /\ accepted (p_state p) = true).
  { intros id0 p0 st Hp0 Hcase id Hin. unfold set_state.
    destruct (decide (id0 = id)) as [->|Hne].
    - rewrite lookup_insert_eq. eexists. split; [reflexivity|]. simpl.
      destruct Hcase as [Hnot|Hyes]; [|exact Hyes].
      destruct (Hinv id Hin) as (p & Hp & Hacc). congruence.
    - rewrite lookup_insert_ne by exact Hne. apply Hinv. exact Hin. }
  assert (Hmap : forall f : Pending -> Pending,
    (forall p, accepted (p_state p) = true -> f p = p) ->
    forall id, id ∈ q_outbound q ->
    exists p, (f <$> q_ops q) !! id = Some p /\ accepted (p_state p) = true).
  { intros f Hf id Hin. destruct (Hinv id Hin) as (p & Hp & Hacc).
    exists p. rewrite lookup_fmap, Hp. simpl. rewrite (Hf p Hacc). auto. }
  destruct ev; simpl in Hstep; repeat case_match; simplify_eq; simpl;
    try exact Hinv;
    try (intros id' Hin; eapply Hkeep; eauto;
         match goal with H : p_state _ = _ |- _ => rewrite H end; simpl; auto; fail).
  1-4: (* Enqueue: the identifier is fresh *)
    intros id' Hin; destruct (Hinv id' Hin) as (p & Hp & Hacc);
    exists p; (split; [|exact Hacc]);
    rewrite lookup_insert_ne; [exact Hp|intros ->; congruence].
  1-2: (* the operation is handed to the consumer *)
    intros id' Hin; apply elem_of_app in Hin as [Hin|Hin];
    [ eapply Hkeep; eauto
    | apply list_elem_of_singleton in Hin as ->; unfold set_state;
      rewrite lookup_insert_eq; eexists; split; reflexivity ].
  - (* Advance *)
    apply Hmap. intros p Hacc. unfold expire.
    destruct (p_state p); try reflexivity; discriminate.
  - (* Shutdown *)
    apply Hmap. intros p Hacc. unfold cancel.
    destruct (p_state p); try reflexivity; discriminate.
Qed.

Lemma step_offers_in_time ev q q' :
  step ev q = Some q' -> offers_in_time q -> offers_in_time q'.
Proof.
  unfold offers_in_time. intros Hstep Hinv.
  assert (Hset : forall id0 p0 st,
    (st = Offered -> q_now q < Deadline (p_op p0)) ->
    forall id p, set_state q id0 p0 st !! id = Some p -> p_state p = Offered ->
    q_now q < Deadline (p_op p)).
  { intros id0 p0 st Hst id p. unfold set_state. rewrite lookup_insert.
    case_decide.
    - intros [= <-]. simpl. exact Hst.
    - apply Hinv. }
  destruct ev; simpl in Hstep; repeat case_match; simplify_eq; simpl;
    try exact Hinv;
    try (apply Hset; try discriminate; intros _; lia).
  1-4: intros id' p'; rewrite lookup_insert; case_decide;
       [intros [= <-]; simpl; discriminate|apply Hinv].
  - (* Advance *)
    intros id' p'. rewrite lookup_fmap.
    destruct (q_ops q !! id') as [p0|]; [|discriminate]. simpl. intros [= <-].
    unfold expire. destruct (p_state p0) eqn:Hst0; simpl; try congruence.
    destruct (Z.leb_spec (Deadline (p_op p0)) (q_now q + d)); simpl; [discriminate|].
    intros _. lia.
  - (* Shutdown *)
    intros id' p'. rewrite lookup_fmap.
    destruct (q_ops q !! id') as [p0|] eqn:Hp0; [|discriminate]. simpl. intros [= <-].
    unfold cancel. destruct (p_state p0) eqn:Hst0; simpl; try congruence.
Qed.

Lemma run_timed_out evs q q' id :
  run evs q = Some q' ->
  state_of q id = Some TimedOut -> state_of q' id = Some TimedOut.
Proof.
  revert q. induction evs as [|ev rest IH]; intros q; simpl.
  - intros [= <-]. auto.
  - destruct (step ev q) as [q1|] eqn:Hstep; [|discriminate].
    intros Hrun Hst. eapply IH; eauto using step_timed_out.
Qed.

Lemma run_invariants evs q q' :
  run evs q = Some q' ->
  outbound_accepted q /\ offers_in_time q -> outbound_accepted q' /\ offers_in_time q'.
Proof.
  revert q. induction evs as [|ev rest IH]; intros q; simpl.
  - intros [= <-]. auto.
  - destruct (step ev q) as [q1|] eqn:Hstep; [|discriminate].
    intros Hrun [Hacc Hoff]. eapply IH; eauto using step_outbound_accepted, step_offers_in_time.
Qed.

Lemma NewBlockingOpQueue_invariants t0 :
  outbound_accepted (NewBlockingOpQueue t0) /\ offers_in_time (NewBlockingOpQueue t0).
Proof.
  split.
  - intros id Hin. simpl in Hin. inversion Hin.
  - intros id p Hp. simpl in Hp. rewrite lookup_empty in Hp. discriminate.
Qed.

Lemma run_app evs evs' q q1 q2 :
  run evs q = Some q1 -> run evs' q1 = Some q2 -> run (evs ++ evs') q = Some q2.
Proof.
  revert q. induction evs as [|ev rest IH]; intros q; simpl.
  - intros [= <-]. auto.
  - destruct (step ev q); [apply IH|discriminate].
Qed.

(** The two schedules of the test suite end as the tests expect: the
    operation whose deadline passes on offer gets [deadline exceeded] and is
    not among the commands observed. *)
Example TestEnqueueTimesout_run :
  exists q, run TestEnqueueTimesout (NewBlockingOpQueue 0) = Some q /\
            result q 1 = Some DeadlineExceeded /\ observed q = [].
Proof. eexists. split; [vm_compute; reflexivity|]. split; vm_compute; reflexivity. Qed.

Example TestMultipleEnqueueWithErrors_run :
  exists q, run TestMultipleEnqueueWithErrors (NewBlockingOpQueue 0) = Some q /\
            result q 0 = Some (Verdict None) /\
            result q 1 = Some DeadlineExceeded /\
            result q 2 = Some (Verdict None) /\
            observed q = ["abc-0"; "abc-2"].
Proof. eexists. split; [vm_compute; reflexivity|]. repeat split; vm_compute; reflexivity. Qed.

(** C3: in every run of the queue an operation still on offer has not
    reached its deadline; when the clock reaches the deadline of an operation
    the consumer has not accepted, the operation is withdrawn and its
    [Enqueue] returns [DeadlineExceeded]; from then on, however the run goes
    on, that result stands and the operation is not on the outbound stream.
    With a zero or negative time until the deadline, [Enqueue] still makes a
    non-blocking offer: the operation is delivered when the consumer is
    reading at that moment, and fails with [DeadlineExceeded] otherwise. *)
Theorem deadline_exceeded_never_observed :
  (forall t0 evs q id p,
     run evs (NewBlockingOpQueue t0) = Some q ->
     q_ops q !! id = Some p -> p_state p = Offered ->
     q_now q < Deadline (p_op p)) /\
  (forall q d id p,
     q_ops q !! id = Some p -> p_state p = Offered ->
     0 <= d -> Deadline (p_op p) <= q_now q + d ->
     exists q', step (Advance d) q = Some q' /\
                state_of q' id = Some TimedOut /\
                result q' id = Some DeadlineExceeded /\
                q_outbound q' = q_outbound q) /\
  (forall t0 evs evs' q q' id,
     run evs (NewBlockingOpQueue t0) = Some q ->
     state_of q id = Some TimedOut ->
     run evs' q = Some q' ->
     result q' id = Some DeadlineExceeded /\ id ∉ q_outbound q') /\
  (forall q id p,
     q_ops q !! id = Some p -> p_state p = New -> Deadline (p_op p) - q_now q <= 0 ->
     exists q', step (Offer id) q = Some q' /\
       (q_consumer q = Reading ->
        state_of q' id = Some Delivered /\ q_outbound q' = q_outbound q ++ [id]) /\
       (q_consumer q <> Reading ->
        result q' id = Some DeadlineExceeded /\ q_outbound q' = q_outbound q)).
Proof.
  split; [|split; [|split]].
  - intros t0 evs q id p Hrun.
    destruct (run_invariants _ _ _ Hrun (NewBlockingOpQueue_invariants t0)) as [_ Hoff].
    apply Hoff.
  - intros q d id p Hp Hst Hd Hlate. simpl.
    destruct (Z.leb_spec 0 d); [|lia].
    eexists. split; [reflexivity|].
    assert (Hto : state_of {| q_now := q_now q + d; q_consumer := q_consumer q;
                              q_outbound := q_outbound q;
                              q_ops := expire (q_now q + d) <$> q_ops q |} id
                  = Some TimedOut).
    { unfold state_of. simpl. rewrite lookup_fmap, Hp. simpl. unfold expire. rewrite Hst.
      destruct (Z.leb_spec (Deadline (p_op p)) (q_now q + d)); [reflexivity|lia]. }
    split; [exact Hto|]. split; [|reflexivity].
    unfold result. rewrite Hto. reflexivity.
  - intros t0 evs evs' q q' id Hrun Hst Hrun'.
    pose proof (run_timed_out _ _ _ _ Hrun' Hst) as Hst'.
    split; [unfold result; rewrite Hst'; reflexivity|].
    intros Hin.
    destruct (run_invariants _ _ _ (run_app _ _ _ _ _ Hrun Hrun')
                (NewBlockingOpQueue_invariants t0)) as [Hinv _].
    destruct (Hinv id Hin) as (p & Hp & Hacc).
    unfold state_of in Hst'. rewrite Hp in Hst'. simpl in Hst'.
    injection Hst' as Hst'. rewrite Hst' in Hacc. discriminate.
  - intros q id p Hp Hst Huntil. simpl. rewrite Hp, Hst.
    destruct (Z.leb_spec (Deadline (p_op p) - q_now q) 0); [|lia].
    assert (Hdel : state_of (deliver q id p) id = Some Delivered).
    { unfold state_of, deliver, set_state. simpl. rewrite lookup_insert_eq. reflexivity. }
    assert (Hout : result (with_ops q (set_state q id p TimedOut)) id = Some DeadlineExceeded).
    { unfold result, state_of, with_ops, set_state. simpl.
      rewrite lookup_insert_eq. reflexivity. }
    destruct (q_consumer q) eqn:Hc; eexists; (split; [reflexivity|]); split;
      try (intros ?; congruence); intros _; split; auto.
Qed.

Lemma deadline_exceeded_never_observed_witness :
  result q_after_timeout 1 = Some DeadlineExceeded /\
  (1%nat ∉ q_outbound q_after_timeout) /\
  observed q_after_timeout = ["abc-2"].
Proof.
  destruct deadline_exceeded_never_observed as (_ & _ & Hnever & _).
  assert (E1 : run TestEnqueueTimesout (NewBlockingOpQueue 0) = Some q_timed_out)
    by (vm_compute; reflexivity).
  assert (E2 : state_of q_timed_out 1 = Some TimedOut) by (vm_compute; reflexivity).
  assert (E3 : run After_timeout q_timed_out = Some q_after_timeout)
    by (vm_compute; reflexivity).
  destruct (Hnever 0 TestEnqueueTimesout After_timeout q_timed_out q_after_timeout 1%nat
              E1 E2 E3) as [Hres Hout].
  split; [exact Hres|]. split; [exact Hout|]. vm_compute. reflexivity.
Defined.

End OpQueueFacts.
